(** * Route Sync Unified V4: a shallow embedding and its checked properties

    The development follows [google-apps-script/route_sync_unified_v4.gs]
    (and [route_sync_dual_v3.gs] for the phone normaliser).  Pure helpers
    are Rocq functions with the names of the script; the batch loop, which
    mutates the pipeline state in place and talks to Drive, the OCR copy,
    the generative model and the geocoder, is written in a small state
    and exception monad over an explicit event trace.

    Text.  A JavaScript string is modelled by [string], read as a sequence
    of 7-bit ASCII characters.  On that alphabet the classes [\d], [\s],
    [\w], the assertion [\b], [trim], [toUpperCase] and [toLowerCase] are
    the functions below.  The en and em dash of [canonicalizeSchoolV4_]
    are outside the alphabet, so its dash class is the hyphen alone. *)

From Stdlib Require Import ZArith Lia QArith Ascii String List Sorted.
From stdpp Require Import base option list strings gmap pretty.

Local Open Scope Z_scope.


(** ** Characters and the JavaScript string primitives *)

Module Js.

Definition chars (s : string) : list ascii := list_ascii_of_string s.
Definition str (l : list ascii) : string := string_of_list_ascii l.

Definition code (c : ascii) : N := N_of_ascii c.

Definition between (lo hi : N) (c : ascii) : bool :=
  (lo <=? code c)%N && (code c <=? hi)%N.

(** [\d] *)
Definition is_digit (c : ascii) : bool := between 48 57 c.
Definition is_upper (c : ascii) : bool := between 65 90 c.
Definition is_lower (c : ascii) : bool := between 97 122 c.
(** [\w] *)
Definition is_word (c : ascii) : bool :=
  is_digit c || is_upper c || is_lower c || (code c =? 95)%N.
(** [\s]: tab, line feed, vertical tab, form feed, carriage return, space *)
Definition is_space (c : ascii) : bool :=
  between 9 13 c || (code c =? 32)%N.

Definition upper_char (c : ascii) : ascii :=
  if is_lower c then ascii_of_N (code c - 32) else c.
Definition lower_char (c : ascii) : ascii :=
  if is_upper c then ascii_of_N (code c + 32) else c.

Definition toUpperCase (s : string) : string := str (map upper_char (chars s)).
Definition toLowerCase (s : string) : string := str (map lower_char (chars s)).

Fixpoint dropWhile (p : ascii -> bool) (l : list ascii) : list ascii :=
  match l with
  | [] => []
  | c :: r => if p c then dropWhile p r else l
  end.

Definition trim_chars (l : list ascii) : list ascii :=
  rev (dropWhile is_space (rev (dropWhile is_space l))).

Definition trim (s : string) : string := str (trim_chars (chars s)).

(** [!s] on a string: only the empty string is falsy. *)
Definition falsy (s : string) : bool :=
  match s with EmptyString => true | _ => false end.

(** [a || b] on strings. *)
Definition or_else (a b : string) : string := if falsy a then b else a.

(** [s.replace(/\s+/g, ' ')] *)
Fixpoint collapse_ws (in_run : bool) (l : list ascii) : list ascii :=
  match l with
  | [] => []
  | c :: r =>
      if is_space c
      then if in_run then collapse_ws true r else " "%char :: collapse_ws true r
      else c :: collapse_ws false r
  end.

(** [s.replace(/\D/g, '')] *)
Definition digits_only (s : string) : string := str (filter (fun c => is_digit c = true) (chars s)).

(** [parseInt(ds, 10)] on a run of decimal digits *)
Definition digit_val (c : ascii) : Z := Z.of_N (code c) - 48.
Definition parseInt (ds : list ascii) : Z :=
  fold_left (fun acc c => 10 * acc + digit_val c) ds 0.

(** Does [l] start with [p], letters compared without case? *)
Fixpoint strip_prefix_ci (p l : list ascii) : option (list ascii) :=
  match p, l with
  | [], _ => Some l
  | _ :: _, [] => None
  | a :: p', c :: l' =>
      if Ascii.eqb (upper_char a) (upper_char c) then strip_prefix_ci p' l' else None
  end.

(** [\b] between the character before the position and the one at it. *)
Definition wordness (o : option ascii) : bool :=
  match o with Some c => is_word c | None => false end.
Definition boundary (prev next : option ascii) : bool :=
  negb (Bool.eqb (wordness prev) (wordness next)).

End Js.

Import Js.

(** ** Text normalisers of the script *)

(** [normalizeWsV4_]: [String(s || '').replace(/\s+/g, ' ').trim()] *)
Definition normalizeWsV4_ (s : string) : string :=
  str (trim_chars (collapse_ws false (chars s))).

(** The class [[-:,\s]] of [cleanLocationV4_]. *)
Definition is_sep (c : ascii) : bool :=
  is_space c || (code c =? 45)%N || (code c =? 58)%N || (code c =? 44)%N.

(** [replace(/\s+[-:,\s]+$/, '')]: cut at the leftmost white-space character
    that is followed, up to the end, by one or more separator characters. *)
Fixpoint strip_tail_seps (l : list ascii) : list ascii :=
  match l with
  | [] => []
  | c :: r =>
      if is_space c && negb (bool_decide (r = [])) && forallb is_sep r
      then []
      else c :: strip_tail_seps r
  end.

Definition cleanLocationV4_ (s : string) : string :=
  str (strip_tail_seps (dropWhile is_sep (chars (normalizeWsV4_ s)))).

(** [normalizeBusV4_] *)
Definition normalizeBusV4_ (v : string) : string :=
  let d := digits_only v in
  if falsy d then ""
  else if (String.length d =? 1)%nat then "00" +:+ d
  else if (String.length d =? 2)%nat then "0" +:+ d
  else d.

(** The time pattern [/^(\d{1,2})(?::(\d{2}))?\s*(AM|PM)?$/]; the three
    groups are returned, a group that did not take part as [None].  Every
    choice point of the pattern is forced by the next character (a digit,
    a colon, white space, a letter), so the greedy reading below is the
    only way the pattern can match.  [ci] is the [i] flag. *)
Record TimeMatch := {
  m_hour : list ascii;
  m_min : option (list ascii);
  m_ap : option (list ascii)
}.

Definition take_hour (l : list ascii) : option (list ascii * list ascii) :=
  match l with
  | a :: b :: r =>
      if is_digit a then
        if is_digit b then Some ([a; b], r) else Some ([a], b :: r)
      else None
  | [a] => if is_digit a then Some ([a], []) else None
  | [] => None
  end.

Definition take_minutes (l : list ascii) : option (list ascii) * list ascii :=
  match l with
  | c :: a :: b :: r =>
      if (code c =? 58)%N && is_digit a && is_digit b then (Some [a; b], r) else (None, l)
  | _ => (None, l)
  end.

Definition is_ampm (ci : bool) (l : list ascii) : bool :=
  let l' := if ci then map upper_char l else l in
  bool_decide (l' = chars "AM") || bool_decide (l' = chars "PM").

Definition match_time (ci : bool) (l : list ascii) : option TimeMatch :=
  match take_hour l with
  | None => None
  | Some (h, r1) =>
      let '(mm, r2) := take_minutes r1 in
      match dropWhile is_space r2 with
      | [] => Some {| m_hour := h; m_min := mm; m_ap := None |}
      | r3 => if is_ampm ci r3
              then Some {| m_hour := h; m_min := mm; m_ap := Some r3 |}
              else None
      end
  end.

(** [normalizeTimeV4_] *)
Definition normalizeTimeV4_ (t : string) : string :=
  let s := toUpperCase (normalizeWsV4_ t) in
  if falsy s then ""
  else match match_time false (chars s) with
       | None => s
       | Some m =>
           trim (str (m_hour m) +:+ ":" +:+
                 str (default (chars "00") (m_min m)) +:+
                 match m_ap m with Some ap => " " +:+ str ap | None => "" end)
       end.

(** [parseTimeMinsV4_]: minutes past midnight, [None] for JavaScript's
    [null].  The two final [return]s of the script compute the same value. *)
Definition parseTimeMinsV4_ (s : string) : option Z :=
  match match_time true (trim_chars (chars s)) with
  | None => None
  | Some m =>
      let h := parseInt (m_hour m) in
      let min := parseInt (default (chars "0") (m_min m)) in
      let ap := str (map upper_char (default [] (m_ap m))) in
      let h := if String.eqb ap "PM" && (h <? 12)%Z then h + 12 else h in
      let h := if String.eqb ap "AM" && (h =? 12)%Z then 0 else h in
      if String.eqb ap "" && (1 <=? h)%Z && (h <=? 11)%Z then Some (h * 60 + min)
      else Some (h * 60 + min)
  end.

(** ** Periods *)

Inductive Period := AM | PM | MidDay | Route.

#[global] Instance Period_eq_dec : EqDecision Period.
Proof. solve_decision. Defined.

(** The strings the script uses for the four periods. *)
Definition period_name (p : Period) : string :=
  match p with AM => "AM" | PM => "PM" | MidDay => "Mid-day" | Route => "Route" end.

(** The three range tests shared by [periodFromTimeV4_] and
    [canonicalPeriodV4_]; [None] when no test fires. *)
Definition period_of_minutes (t : Z) : option Period :=
  if (360 <=? t)%Z && (t <=? 570)%Z then Some AM
  else if (570 <? t)%Z && (t <? 840)%Z then Some MidDay
  else if (840 <=? t)%Z && (t <=? 1080)%Z then Some PM
  else None.

Definition periodFromTimeV4_ (time : string) : Period :=
  match parseTimeMinsV4_ time with
  | None => Route
  | Some t => default Route (period_of_minutes t)
  end.

(** [/\bW\b/.test(up)] for a pattern given as a matcher [pat] that returns
    what is left after a match at the head of its argument. *)
Fixpoint test_word (pat : list ascii -> option (list ascii))
    (prev : option ascii) (l : list ascii) : bool :=
  (boundary prev (head l) &&
   match pat l with
   | Some rest => boundary (last (take (length l - length rest) l)) (head rest)
   | None => false
   end)
  || match l with
     | [] => false
     | c :: r => test_word pat (Some c) r
     end.

Definition pat_lit (w : string) (l : list ascii) : option (list ascii) :=
  let p := chars w in
  if bool_decide (take (length p) l = p) then Some (drop (length p) l) else None.

(** [MID[-\s]?DAY] *)
Definition pat_midday (l : list ascii) : option (list ascii) :=
  match pat_lit "MID" l with
  | None => None
  | Some r =>
      match r with
      | c :: r' =>
          if is_space c || (code c =? 45)%N then pat_lit "DAY" r' else pat_lit "DAY" r
      | [] => None
      end
  end.

(** The keyword scan that ends [canonicalPeriodV4_]. *)
Definition keywordPeriod (schoolName : string) : Period :=
  let up := chars (toUpperCase schoolName) in
  if test_word (pat_lit "AM") None up then AM
  else if test_word (pat_lit "PM") None up then PM
  else if test_word pat_midday None up then MidDay
  else Route.

(** ** Routes and stops *)

Record Student := {
  name : string;
  contactName : string;
  phoneNumber : string;
  otherEquipment : string
}.

(** A stop as an extractor returns it.  A missing or non-string field is
    the empty string (the script reads every field through [|| '']), a
    missing student list is the empty list, and a [null] entry is a stop
    with no location: [cleanRouteV4_] drops both at the same test. *)
Record RawStop := {
  raw_time : string;
  raw_location : string;
  raw_students : list Student
}.

Record RawRoute := {
  raw_busNumber : string;
  raw_schoolName : string;
  raw_stops : list RawStop
}.

(** A stop after cleaning; [geocodeStopsV4_] later fills the last three
    fields in place. *)
Record Stop := {
  time : string;
  location : string;
  students : list Student;
  latitude : option Q;
  longitude : option Q;
  geocodeError : option string
}.

Record RouteDraft := {
  busNumber : string;
  schoolName : string;
  stops : list Stop
}.

(** ** Period of a route *)

(** One turn of the loop of [canonicalPeriodV4_] on the running minimum. *)
Definition best_step (best : option Z) (s : Stop) : option Z :=
  match parseTimeMinsV4_ (time s) with
  | None => best
  | Some t =>
      match best with
      | None => Some t
      | Some b => if (t <? b)%Z then Some t else Some b
      end
  end.

Definition earliestMins (ss : list Stop) : option Z := fold_left best_step ss None.

Definition canonicalPeriodV4_ (ss : list Stop) (school : string) : Period :=
  match earliestMins ss with
  | Some best =>
      match period_of_minutes best with
      | Some p => p
      | None => keywordPeriod school
      end
  | None => keywordPeriod school
  end.

(** ** Canonical school name and file stem *)

(** [replace(/\s*[-]\s*/g, ' ')], as a scan that holds back the white space
    read so far ([pend]) until it knows whether a hyphen follows;
    [after] is set while the trailing [\s*] of a match is being consumed. *)
Fixpoint dash_to_space (after : bool) (pend l : list ascii) : list ascii :=
  match l with
  | [] => pend
  | c :: r =>
      if (code c =? 45)%N then " "%char :: dash_to_space true [] r
      else if is_space c then
        if after then dash_to_space true [] r
        else dash_to_space false (pend ++ [c]) r
      else pend ++ c :: dash_to_space false [] r
  end.

(** A match of [\(?\s*ROUTE\s*\)?] at the head of [l]; what is left. *)
Definition match_route (l : list ascii) : option (list ascii) :=
  let l1 := match l with c :: r => if (code c =? 40)%N then r else l | [] => l end in
  match strip_prefix_ci (chars "ROUTE") (dropWhile is_space l1) with
  | None => None
  | Some l3 =>
      let l4 := dropWhile is_space l3 in
      Some match l4 with c :: r => if (code c =? 41)%N then r else l4 | [] => l4 end
  end.

(** [replace(/\b\(?\s*ROUTE\s*\)?/i, '')]: the first match only. *)
Fixpoint drop_route (prev : option ascii) (l : list ascii) : list ascii :=
  match (if boundary prev (head l) then match_route l else None) with
  | Some rest => rest
  | None =>
      match l with
      | [] => []
      | c :: r => c :: drop_route (Some c) r
      end
  end.

Definition is_period_note (l : list ascii) : bool :=
  let u := map upper_char l in
  bool_decide (u = chars "(AM)") || bool_decide (u = chars "(PM)") ||
  bool_decide (u = chars "(MIDDAY)") || bool_decide (u = chars "(MID-DAY)").

(** [replace(/\s+\((AM|PM|MID-?DAY)\)$/i, '')] *)
Fixpoint drop_period_note (l : list ascii) : list ascii :=
  match l with
  | [] => []
  | c :: r =>
      if is_space c && is_period_note (dropWhile is_space r) then []
      else c :: drop_period_note r
  end.

Definition canonicalizeSchoolV4_ (s : string) : string :=
  let s1 := map upper_char (chars s) in
  let s2 := dash_to_space false [] s1 in
  let s3 := drop_route None s2 in
  let s4 := drop_period_note s3 in
  str (trim_chars (collapse_ws false s4)).

Definition canonicalRouteFileStemV4_ (school : string) (ss : list Stop) : string :=
  canonicalizeSchoolV4_ school +:+ " (" +:+ period_name (canonicalPeriodV4_ ss school) +:+ ")".

(** ** Cleaning a route *)

(** [/^(LEFT|RIGHT|TURN|PROCEED|CONTINUE)\b/i.test(loc)] *)
Definition maneuver_words : list string :=
  ["LEFT"; "RIGHT"; "TURN"; "PROCEED"; "CONTINUE"].

Definition is_maneuver (loc : string) : bool :=
  existsb (fun w =>
    match strip_prefix_ci (chars w) (chars loc) with
    | Some rest => negb (wordness (head rest))
    | None => false
    end) maneuver_words.

(** The key under which [cleanRouteV4_] remembers a stop. *)
Definition stop_key (time loc : string) : string :=
  toLowerCase (time +:+ "|" +:+ loc).

(** The stop that one raw entry turns into, when the four [continue]
    tests before the key look-up let it through. *)
Definition clean_candidate (school : string) (s : RawStop) : option Stop :=
  if falsy (raw_location s) then None
  else
    let loc := cleanLocationV4_ (raw_location s) in
    if falsy loc then None
    else if String.eqb (toLowerCase loc) (toLowerCase school) then None
    else if is_maneuver loc then None
    else Some {| time := normalizeTimeV4_ (raw_time s);
                 location := loc;
                 students := raw_students s;
                 latitude := None; longitude := None; geocodeError := None |}.

(** One turn of the loop: the object [dedupe], used as a set of keys, and
    the array [outStops]. *)
Definition clean_step (school : string)
    (acc : gset string * list Stop) (s : RawStop) : gset string * list Stop :=
  let '(dedupe, outStops) := acc in
  match clean_candidate school s with
  | None => acc
  | Some st =>
      let key := stop_key (time st) (location st) in
      if decide (key ∈ dedupe) then acc
      else ({[key]} ∪ dedupe, outStops ++ [st])
  end.

Definition cleanRouteV4_ (route : RawRoute) (fallbackSchool fallbackBus : string)
    : RouteDraft :=
  let school :=
    or_else (trim (or_else (raw_schoolName route) fallbackSchool)) "Unknown Route" in
  let bus := normalizeBusV4_ (or_else (raw_busNumber route) fallbackBus) in
  let bus := if falsy bus then "N-A" else bus in
  {| busNumber := bus;
     schoolName := school;
     stops := snd (fold_left (clean_step school) (raw_stops route) (∅, [])) |}.

(** ** Phone numbers (route_sync_dual_v3.gs) *)

(** [raw.split('\n')] *)
Fixpoint split_lines (cur l : list ascii) : list (list ascii) :=
  match l with
  | [] => [cur]
  | c :: r =>
      if (code c =? 10)%N then cur :: split_lines [] r
      else split_lines (cur ++ [c]) r
  end.

(** The characters that [replace(/[^\dxX]/g, '')] keeps. *)
Definition phone_char (c : ascii) : bool :=
  is_digit c || (code c =? 120)%N || (code c =? 88)%N.

Definition strip_phone (l : list ascii) : list ascii :=
  filter (fun c => phone_char c = true) l.

Definition drop_country (l : list ascii) : list ascii :=
  match l with
  | c :: r => if (length l =? 11)%nat && (code c =? 49)%N then r else l
  | [] => l
  end.

Definition format_phone (l : list ascii) : list ascii :=
  if (10 <=? length l)%nat
  then take 3 l ++ chars "-" ++ take 3 (drop 3 l) ++ chars "-" ++ take 4 (drop 6 l)
  else l.

(** The three [map]s on one line. *)
Definition phone_line (l : list ascii) : string :=
  str (format_phone (drop_country (strip_phone l))).

(** The [filter] with its closure over [seen]. *)
Fixpoint filter_seen (seen : gset string) (l : list string) : list string :=
  match l with
  | [] => []
  | s :: r =>
      if falsy s then filter_seen seen r
      else if decide (s ∈ seen) then filter_seen seen r
      else s :: filter_seen ({[s]} ∪ seen) r
  end.

Definition phone_entries (raw : string) : list string :=
  filter_seen ∅ (map phone_line (split_lines [] (chars raw))).

Fixpoint join (sep : string) (l : list string) : string :=
  match l with
  | [] => ""
  | [s] => s
  | s :: r => s +:+ sep +:+ join sep r
  end.

Definition newline : string := String (ascii_of_N 10) EmptyString.

Definition normalizePhonesV3_ (raw : string) : string :=
  if falsy raw then "" else join newline (phone_entries raw).

(** ** Pipeline state, work items and artifacts *)

Record WorkItem := {
  routeType : string;
  fileId : string;
  fileName : string;
  updatedMs : Z;
  busNumberHint : string;
  schoolNameHint : string
}.

(** A JavaScript value as the geocode cache test sees it: a number or not. *)
Inductive JsVal := JNum (q : Q) | JOther.

Record CacheEntry := { lat : JsVal; lng : JsVal }.

#[global] Instance Q_eq_dec : EqDecision Q.
Proof. solve_decision. Defined.
#[global] Instance JsVal_eq_dec : EqDecision JsVal.
Proof. solve_decision. Defined.
#[global] Instance CacheEntry_eq_dec : EqDecision CacheEntry.
Proof. solve_decision. Defined.

(** [typeof cached.lat === 'number' && typeof cached.lng === 'number'] *)
Definition numeric_entry (e : CacheEntry) : option (Q * Q) :=
  match lat e, lng e with
  | JNum a, JNum b => Some (a, b)
  | _, _ => None
  end.

Record PipelineState := {
  queue : list WorkItem;
  pos : nat;
  processed : gmap string string;
  geocodeCache : gmap string CacheEntry
}.

Definition emptyState : PipelineState :=
  {| queue := []; pos := 0; processed := ∅; geocodeCache := ∅ |}.

Record Meta := {
  sourceType : string;
  sourceFileId : string;
  sourceFileName : string;
  sourceUpdatedMs : Z;
  generatedAt : string;
  model : string
}.

Record Artifact := {
  meta : Meta;
  art_busNumber : string;
  art_schoolName : string;
  art_period : string;
  art_stops : list Stop
}.

(** What a file under [Bus Stops] holds: the text of a route file, which
    is [JSON.stringify(artifact, null, 2)], a function of the artifact, and
    is kept as the artifact itself; the cells of the first sheet of a
    spreadsheet; or anything else. *)
Inductive Content :=
| JsonText (a : Artifact)
| SheetCells (values : list (list string))
| OtherContent.

Record DriveFile := {
  file_id : string;
  file_name : string;
  file_content : Content
}.

(** A bus folder under [Bus Stops] with its files.  Folders and files are
    listed in the order in which a search returns them. *)
Record Folder := {
  folder_name : string;
  folder_files : list DriveFile
}.

(** ** Configuration *)

Definition COUNTY_SUFFIX_V4 : string := ", Howard County, Maryland".
Definition MODEL_V4 : string := "gemini-2.5-flash".
Definition BATCH_SIZE_V4 : nat := 6.
Definition WRITE_JSON_V4 : bool := true.
Definition WRITE_SHEETS_V4 : bool := true.

(** ** The outside world *)

Inductive Result (A : Type) :=
| Ok (a : A)
| Throw (message : string).
Arguments Ok {A} a.
Arguments Throw {A} message.

(** What [JSON.parse] makes of the text of the first candidate. *)
Inductive CandidateJson :=
| TextMalformed
| TextNotArray
| TextArray (routes : list RawRoute).

(** What [JSON.parse] and the chain of [&&] make of a response body. *)
Inductive Body :=
| BodyMalformed
| BodyNoText
| BodyText (parsed : CandidateJson).

Record HttpResponse := {
  responseCode : Z;
  contentText : string;
  body : Body
}.

(** The calls that leave the script. *)
Inductive Event :=
| EvRegEdDoc (docId : string)
| EvOcr (pdfId : string)
| EvFetch (text : string)
| EvGeocode (query : string) (answer : Result (option (Q * Q)))
| EvSleep (ms : Z)
| EvUpsertJson (folder : nat) (file : string) (a : Artifact)
| EvUpsertSheet (folder : nat) (sheet : string) (r : RouteDraft).

(** The Drive and spreadsheet calls of the publishing step, grouped by
    what they can have changed when one of them throws. *)
Inductive DriveOp :=
| FindFolder    (* parent.getFoldersByName(name), hasNext, next *)
| CreateFolder  (* parent.createFolder(name) *)
| FindFile      (* folder.getFilesByName(fileName), hasNext, next *)
| SetContent    (* f.setContent(payload) *)
| CreateFile    (* folder.createFile(fileName, payload, MimeType.PLAIN_TEXT) *)
| FileId        (* f.getId() *)
| FindSheet     (* busFolder.getFilesByName(sheetName), hasNext, next *)
| OpenSheet     (* file.getId(), SpreadsheetApp.openById, file.getName() *)
| RenameSheet   (* file.setName(sheetName) *)
| CreateSheet   (* SpreadsheetApp.create(sheetName) *)
| MoveSheet     (* ss.getId(), DriveApp.getFileById, moveTo(busFolder) *)
| ClearSheet    (* ss.getSheets(), ss.insertSheet(), sh.clear *)
| WriteSheet    (* sh.getRange(...).setValues(values) *)
| FinishSheet.  (* sh.setFrozenRows, sh.autoResizeColumns, ss.getUrl() *)

(** The services the script calls.  Each answer may depend on everything
    that happened before ([list Event], latest first), so a service may
    fail on one attempt and answer on the next. *)
Record Services := {
  (** [parseRegEdDocV4_]: the Docs fetch with its retries and the red-line
      grouping, taken as a whole. *)
  regEdDoc : list Event → string → string → string → Result (list RawRoute);
  (** One attempt of the OCR copy in [ocrPdfToTextV4_]; the text is trimmed. *)
  ocrCopy : list Event → string → Result string;
  (** The script property [GEMINI_API_KEY]; empty when it is not set. *)
  apiKey : string;
  (** One [UrlFetchApp.fetch] with [muteHttpExceptions]: it throws only
      when no response arrives. *)
  urlFetch : list Event → string → Result HttpResponse;
  (** One [geocoder.geocode]: the location of the first result, if any. *)
  geocode : list Event → string → Result (option (Q * Q));
  (** [Math.floor(Math.random() * 200)] *)
  jitter : list Event → Z;
  (** [new Date().toISOString()] *)
  nowIso : list Event → string;
  (** Whether a Drive search for the name [wanted] returns an entry whose
      name is [actual]: [sameName wanted actual]. *)
  sameName : string → string → bool;
  (** A Drive or spreadsheet call may throw: the message, if it does. *)
  driveFault : list Event → DriveOp → option string;
  (** The id Drive gives a new file, and [ss.getUrl()]. *)
  newFileId : list Event → string;
  sheetUrl : list Event → string;
  (** [String(x)] for a number [x]. *)
  numberText : Q → string
}.

(** The mutable world of one run: the pipeline state, the log lines, the
    trace of outside calls (latest first) and the bus folders under
    [Bus Stops]. *)
Record World := {
  w_state : PipelineState;
  w_logs : list string;
  w_trace : list Event;
  w_drive : list Folder
}.

(** A computation that may throw; what it did to the world is kept also
    when it throws, as the script mutates in place. *)
Definition M (A : Type) : Type := World → Result A * World.

#[global] Instance M_ret : MRet M := fun A a w => (Ok a, w).
#[global] Instance M_bind : MBind M := fun A B f m w =>
  match m w with
  | (Ok a, w') => f a w'
  | (Throw e, w') => (Throw e, w')
  end.

Definition throw {A} (message : string) : M A := fun w => (Throw message, w).

(** [try { body } catch (err) { handler(err.message) }] *)
Definition try_catch {A} (body : M A) (handler : string → M A) : M A := fun w =>
  match body w with
  | (Ok a, w') => (Ok a, w')
  | (Throw e, w') => handler e w'
  end.

(** The world after one more outside call, and after one more log line. *)
Definition pushed (e : Event) (w : World) : World :=
  {| w_state := w_state w; w_logs := w_logs w;
     w_trace := e :: w_trace w; w_drive := w_drive w |}.

Definition logged (line : string) (w : World) : World :=
  {| w_state := w_state w; w_logs := w_logs w ++ [line];
     w_trace := w_trace w; w_drive := w_drive w |}.

Definition emit (e : Event) : M unit := fun w => (Ok tt, pushed e w).

(** [logs.push(line)] *)
Definition log (line : string) : M unit := fun w => (Ok tt, logged line w).

Definition getState : M PipelineState := fun w => (Ok (w_state w), w).
Definition setState (s : PipelineState) : M unit := fun w =>
  (Ok tt, {| w_state := s; w_logs := w_logs w;
             w_trace := w_trace w; w_drive := w_drive w |}).
Definition getTrace : M (list Event) := fun w => (Ok (w_trace w), w).
Definition getDrive : M (list Folder) := fun w => (Ok (w_drive w), w).
Definition setDrive (d : list Folder) : M unit := fun w =>
  (Ok tt, {| w_state := w_state w; w_logs := w_logs w;
             w_trace := w_trace w; w_drive := d |}).

(** Run a service answer as a computation. *)
Definition lift {A} (r : Result A) : M A := fun w => (r, w).

(** [for (...) body(x)] over an array, threading the world. *)
Fixpoint forEach {A} (body : A → M unit) (l : list A) : M unit :=
  match l with
  | [] => mret tt
  | x :: r => body x ;; forEach body r
  end.

(** A loop that rebuilds the array it walks. *)
Fixpoint mapM {A B} (body : A → M B) (l : list A) : M (list B) :=
  match l with
  | [] => mret []
  | x :: r => y ← body x; ys ← mapM body r; mret (y :: ys)
  end.

(** ** The script *)

Definition dquote : string := String (ascii_of_N 34) EmptyString.

(** [stripExtV4_]: cut at the last dot, if there is one. *)
Definition is_dot (c : ascii) : bool := (code c =? 46)%N.
Definition stripExtV4_ (name : string) : string :=
  let l := chars name in
  if existsb is_dot l
  then str (rev (tail (dropWhile (fun c => negb (is_dot c)) (rev l))))
  else name.

(** [String(item.updatedMs || '')], the stamp the skip test compares, and
    [String(item.updatedMs || 0)], the stamp that is stored. *)
Definition stamp_compared (ms : Z) : string := if (ms =? 0)%Z then "" else pretty ms.
Definition stamp_stored (ms : Z) : string := pretty ms.

Definition with_processed (s : PipelineState) (p : gmap string string) : PipelineState :=
  {| queue := queue s; pos := pos s; processed := p; geocodeCache := geocodeCache s |}.
Definition with_cache (s : PipelineState) (c : gmap string CacheEntry) : PipelineState :=
  {| queue := queue s; pos := pos s; processed := processed s; geocodeCache := c |}.
Definition with_pos (s : PipelineState) (n : nat) : PipelineState :=
  {| queue := queue s; pos := n; processed := processed s; geocodeCache := geocodeCache s |}.

Definition with_coords (s : Stop) (la ln : Q) : Stop :=
  {| time := time s; location := location s; students := students s;
     latitude := Some la; longitude := Some ln; geocodeError := geocodeError s |}.
Definition with_geocodeError (s : Stop) (e : string) : Stop :=
  {| time := time s; location := location s; students := students s;
     latitude := latitude s; longitude := longitude s; geocodeError := Some e |}.
Definition with_stops (r : RouteDraft) (ss : list Stop) : RouteDraft :=
  {| busNumber := busNumber r; schoolName := schoolName r; stops := ss |}.

(** The files of the folder at position [folder], and the folders with
    those files replaced. *)
Definition filesOf (folder : nat) (d : list Folder) : list DriveFile :=
  default [] (folder_files <$> d !! folder).

Definition withFiles (folder : nat) (files : list DriveFile) (d : list Folder) : list Folder :=
  alter (fun fo => {| folder_name := folder_name fo; folder_files := files |}) folder d.

Definition with_content (c : Content) (f : DriveFile) : DriveFile :=
  {| file_id := file_id f; file_name := file_name f; file_content := c |}.

Definition with_name (n : string) (f : DriveFile) : DriveFile :=
  {| file_id := file_id f; file_name := n; file_content := file_content f |}.

(** The rows of a route sheet. *)
Definition sheetHeaders : list string :=
  ["Stop Number"; "Time"; "Stop Location"; "Student Name"; "Contact Name";
   "Phone Number"; "Other Equipment"; "Latitude"; "Longitude"].

(** The rows [upsertSheetV4_] builds for the stop at index [i];
    [numText] is [String] on a number. *)
Definition stopRows (numText : Q → string) (i : nat) (s : Stop) : list (list string) :=
  let lat := match latitude s with Some q => numText q | None => "" end in
  let lng := match longitude s with Some q => numText q | None => "" end in
  match students s with
  | [] => [ [pretty (i + 1)%nat; time s; location s; ""; ""; ""; ""; lat; lng] ]
  | sts => map (fun st => [pretty (i + 1)%nat; time s; location s; name st; contactName st;
                           phoneNumber st; otherEquipment st; lat; lng]) sts
  end.

(** [values], the array written with [setValues]. *)
Definition sheetValues (numText : Q → string) (route : RouteDraft) : list (list string) :=
  sheetHeaders :: concat (imap (stopRows numText) (stops route)).

Section Script.
Context (sv : Services).

(** [withRetryV4_]: turn [i] of the loop, with [left] turns to go. *)
Fixpoint withRetry_from {A} (fn : M A) (baseMs : Z) (i left : nat)
    (lastErr : string) : M A :=
  match left with
  | O => throw lastErr
  | S left' =>
      try_catch fn (fun err =>
        match left' with
        | O => throw err
        | S _ =>
            tr ← getTrace;
            emit (EvSleep (baseMs * 2 ^ Z.of_nat i + jitter sv tr)) ;;
            withRetry_from fn baseMs (S i) left' err
        end)
  end.

Definition withRetryV4_ {A} (fn : M A) (attempts : nat) (baseMs : Z) : M A :=
  withRetry_from fn baseMs 0 attempts "null".

Definition parseRegEdDocV4_ (docId docName busHint : string) : M (list RawRoute) :=
  tr ← getTrace;
  emit (EvRegEdDoc docId) ;;
  lift (regEdDoc sv tr docId docName busHint).

Definition ocrPdfToTextV4_ (pdfId : string) : M string :=
  withRetryV4_ (tr ← getTrace; emit (EvOcr pdfId) ;; lift (ocrCopy sv tr pdfId)) 3 500.

(** One [UrlFetchApp.fetch] of the generative call. *)
Definition fetchOnce (text : string) : M HttpResponse :=
  tr ← getTrace; emit (EvFetch text) ;; lift (urlFetch sv tr text).

Definition extractSpecEdRoutesV4_ (text fallbackSchool fallbackBus : string)
    : M (list RawRoute) :=
  if falsy text then mret []
  else if falsy (apiKey sv) then throw "Missing GEMINI_API_KEY script property"
  else
    res ← withRetryV4_ (fetchOnce text) 3 1000;
    if negb (responseCode res =? 200)%Z
    then throw ("Gemini API " +:+ pretty (responseCode res) +:+ ": " +:+ contentText res)
    else
      match body res with
      | BodyMalformed => throw "SyntaxError: Unexpected token in JSON"
      | BodyNoText => mret []
      | BodyText txt =>
          (* [try { parsed = JSON.parse(txt); } catch (_err) { parsed = []; }] *)
          let parsed := match txt with TextMalformed => TextArray [] | p => p end in
          match parsed with
          | TextArray [] =>
              mret [ {| raw_busNumber := fallbackBus;
                        raw_schoolName := fallbackSchool;
                        raw_stops := [] |} ]
          | TextArray rs => mret rs
          | _ => mret []
          end
      end.

(** One geocoder call, as the closure handed to [withRetryV4_]. *)
Definition geocodeOnce (query : string) : M (option (Q * Q)) :=
  tr ← getTrace;
  emit (EvGeocode query (geocode sv tr query)) ;;
  lift (geocode sv tr query).

(** The body of the inner loop of [geocodeStopsV4_]. *)
Definition geocodeStop (stop : Stop) : M Stop :=
  let query := location stop +:+ COUNTY_SUFFIX_V4 in
  let key := toLowerCase query in
  st ← getState;
  match geocodeCache st !! key ≫= numeric_entry with
  | Some (la, ln) => mret (with_coords stop la ln)
  | None =>
      res ← withRetryV4_ (geocodeOnce query) 3 500;
      stop' ← match res with
              | Some (la, ln) =>
                  st ← getState;
                  setState (with_cache st
                    (<[key := {| lat := JNum la; lng := JNum ln |}]> (geocodeCache st))) ;;
                  mret (with_coords stop la ln)
              | None =>
                  mret (with_geocodeError stop
                          ("No match for " +:+ dquote +:+ location stop +:+ dquote))
              end;
      emit (EvSleep 150) ;;
      mret stop'
  end.

Definition geocodeStopsV4_ (routes : list RouteDraft) : M (list RouteDraft) :=
  mapM (fun r => ss ← mapM geocodeStop (stops r); mret (with_stops r ss)) routes.

(** A Drive or spreadsheet call: it throws when the service says so. *)
Definition driveCall (op : DriveOp) : M unit :=
  tr ← getTrace;
  match driveFault sv tr op with
  | Some e => throw e
  | None => mret tt
  end.

(** [getOrCreateSubfolderV4_(busStopsRoot, name)].  The folder it returns
    is given by its position under [Bus Stops]. *)
Definition getOrCreateSubfolderV4_ (name : string) : M nat :=
  driveCall FindFolder ;;
  d ← getDrive;
  match list_find (fun fo => sameName sv name (folder_name fo) = true) d with
  | Some (i, _) => mret i
  | None =>
      driveCall CreateFolder ;;
      setDrive (d ++ [ {| folder_name := name; folder_files := [] |} ]) ;;
      mret (length d)
  end.

Definition fileUrl (id : string) : string :=
  "https://drive.google.com/file/d/" +:+ id +:+ "/view".

Definition upsertJsonV4_ (folder : nat) (fileName : string) (obj : Artifact) : M string :=
  driveCall FindFile ;;
  tr ← getTrace;
  emit (EvUpsertJson folder fileName obj) ;;
  d ← getDrive;
  let files := filesOf folder d in
  id ← match list_find (fun f => sameName sv fileName (file_name f) = true) files with
       | Some (i, f) =>
           driveCall SetContent ;;
           setDrive (withFiles folder (<[i := with_content (JsonText obj) f]> files) d) ;;
           mret (file_id f)
       | None =>
           driveCall CreateFile ;;
           setDrive (withFiles folder
                       (files ++ [ {| file_id := newFileId sv tr; file_name := fileName;
                                      file_content := JsonText obj |} ]) d) ;;
           mret (newFileId sv tr)
       end;
  driveCall FileId ;;
  mret (fileUrl id).

(** The cells of the first sheet of the file at position [i] are replaced. *)
Definition setCells (folder i : nat) (values : list (list string)) : M unit :=
  d ← getDrive;
  setDrive (withFiles folder (alter (with_content (SheetCells values)) i (filesOf folder d)) d).

Definition upsertSheetV4_ (folder : nat) (sheetName : string) (route : RouteDraft)
    : M string :=
  driveCall FindSheet ;;
  tr ← getTrace;
  emit (EvUpsertSheet folder sheetName route) ;;
  d ← getDrive;
  let files := filesOf folder d in
  i ← match list_find (fun f => sameName sv sheetName (file_name f) = true) files with
      | Some (i, file) =>
          driveCall OpenSheet ;;
          match file_content file with
          | SheetCells _ =>
              if String.eqb (file_name file) sheetName then mret i
              else
                driveCall RenameSheet ;;
                setDrive (withFiles folder (<[i := with_name sheetName file]> files) d) ;;
                mret i
          | _ =>
              (* [SpreadsheetApp.openById] on a file that is no spreadsheet *)
              throw "Exception: the file is not a spreadsheet"
          end
      | None =>
          driveCall CreateSheet ;;
          driveCall MoveSheet ;;
          setDrive (withFiles folder
                      (files ++ [ {| file_id := newFileId sv tr; file_name := sheetName;
                                     file_content := SheetCells [] |} ]) d) ;;
          mret (length files)
      end;
  driveCall ClearSheet ;;
  setCells folder i [] ;;
  driveCall WriteSheet ;;
  setCells folder i (sheetValues (numberText sv) route) ;;
  driveCall FinishSheet ;;
  mret (sheetUrl sv tr).

(** The artifact of a route, written at time [now]. *)
Definition makeArtifact (item : WorkItem) (route : RouteDraft) (now : string) : Artifact :=
  {| meta := {| sourceType := routeType item;
                sourceFileId := fileId item;
                sourceFileName := fileName item;
                sourceUpdatedMs := updatedMs item;
                generatedAt := now;
                model := if String.eqb (routeType item) "SPECED_PDF"
                         then MODEL_V4 else "deterministic-red-lines" |};
     art_busNumber := busNumber route;
     art_schoolName := schoolName route;
     art_period := period_name (canonicalPeriodV4_ (stops route) (schoolName route));
     art_stops := stops route |}.

(** The body of the loop that ends [publishRoutesV4_]. *)
Definition publishOne (item : WorkItem) (route : RouteDraft) : M unit :=
  busFolder ← getOrCreateSubfolderV4_ (or_else (busNumber route) "N-A");
  let routeName := canonicalRouteFileStemV4_ (schoolName route) (stops route) in
  (if WRITE_JSON_V4 then
     tr ← getTrace;
     jsonUrl ← upsertJsonV4_ busFolder (routeName +:+ ".json")
                 (makeArtifact item route (nowIso sv tr));
     log ("[OK] " +:+ busNumber route +:+ " " +:+ routeName +:+ ".json -> " +:+ jsonUrl)
   else mret tt) ;;
  (if WRITE_SHEETS_V4 then
     sheet ← upsertSheetV4_ busFolder routeName route;
     log ("[OK] " +:+ busNumber route +:+ " " +:+ routeName +:+ " (sheet) -> " +:+ sheet)
   else mret tt).

Definition has_stops (r : RouteDraft) : bool :=
  match stops r with [] => false | _ => true end.

Definition publishRoutesV4_ (routes : list RawRoute) (item : WorkItem) : M unit :=
  match routes with
  | [] => log ("[WARN] " +:+ fileName item +:+ ": no routes extracted")
  | _ =>
      let cleaned :=
        List.filter has_stops
          (map (fun r => cleanRouteV4_ r (schoolNameHint item) (busNumberHint item)) routes) in
      match cleaned with
      | [] => log ("[WARN] " +:+ fileName item +:+ ": no valid stops after cleanup")
      | _ =>
          geocoded ← geocodeStopsV4_ cleaned;
          forEach (publishOne item) geocoded
      end
  end.

(** The extraction chosen by [item.routeType]. *)
Definition extractRoutes (item : WorkItem) : M (list RawRoute) :=
  if String.eqb (routeType item) "REGED_DOC" then
    parseRegEdDocV4_ (fileId item) (fileName item) (busNumberHint item)
  else if String.eqb (routeType item) "SPECED_PDF" then
    text ← ocrPdfToTextV4_ (fileId item);
    extractSpecEdRoutesV4_ text
      (or_else (schoolNameHint item) (stripExtV4_ (fileName item)))
      (busNumberHint item)
  else mret [].

(** [state.processed[item.fileId] = String(item.updatedMs || 0)] *)
Definition markProcessed (item : WorkItem) : M unit :=
  st ← getState;
  setState (with_processed st
              (<[fileId item := stamp_stored (updatedMs item)]> (processed st))).

(** The body of the batch loop of [syncRoutesUnifiedV4]. *)
Definition processItem (item : WorkItem) : M unit :=
  if falsy (fileId item) || falsy (routeType item) then mret tt
  else
    st ← getState;
    let prev := processed st !! fileId item in
    if String.eqb (default "" prev) (stamp_compared (updatedMs item)) then
      log ("[SKIP] " +:+ routeType item +:+ " " +:+ fileName item +:+ ": unchanged")
    else
      try_catch
        (routes ← extractRoutes item;
         publishRoutesV4_ routes item ;;
         markProcessed item)
        (fun err =>
           log ("[ERROR] " +:+ routeType item +:+ " " +:+ fileName item +:+ ": " +:+ err)).

(** [state.pos++] *)
Definition advance : M unit :=
  st ← getState;
  setState (with_pos st (S (pos st))).

(** One turn of [for (; state.pos < end; state.pos++)]. *)
Definition batchTurn : M unit :=
  st ← getState;
  match queue st !! pos st with
  | Some item => processItem item
  | None => mret tt
  end ;;
  advance.

Fixpoint repeatM (n : nat) (m : M unit) : M unit :=
  match n with
  | O => mret tt
  | S n' => m ;; repeatM n' m
  end.

(** The batch of one run: from [state.pos] to
    [Math.min(state.pos + BATCH_SIZE_V4, state.queue.length)]. *)
Definition runBatch : M unit :=
  st ← getState;
  let stop := Nat.min (pos st + BATCH_SIZE_V4) (length (queue st)) in
  repeatM (stop - pos st) batchTurn.

End Script.

(** ** Loading the state *)

(** What the state file holds, as [loadStateV4_] reads it: text that
    cannot be read or parsed; the JSON value [null], on which the first
    property access throws; or any other value, of which only four
    properties are looked at.  A property is [None] when the script's test
    for it fails ([Array.isArray] for the queue, truthiness for the rest),
    so a JSON number, string or boolean is a value with four [None]s. *)
Inductive StateDoc :=
| DocNotJson
| DocNull
| DocValue (q : option (list WorkItem)) (p : option nat)
           (pr : option (gmap string string)) (gc : option (gmap string CacheEntry)).

(** The body of the [try] block. *)
Definition readState (doc : StateDoc) : Result PipelineState :=
  match doc with
  | DocNotJson => Throw "SyntaxError: Unexpected token in JSON"
  | DocNull => Throw "TypeError: Cannot read properties of null"
  | DocValue q p pr gc =>
      Ok {| queue := default [] q;
            pos := default 0%nat p;
            processed := default ∅ pr;
            geocodeCache := default ∅ gc |}
  end.

(** [try { ... } catch (_err) { ... }] on plain results. *)
Definition catch {A} (r : Result A) (handler : string → Result A) : Result A :=
  match r with
  | Ok a => Ok a
  | Throw e => handler e
  end.

(** [loadStateV4_], given the outcome of the Drive calls that stand
    before its [try] block ([DriveApp.getFolderById], [root.getFilesByName]
    and [it.hasNext()]): one of them throws, or the search finds no file,
    or it finds a file, of which the first is read. *)
Definition loadStateV4_ (found : Result (option StateDoc)) : Result PipelineState :=
  match found with
  | Throw e => Throw e
  | Ok None => Ok emptyState
  | Ok (Some doc) => catch (readState doc) (fun _ => Ok emptyState)
  end.

(** ** Vocabulary for the statements about periods *)

(** The stop times of a route that parse, as minutes past midnight. *)
Definition parsedTimes (ss : list Stop) : list Z :=
  omap (fun s => parseTimeMinsV4_ (time s)) ss.

(** [t] is the earliest parseable stop time of the route. *)
Definition earliest_is (ss : list Stop) (t : Z) : Prop :=
  t ∈ parsedTimes ss ∧ ∀ t', t' ∈ parsedTimes ss → t <= t'.

Definition no_time_parses (ss : list Stop) : Prop :=
  Forall (fun s => parseTimeMinsV4_ (time s) = None) ss.





(** A stop that carries only a time and a place. *)
Definition stop_at (t loc : string) : Stop :=
  {| time := t; location := loc; students := [];
     latitude := None; longitude := None; geocodeError := None |}.


(** First occurrence wins: keep an element, drop every later element
    with the same key. *)
Fixpoint first_by {A K} `{EqDecision K} (key : A → K) (l : list A) : list A :=
  match l with
  | [] => []
  | x :: r => x :: filter (fun y => key y ≠ key x) (first_by key r)
  end.

(** The stops of a raw route that survive the four [continue] tests, in
    source order. *)
Definition candidates (school : string) (raw : list RawStop) : list Stop :=
  omap (clean_candidate school) raw.

Definition key_of (s : Stop) : string := stop_key (time s) (location s).

(** The key of de-duplication as the specification words it: the pair of
    normalized time and location, letter case set aside. *)
Definition time_location_ci (s : Stop) : string * string :=
  (toLowerCase (time s), toLowerCase (location s)).

(** A route with two stops that differ in time and in place, and whose
    texts [time|location] coincide. *)
Definition barRoute : RawRoute :=
  {| raw_busNumber := "21"; raw_schoolName := "Guilford Park";
     raw_stops := [ {| raw_time := "noon"; raw_location := "Elm St|Oak Ave";
                       raw_students := [] |};
                    {| raw_time := "noon|Elm St"; raw_location := "Oak Ave";
                       raw_students := [] |} ] |}.

Definition repeatedStopRoute : RawRoute :=
  {| raw_busNumber := "21"; raw_schoolName := "Guilford Park";
     raw_stops := [ {| raw_time := "6:42 am"; raw_location := "123 Main St";
                       raw_students := [] |};
                    {| raw_time := "7:05"; raw_location := "9 Oak Ave";
                       raw_students := [] |};
                    {| raw_time := "6:42 AM"; raw_location := "123 MAIN ST";
                       raw_students := [] |} ] |}.

(** The phone normaliser as the specification words it: every character
    that is not a digit is removed, a leading 1 of eleven digits is
    dropped, and exactly ten digits are written XXX-XXX-XXXX. *)
Definition phone_line_spec (l : list ascii) : string :=
  let d := filter (fun c => is_digit c = true) l in
  let d := match d with
           | c :: r => if (length d =? 11)%nat && (code c =? 49)%N then r else d
           | [] => d
           end in
  str (if (length d =? 10)%nat
       then take 3 d ++ chars "-" ++ take 3 (drop 3 d) ++ chars "-" ++ drop 6 d
       else d).

Definition normalizePhones_spec (raw : string) : string :=
  if falsy raw then ""
  else join newline
         (first_by id (filter (fun s => s ≠ "")
                         (map phone_line_spec (split_lines [] (chars raw))))).

(** The characters of a normalised line. *)
Definition phone_out_char (c : ascii) : Prop :=
  phone_char c = true ∨ c = "-"%char.


(** ** Environments for the examples *)

(** Services that answer the same way on every call. *)
Definition constServices (ocr : Result string) (fetch : Result HttpResponse)
    (geo : Result (option (Q * Q))) : Services :=
  {| regEdDoc := fun _ _ _ _ => Ok [];
     ocrCopy := fun _ _ => ocr;
     apiKey := "secret";
     urlFetch := fun _ _ => fetch;
     geocode := fun _ _ => geo;
     jitter := fun _ => 0;
     nowIso := fun tr => pretty (length tr);
     sameName := String.eqb;
     driveFault := fun _ _ => None;
     newFileId := fun tr => "file-" +:+ pretty (length tr);
     sheetUrl := fun _ => "https://docs.google.com/spreadsheets/d/sheet";
     numberText := fun q => pretty (Qnum q) +:+ "/" +:+ pretty (Z.pos (Qden q)) |}.

Definition startWorld (s : PipelineState) : World :=
  {| w_state := s; w_logs := []; w_trace := []; w_drive := [] |}.

Definition response (code : Z) (b : Body) : HttpResponse :=
  {| responseCode := code; contentText := "(body)"; body := b |}.

(** ** Vocabulary for the statements about a run *)

(** [m] keeps the invariant [I] and moves the world along [R], whether
    it returns or throws. *)
Definition stable (I : World → Prop) (R : World → World → Prop) {A} (m : M A) : Prop :=
  ∀ w, I w → I (m w).2 ∧ R w (m w).2.

Definition is_geocode (e : Event) : bool :=
  match e with EvGeocode _ _ => true | _ => false end.

(** The cache only gains: an entry stays, one with numeric coordinates
    stays as it is, and whatever is new or changed has numeric coordinates. *)
Definition cache_grows (c c' : gmap string CacheEntry) : Prop :=
  ∀ k, match c !! k with
       | Some e => ∃ e', c' !! k = Some e' ∧
                         (is_Some (numeric_entry e) → e' = e) ∧
                         (e' ≠ e → is_Some (numeric_entry e'))
       | None => ∀ e', c' !! k = Some e' → is_Some (numeric_entry e')
       end.

(** In a trace (latest call first), no geocoder call is made for a query
    that an earlier call, equal up to letter case, has found a match for. *)
Fixpoint no_call_after_match (tr : list Event) : Prop :=
  match tr with
  | [] => True
  | e :: earlier =>
      match e with
      | EvGeocode q _ =>
          ∀ q' a, EvGeocode q' (Ok (Some a)) ∈ earlier → toLowerCase q' ≠ toLowerCase q
      | _ => True
      end ∧ no_call_after_match earlier
  end.

(** Every match found so far is in the cache. *)
Definition matches_cached (w : World) : Prop :=
  ∀ q a, EvGeocode q (Ok (Some a)) ∈ w_trace w →
         ∃ e, geocodeCache (w_state w) !! toLowerCase q = Some e ∧
              is_Some (numeric_entry e).

(** The trace only grows, at its head. *)
Definition trace_grows (w w' : World) : Prop := w_trace w `suffix_of` w_trace w'.

(** The world after [markProcessed]. *)
Definition marked (item : WorkItem) (w : World) : World :=
  {| w_state := with_processed (w_state w)
                  (<[fileId item := stamp_stored (updatedMs item)]> (processed (w_state w)));
     w_logs := w_logs w; w_trace := w_trace w; w_drive := w_drive w |}.

(** The routes of an extraction that survive the cleaning. *)
Definition cleanedRoutes (item : WorkItem) (routes : list RawRoute) : list RouteDraft :=
  List.filter has_stops
    (map (fun r => cleanRouteV4_ r (schoolNameHint item) (busNumberHint item)) routes).

(** The invariant and the progress relation of the geocode cache. *)
Definition cache_inv (w : World) : Prop :=
  matches_cached w ∧ no_call_after_match (w_trace w).

Definition cache_step (w w' : World) : Prop :=
  trace_grows w w' ∧
  cache_grows (geocodeCache (w_state w)) (geocodeCache (w_state w')).

(** An event of a retried geocoder call that found nothing out: a pause,
    or a call for [q] that threw. *)
Definition failing (q : string) (e : Event) : Prop :=
  match e with
  | EvSleep _ => True
  | EvGeocode q' (Throw _) => q' = q
  | _ => False
  end.

(** No call so far has found a match for the key of [q]. *)
Definition unmatched (q : string) (tr : list Event) : Prop :=
  ∀ q' a, EvGeocode q' (Ok (Some a)) ∈ tr → toLowerCase q' ≠ toLowerCase q.

(** A route of two stops at one address, and services whose geocoder
    finds nothing. *)
Definition twoStopsOneAddress : RouteDraft :=
  {| busNumber := "021"; schoolName := "GUILFORD PARK";
     stops := [stop_at "6:42 AM" "9 Oak Ct"; stop_at "6:50 AM" "9 Oak Ct"] |}.

Definition noMatchServices : Services :=
  constServices (Ok "text") (Throw "down") (Ok None).

Definition matchServices : Services :=
  constServices (Ok "text") (Throw "down") (Ok (Some (3912345 # 100000, -7654321 # 100000)%Q)).

(** ** Vocabulary for the statements about publishing *)










(** Every white-space character is a single space between two other
    characters. *)
Fixpoint spaced (l : list ascii) : Prop :=
  match l with
  | [] => True
  | c :: r =>
      (is_space c = true →
         c = " "%char ∧ match r with [] => True | d :: _ => is_space d = false end)
      ∧ spaced r
  end.

Definition tidy (l : list ascii) : Prop :=
  spaced l ∧
  (∀ c, head l = Some c → is_space c = false) ∧
  (∀ c, last l = Some c → is_space c = false).


(** What may follow a word character of a plain name: more word
    characters, or one space and then a word character. *)
Fixpoint plain_tail (l : list ascii) : bool :=
  match l with
  | [] => true
  | c :: r =>
      if is_word c then plain_tail r
      else (code c =? 32)%N
           && match r with d :: _ => is_word d | [] => false end
           && plain_tail r
  end.

(** No word of [l] begins with ROUTE; [start] tells whether [l] begins
    at the start of a word. *)
Fixpoint route_free (start : bool) (l : list ascii) : bool :=
  match l with
  | [] => true
  | c :: r =>
      negb (start && bool_decide (is_Some (strip_prefix_ci (chars "ROUTE") l)))
      && route_free (negb (is_word c)) r
  end.

(** A plain school name: one or more words of letters, digits and
    underscores, one space between two words, and no word that begins
    with ROUTE, whatever the case of its letters. *)
Definition plain_name (x : string) : Prop :=
  let u := map upper_char (chars x) in
  match u with
  | c :: r => is_word c = true ∧ plain_tail r = true
  | [] => False
  end ∧ route_free true u = true.

(** A text that is empty or begins with a space. *)
Definition starts_blank (l : list ascii) : Prop :=
  match l with [] => True | c :: _ => c = " "%char end.

(** What the replacements of [canonicalizeSchoolV4_] make of a text that
    follows a word character. *)
Definition canonical_rest (l : list ascii) : list ascii :=
  collapse_ws false
    (drop_period_note (drop_route (Some "A"%char) (dash_to_space false [] l))).

(** A work item and the worlds after publishing one route of it once and
    twice. *)
Definition guilfordPdf : WorkItem :=
  {| routeType := "SPECED_PDF"; fileId := "pdf-1";
     fileName := "021 GUILFORD PARK.pdf"; updatedMs := 1700000000000;
     busNumberHint := "021"; schoolNameHint := "GUILFORD PARK" |}.



(** The scenario of one scanned sheet: OCR text with a stop line and a
    maneuver line, an extraction of one stop with one student, and a
    geocoder that finds the address. *)
Definition sheetServices : Services :=
  constServices (Ok "6:42 AM 123 Main St LEFT ON OAK")
    (Ok (response 200 (BodyText (TextArray
       [ {| raw_busNumber := "21"; raw_schoolName := "Guilford Park";
            raw_stops :=
              [ {| raw_time := "6:42 AM"; raw_location := "123 Main St";
                   raw_students :=
                     [ {| name := "A. Student"; contactName := "";
                          phoneNumber := "410-555-0100"; otherEquipment := "" |} ] |} ] |} ]))))
    (Ok (Some (3912345 # 100000, -7654321 # 100000)%Q)).

Definition sheetWorld : World :=
  startWorld {| queue := [guilfordPdf]; pos := 0; processed := ∅; geocodeCache := ∅ |}.

(** The queue and the cursor are left as they are. *)
Definition same_cursor (w w' : World) : Prop :=
  queue (w_state w') = queue (w_state w) ∧ pos (w_state w') = pos (w_state w).

(** The items of the batch of a run, in the order they are taken. *)
Definition batchItems (s : PipelineState) : list WorkItem :=
  take (Nat.min (pos s + BATCH_SIZE_V4) (length (queue s)) - pos s) (drop (pos s) (queue s)).

(** ** Vocabulary for the statements about the text normalisers *)

Definition all_digits (l : list ascii) : Prop := Forall (fun c => is_digit c = true) l.

Definition no_space (l : list ascii) : Prop := Forall (fun c => is_space c = false) l.

(** ** Vocabulary for the statements about times *)

(** The groups of a match with the letters of the third in upper case. *)
Definition upper_match (m : TimeMatch) : TimeMatch :=
  {| m_hour := m_hour m; m_min := m_min m; m_ap := map upper_char <$> m_ap m |}.

(** The text [normalizeTimeV4_] builds from the groups of a match, before
    the final [trim]. *)
Definition render_time (m : TimeMatch) : list ascii :=
  m_hour m ++ chars ":" ++ default (chars "00") (m_min m) ++
  match m_ap m with Some ap => chars " " ++ ap | None => [] end.

(** The groups as the time pattern can fill them without the [i] flag. *)
Definition plain_match (m : TimeMatch) : Prop :=
  ((∃ a, m_hour m = [a] ∧ is_digit a = true) ∨
   (∃ a b, m_hour m = [a; b] ∧ is_digit a = true ∧ is_digit b = true)) ∧
  (m_min m = None ∨ ∃ a b, m_min m = Some [a; b] ∧ is_digit a = true ∧ is_digit b = true) ∧
  (m_ap m = None ∨ m_ap m = Some (chars "AM") ∨ m_ap m = Some (chars "PM")).

(** A text in upper case with every run of white space collapsed. *)
Definition squeeze (l : list ascii) : list ascii := map upper_char (collapse_ws false l).

(** Minutes past midnight from the groups of a match, as
    [parseTimeMinsV4_] computes them. *)
Definition minutes_of (m : TimeMatch) : Z :=
  let h := parseInt (m_hour m) in
  let min := parseInt (default (chars "0") (m_min m)) in
  let ap := str (map upper_char (default [] (m_ap m))) in
  let h := if String.eqb ap "PM" && (h <? 12)%Z then h + 12 else h in
  let h := if String.eqb ap "AM" && (h =? 12)%Z then 0 else h in
  h * 60 + min.

(** ** Vocabulary for the statements about a batch *)

(** The table of processed files is left as it is. *)
Definition same_processed (w w' : World) : Prop :=
  processed (w_state w') = processed (w_state w).

Definition is_fetch (e : Event) : bool :=
  match e with EvFetch _ => true | _ => false end.

Definition is_sleep (e : Event) : bool :=
  match e with EvSleep _ => true | _ => false end.

(** ** Vocabulary for the statements about geocoding *)

(** [s'] is [s] with the outcome of its geocoding filled in: coordinates
    or an error note, and nothing else touched. *)
Definition resolved (s s' : Stop) : Prop :=
  time s' = time s ∧ location s' = location s ∧ students s' = students s ∧
  ((is_Some (latitude s') ∧ is_Some (longitude s')) ∨ is_Some (geocodeError s')).

(** The coordinates the cache holds for a stop, if it holds numbers. *)
Definition cachedCoords (c : gmap string CacheEntry) (s : Stop) : option (Q * Q) :=
  c !! toLowerCase (location s +:+ COUNTY_SUFFIX_V4) ≫= numeric_entry.

(** A stop with the coordinates the cache holds for it. *)
Definition withCachedCoords (c : gmap string CacheEntry) (s : Stop) : Stop :=
  match cachedCoords c s with
  | Some (la, ln) => with_coords s la ln
  | None => s
  end.

(** The log only gains lines, at its end. *)
Definition logs_grow (w w' : World) : Prop := w_logs w `prefix_of` w_logs w'.

Definition same_logs (w w' : World) : Prop := w_logs w' = w_logs w.

(** A line of the log of a batch starts with one of four tags. *)
Definition tagged (line : string) : Prop :=
  ∃ rest, line = "[SKIP] " +:+ rest ∨ line = "[WARN] " +:+ rest ∨
          line = "[OK] " +:+ rest ∨ line = "[ERROR] " +:+ rest.

(** The log gains tagged lines only, at its end. *)
Definition logs_tagged (w w' : World) : Prop :=
  ∃ new, w_logs w' = w_logs w ++ new ∧ Forall tagged new.

(** A canonical route name: what [canonicalRouteFileStemV4_] can return. *)
Definition route_stem (n : string) : Prop :=
  ∃ school ss, n = canonicalRouteFileStemV4_ school ss.

(** [f'] is the file [f] later on: with the id and the name of [f]. *)
Definition file_same (f f' : DriveFile) : Prop :=
  file_id f' = file_id f ∧ file_name f' = file_name f.

(** [f'] is the file [f] later on: with the id of [f], and with its name
    unless it has been given a canonical route name. *)
Definition file_kept (f f' : DriveFile) : Prop :=
  file_id f' = file_id f ∧ (file_name f' = file_name f ∨ route_stem (file_name f')).

(** [l'] is [l] later on: every item is still there, in its place, and
    new items stand behind them. *)
Definition grown {A} (R : A → A → Prop) (l l' : list A) : Prop :=
  ∃ kept more, l' = kept ++ more ∧ Forall2 R l kept.

(** The bus folders only gain: a folder stays where it is with its name,
    and the files it held stay where they were. *)
Definition drive_grows (Rf : DriveFile → DriveFile → Prop) (d d' : list Folder) : Prop :=
  grown (fun fo fo' => folder_name fo' = folder_name fo ∧
                       grown Rf (folder_files fo) (folder_files fo')) d d'.

Definition drive_step (Rf : DriveFile → DriveFile → Prop) (w w' : World) : Prop :=
  drive_grows Rf (w_drive w) (w_drive w').

(** A search by name returns the entries of exactly that name. *)
Definition exact_search (sv : Services) : Prop :=
  ∀ wanted actual, sameName sv wanted actual = true → wanted = actual.

(** ** Vocabulary for the statements about cleaned routes *)

(** A bus number as the cleaning leaves it: the placeholder, or three or
    more digits. *)
Definition bus_label (b : string) : Prop :=
  b = "N-A" ∨ (all_digits (chars b) ∧ (3 ≤ length (chars b))%nat).

(** A stop as the cleaning leaves it, for a route of school [school]. *)
Definition clean_stop (school : string) (s : Stop) : Prop :=
  location s ≠ "" ∧
  cleanLocationV4_ (location s) = location s ∧
  toLowerCase (location s) ≠ toLowerCase school ∧
  is_maneuver (location s) = false ∧
  normalizeTimeV4_ (time s) = time s ∧
  latitude s = None ∧ longitude s = None ∧ geocodeError s = None.

(** ** Names of source files *)

(** The longest run of digits at the head of a text. *)
Fixpoint digit_run (l : list ascii) : list ascii :=
  match l with
  | c :: r => if is_digit c then c :: digit_run r else []
  | [] => []
  end.

(** [name.match(/\b(\d{1,4})\b/)]: the leftmost run of one to four digits
    that stands between two word boundaries.  A shorter part of a run
    cannot match, as a digit would follow it. *)
Fixpoint find_bus (prev : option ascii) (l : list ascii) : option (list ascii) :=
  match l with
  | [] => None
  | c :: r =>
      let ds := digit_run l in
      if boundary prev (Some c) && (1 <=? length ds)%nat && (length ds <=? 4)%nat
         && boundary (last ds) (head (drop (length ds) l))
      then Some ds
      else find_bus (Some c) r
  end.

Definition extractBusNumberV4_ (name : string) : string :=
  match find_bus None (chars name) with
  | Some ds => normalizeBusV4_ (str ds)
  | None => ""
  end.

(** [replace(/^\s*\d{1,4}\s+/, '')] *)
Definition drop_bus_prefix (l : list ascii) : list ascii :=
  let l1 := dropWhile is_space l in
  let ds := digit_run l1 in
  let rest := drop (length ds) l1 in
  if (1 <=? length ds)%nat && (length ds <=? 4)%nat
     && match rest with c :: _ => is_space c | [] => false end
  then dropWhile is_space rest
  else l.

Definition inferSchoolNameV4_ (name : string) : string :=
  trim (str (drop_bus_prefix (chars (stripExtV4_ name)))).

(** ** The queue *)

Inductive Mime := GoogleDocs | Pdf | OtherMime.

#[global] Instance Mime_eq_dec : EqDecision Mime.
Proof. solve_decision. Defined.

(** A file of the Routes folder as [rebuildQueueV4_] reads it.  A date is
    the milliseconds of its [getTime()], [None] when Drive gives none. *)
Record SourceFile := {
  src_id : string;
  src_name : string;
  src_mime : Mime;
  src_updated : option Z;
  src_created : option Z
}.

Record BusFolder := {
  bus_name : string;
  bus_files : list SourceFile
}.

(** The two subfolders of the Routes root with what they list, in listing
    order; [None] when [getSubfolderByNameV4_] finds no such folder. *)
Record RoutesRoot := {
  regEdFiles : option (list SourceFile);
  specEdFolders : option (list BusFolder)
}.

Definition RECENT_DAYS_V4 : Z := 14.
Definition REGED_FOLDER_NAME_V4 : string := "RegEd".
Definition SPECED_FOLDER_NAME_V4 : string := "SpecEd".

Definition isRecentV4_ (updated created : option Z) (cutoff : Z) : bool :=
  match updated with Some u => (cutoff <=? u)%Z | None => false end
  || match created with Some c => (cutoff <=? c)%Z | None => false end.

(** The two tests a listed file has to pass. *)
Definition queued (mime : Mime) (cutoff : Z) (f : SourceFile) : bool :=
  bool_decide (src_mime f = mime) && isRecentV4_ (src_updated f) (src_created f) cutoff.

Definition regEdItem (f : SourceFile) : WorkItem :=
  {| routeType := "REGED_DOC";
     fileId := src_id f;
     fileName := src_name f;
     updatedMs := default 0 (src_updated f);
     busNumberHint := extractBusNumberV4_ (src_name f);
     schoolNameHint := inferSchoolNameV4_ (src_name f) |}.

Definition specEdItem (busHint : string) (f : SourceFile) : WorkItem :=
  {| routeType := "SPECED_PDF";
     fileId := src_id f;
     fileName := src_name f;
     updatedMs := default 0 (src_updated f);
     busNumberHint := or_else busHint (extractBusNumberV4_ (src_name f));
     schoolNameHint := inferSchoolNameV4_ (src_name f) |}.

(** The queue before it is sorted: the documents of RegEd, then the PDFs
    of each bus folder of SpecEd. *)
Definition listedItems (regEd : list SourceFile) (specEd : list BusFolder) (cutoff : Z)
    : list WorkItem :=
  map regEdItem (List.filter (queued GoogleDocs cutoff) regEd) ++
  flat_map (fun b => map (specEdItem (normalizeBusV4_ (bus_name b)))
                       (List.filter (queued Pdf cutoff) (bus_files b))) specEd.

(** [queue.sort(function(a, b) { return Number(b.updatedMs || 0) -
    Number(a.updatedMs || 0); })].
    The sort is stable, so what it returns is fixed by the comparison:
    it is the order that insertion from the right gives. *)
Fixpoint insert_desc (x : WorkItem) (l : list WorkItem) : list WorkItem :=
  match l with
  | [] => [x]
  | y :: r => if (updatedMs y <=? updatedMs x)%Z then x :: l else y :: insert_desc x r
  end.

Definition sort_desc (l : list WorkItem) : list WorkItem := foldr insert_desc [] l.

Definition with_queue (s : PipelineState) (q : list WorkItem) (n : nat) : PipelineState :=
  {| queue := q; pos := n; processed := processed s; geocodeCache := geocodeCache s |}.

(** ** The entry point *)

Record Trigger := {
  t_handler : string;
  t_afterMs : Z
}.

Definition SYNC_HANDLER : string := "syncRoutesUnifiedV4".

(** The calls the entry point makes itself, outside the batch, grouped by
    what they can have changed when one of them throws.  [Logger.log] is
    taken not to throw. *)
Inductive HostCall :=
| TryLock         (* LockService.getScriptLock(), lock.tryLock(5000) *)
| ReleaseLock     (* lock.releaseLock() *)
| LoadLookup      (* loadStateV4_: getFolderById, getFilesByName, hasNext *)
| OpenRoutes      (* rebuildQueueV4_: getFolderById and the two folder searches *)
| ListRoutes      (* rebuildQueueV4_: the calls of the three listing loops *)
| OpenOutputRoot  (* DriveApp.getFolderById(OUTPUT_ROOT_FOLDER_ID_V4) *)
| FindBusStops    (* getOrCreateSubfolderV4_: getFoldersByName, hasNext, next *)
| CreateBusStops  (* getOrCreateSubfolderV4_: createFolder *)
| FindLogs        (* appendLogsV4_: getFilesByName, hasNext, next, getId *)
| OpenLogs        (* SpreadsheetApp.openById, also on a file that is no spreadsheet *)
| CreateLogs      (* SpreadsheetApp.create *)
| MoveLogs        (* ss.getId(), DriveApp.getFileById, moveTo(root) *)
| WriteLogs       (* getActiveSheet, getLastRow, getRange, setValues *)
| ListTriggers    (* ScriptApp.getProjectTriggers() *)
| TriggerStep (i : nat)  (* getHandlerFunction and deleteTrigger on all[i] *)
| CreateTrigger   (* ScriptApp.newTrigger(...).timeBased().after(...).create() *)
| SaveLookup      (* saveStateV4_: getFolderById, getFilesByName, hasNext, next *)
| SaveWrite.      (* saveStateV4_: setContent or createFile *)

(** What a run of [syncRoutesUnifiedV4] finds and leaves outside the
    script.  A search by name is taken to find a file the script has
    created under that name. *)
Record Host := {
  (** whether [tryLock(5000)] gets the script lock *)
  lockFree : bool;
  (** the lock is held by this run *)
  lockHeld : bool;
  (** the state file of the output root: what the search for its name
      returns first *)
  stateFile : option StateDoc;
  routesRoot : RoutesRoot;
  (** [Date.now()] *)
  nowMs : Z;
  triggers : list Trigger;
  (** the lines of [Logger.log] *)
  loggerLines : list string;
  (** the rows of the Logs spreadsheet, [None] while there is none *)
  logSheet : option (list (string * string));
  (** the bus folders under [Bus Stops], [None] while there is no such folder *)
  busStops : option (list Folder);
  (** the outside calls made so far, latest first *)
  calls : list Event;
  (** the message with which a call of the entry point throws, if it does *)
  hostFault : HostCall → option string
}.

Definition set_lockHeld (h : Host) (b : bool) : Host :=
  {| lockFree := lockFree h; lockHeld := b; stateFile := stateFile h;
     routesRoot := routesRoot h; nowMs := nowMs h; triggers := triggers h;
     loggerLines := loggerLines h; logSheet := logSheet h; busStops := busStops h;
     calls := calls h; hostFault := hostFault h |}.

Definition set_stateFile (h : Host) (d : option StateDoc) : Host :=
  {| lockFree := lockFree h; lockHeld := lockHeld h; stateFile := d;
     routesRoot := routesRoot h; nowMs := nowMs h; triggers := triggers h;
     loggerLines := loggerLines h; logSheet := logSheet h; busStops := busStops h;
     calls := calls h; hostFault := hostFault h |}.

Definition set_triggers (h : Host) (ts : list Trigger) : Host :=
  {| lockFree := lockFree h; lockHeld := lockHeld h; stateFile := stateFile h;
     routesRoot := routesRoot h; nowMs := nowMs h; triggers := ts;
     loggerLines := loggerLines h; logSheet := logSheet h; busStops := busStops h;
     calls := calls h; hostFault := hostFault h |}.

(** [Logger.log(line)] *)
Definition loggerLog (h : Host) (line : string) : Host :=
  {| lockFree := lockFree h; lockHeld := lockHeld h; stateFile := stateFile h;
     routesRoot := routesRoot h; nowMs := nowMs h; triggers := triggers h;
     loggerLines := loggerLines h ++ [line]; logSheet := logSheet h;
     busStops := busStops h; calls := calls h; hostFault := hostFault h |}.

Definition set_logSheet (h : Host) (rows : option (list (string * string))) : Host :=
  {| lockFree := lockFree h; lockHeld := lockHeld h; stateFile := stateFile h;
     routesRoot := routesRoot h; nowMs := nowMs h; triggers := triggers h;
     loggerLines := loggerLines h; logSheet := rows; busStops := busStops h;
     calls := calls h; hostFault := hostFault h |}.

Definition set_busStops (h : Host) (d : option (list Folder)) : Host :=
  {| lockFree := lockFree h; lockHeld := lockHeld h; stateFile := stateFile h;
     routesRoot := routesRoot h; nowMs := nowMs h; triggers := triggers h;
     loggerLines := loggerLines h; logSheet := logSheet h; busStops := d;
     calls := calls h; hostFault := hostFault h |}.

(** The bus folders and the trace as the batch left them. *)
Definition after_batch (h : Host) (w : World) : Host :=
  {| lockFree := lockFree h; lockHeld := lockHeld h; stateFile := stateFile h;
     routesRoot := routesRoot h; nowMs := nowMs h; triggers := triggers h;
     loggerLines := loggerLines h; logSheet := logSheet h;
     busStops := Some (w_drive w); calls := w_trace w; hostFault := hostFault h |}.

(** A step of the entry point: it may throw, and what it did to the host
    stays done when it throws. *)
Definition HM (A : Type) : Type := Host → Result A * Host.

#[global] Instance HM_ret : MRet HM := fun A a h => (Ok a, h).
#[global] Instance HM_bind : MBind HM := fun A B f m h =>
  match m h with
  | (Ok a, h') => f a h'
  | (Throw e, h') => (Throw e, h')
  end.

(** One of the calls: it throws when the host says so. *)
Definition hostCall (c : HostCall) : HM unit := fun h =>
  match hostFault h c with
  | Some e => (Throw e, h)
  | None => (Ok tt, h)
  end.

Definition hostResult {A} (r : Result A) : HM A := fun h => (r, h).

Definition getHost : HM Host := fun h => (Ok h, h).
Definition changeHost (f : Host → Host) : HM unit := fun h => (Ok tt, f h).

(** The loop of [removeTriggersV4_] from [all[i]] on: a throw leaves that
    trigger and the ones after it in place. *)
Fixpoint removeFrom (fault : HostCall → option string) (i : nat) (ts : list Trigger)
    : Result unit * list Trigger :=
  match ts with
  | [] => (Ok tt, [])
  | t :: r =>
      match fault (TriggerStep i) with
      | Some e => (Throw e, ts)
      | None =>
          if String.eqb (t_handler t) SYNC_HANDLER then removeFrom fault (S i) r
          else let '(res, r') := removeFrom fault (S i) r in (res, t :: r')
      end
  end.

Definition removeLoop : HM unit := fun h =>
  let '(res, ts) := removeFrom (hostFault h) 0 (triggers h) in
  (res, set_triggers h ts).

Definition removeTriggersV4_ : HM unit :=
  hostCall ListTriggers ;;
  removeLoop.

Definition scheduleNextV4_ : HM unit :=
  removeTriggersV4_ ;;
  hostCall CreateTrigger ;;
  changeHost (fun h => set_triggers h
    (triggers h ++ [ {| t_handler := SYNC_HANDLER; t_afterMs := 60 * 1000 |} ])).

(** [rebuildQueueV4_]: it throws before it touches the state when a call
    fails or one of the two folders is missing. *)
Definition rebuildQueueV4_ (state : PipelineState) : HM PipelineState :=
  hostCall OpenRoutes ;;
  h ← getHost;
  match regEdFiles (routesRoot h), specEdFolders (routesRoot h) with
  | None, _ =>
      hostResult (Throw ("Missing " +:+ dquote +:+ REGED_FOLDER_NAME_V4 +:+ dquote
                         +:+ " under Routes root"))
  | Some _, None =>
      hostResult (Throw ("Missing " +:+ dquote +:+ SPECED_FOLDER_NAME_V4 +:+ dquote
                         +:+ " under Routes root"))
  | Some regEd, Some specEd =>
      hostCall ListRoutes ;;
      let cutoff := nowMs h - RECENT_DAYS_V4 * 24 * 60 * 60 * 1000 in
      let queue := sort_desc (listedItems regEd specEd cutoff) in
      changeHost (fun h => loggerLog h
        ("rebuildQueueV4_: queued " +:+ pretty (length queue) +:+ " files")) ;;
      mret (with_queue state queue 0)
  end.

(** What [JSON.parse] makes of [JSON.stringify(state)], as [loadStateV4_]
    reads it: a queue that is an array, a position that is falsy when it is
    0, and two objects. *)
Definition stateDoc (s : PipelineState) : StateDoc :=
  DocValue (Some (queue s))
           (if (pos s =? 0)%nat then None else Some (pos s))
           (Some (processed s))
           (Some (geocodeCache s)).

(** The Drive calls of [loadStateV4_] that stand before its [try]. *)
Definition lookupState (h : Host) : Result (option StateDoc) :=
  match hostFault h LoadLookup with
  | Some e => Throw e
  | None => Ok (stateFile h)
  end.

(** [loadStateV4_] on the host. *)
Definition loadState : HM PipelineState := fun h => (loadStateV4_ (lookupState h), h).

(** [saveStateV4_] *)
Definition saveStateV4_ (state : PipelineState) : HM unit :=
  hostCall SaveLookup ;;
  hostCall SaveWrite ;;
  changeHost (fun h => set_stateFile h (Some (stateDoc state))).

(** [appendLogsV4_]: one row per line, each with the time of writing. *)
Definition appendLogsV4_ (sv : Services) (lines : list string) : HM unit :=
  match lines with
  | [] => mret tt
  | _ =>
      hostCall FindLogs ;;
      h ← getHost;
      match logSheet h with
      | Some _ => hostCall OpenLogs
      | None =>
          hostCall CreateLogs ;;
          hostCall MoveLogs ;;
          changeHost (fun h => set_logSheet h (Some []))
      end ;;
      hostCall WriteLogs ;;
      changeHost (fun h => set_logSheet h
        (Some (default [] (logSheet h) ++ map (fun l => (nowIso sv (calls h), l)) lines)))
  end.

(** Lines 48 and 49: the output root and its [Bus Stops] folder. *)
Definition openBusStops : HM unit :=
  hostCall OpenOutputRoot ;;
  hostCall FindBusStops ;;
  h ← getHost;
  match busStops h with
  | Some _ => mret tt
  | None =>
      hostCall CreateBusStops ;;
      changeHost (fun h => set_busStops h (Some []))
  end.

(** The world the batch of a run starts in. *)
Definition batchWorld (s : PipelineState) (h : Host) : World :=
  {| w_state := s; w_logs := []; w_trace := calls h; w_drive := default [] (busStops h) |}.

(** The batch, run on the host: the state and the log lines it leaves. *)
Definition batchOn (sv : Services) (state : PipelineState)
    : HM (PipelineState * list string) := fun h =>
  match runBatch sv (batchWorld state h) with
  | (Throw e, w') => (Throw e, after_batch h w')
  | (Ok _, w') => (Ok (w_state w', w_logs w'), after_batch h w')
  end.

(** The [try] block of [syncRoutesUnifiedV4] up to its last statement:
    the state it is about to save. *)
Definition syncWork (sv : Services) : HM PipelineState :=
  state ← loadState;
  state ← (if (length (queue state) <=? pos state)%nat
           then rebuildQueueV4_ state else mret state);
  openBusStops ;;
  '(state, logs) ← batchOn sv state;
  appendLogsV4_ sv logs ;;
  if (pos state <? length (queue state))%nat
  then
    scheduleNextV4_ ;;
    mret state
  else
    removeTriggersV4_ ;;
    changeHost (fun h => loggerLog h "syncRoutesUnifiedV4: queue complete.") ;;
    mret (with_queue state [] 0).

(** The body of the [try] block: the work, then [saveStateV4_(state)]. *)
Definition syncBody (sv : Services) : HM unit :=
  state ← syncWork sv;
  saveStateV4_ state.

(** [syncRoutesUnifiedV4]: the lock, the body, and the [finally]. *)
Definition syncRoutesUnifiedV4 (sv : Services) : HM unit := fun h =>
  match hostFault h TryLock with
  | Some e => (Throw e, h)
  | None =>
      if lockFree h
      then
        let '(r, h1) := syncBody sv (set_lockHeld h true) in
        match hostFault h1 ReleaseLock with
        | Some e => (Throw e, h1)
        | None => (r, set_lockHeld h1 false)
        end
      else (Ok tt, loggerLog h "syncRoutesUnifiedV4: another run is active. Skipping.")
  end.

(** [rebuildQueueOnlyV4] and [resetRouteSyncUnifiedV4] *)
Definition rebuildQueueOnlyV4 : HM unit :=
  state ← loadState;
  state ← rebuildQueueV4_ state;
  saveStateV4_ state.

Definition resetRouteSyncUnifiedV4 : HM unit :=
  removeTriggersV4_ ;;
  saveStateV4_ emptyState.

(** Later in the queue means not more recently updated. *)
Definition newest_first (q : list WorkItem) : Prop :=
  StronglySorted (fun a b => updatedMs b <= updatedMs a) q.

(** The items with a given time of update, in the order of the list. *)
Definition updated_at (t : Z) (q : list WorkItem) : list WorkItem :=
  filter (fun i => updatedMs i = t) q.

(** ** A host for the examples *)

Definition twoSources : RoutesRoot :=
  {| regEdFiles :=
       Some [ {| src_id := "doc-1"; src_name := "21 Guilford Park AM";
                 src_mime := GoogleDocs;
                 src_updated := Some 1700000000000; src_created := Some 1690000000000 |};
              {| src_id := "sheet-1"; src_name := "Roster";
                 src_mime := OtherMime;
                 src_updated := Some 1700000000000; src_created := Some 1700000000000 |} ];
     specEdFolders :=
       Some [ {| bus_name := "Bus 21";
                 bus_files :=
                   [ {| src_id := "pdf-1"; src_name := "GUILFORD PARK.pdf";
                        src_mime := Pdf;
                        src_updated := Some 1700000500000; src_created := None |};
                     {| src_id := "pdf-0"; src_name := "OLD ROUTE.pdf";
                        src_mime := Pdf;
                        src_updated := Some 1600000000000;
                        src_created := Some 1600000000000 |} ] |} ] |}.

Definition idleHost : Host :=
  {| lockFree := true; lockHeld := false; stateFile := None;
     routesRoot := twoSources; nowMs := 1700001000000;
     triggers := [ {| t_handler := "nightlyReport"; t_afterMs := 0 |} ];
     loggerLines := []; logSheet := None; busStops := None; calls := [];
     hostFault := fun _ => None |}.

(** The same host while Drive fails at the look-up of the state file. *)
Definition lookupDown : Host :=
  {| lockFree := true; lockHeld := false; stateFile := None;
     routesRoot := twoSources; nowMs := 1700001000000;
     triggers := [ {| t_handler := "nightlyReport"; t_afterMs := 0 |} ];
     loggerLines := []; logSheet := None; busStops := None; calls := [];
     hostFault := fun c => match c with
                           | LoadLookup => Some "Exception: Service error: Drive"
                           | _ => None
                           end |}.

(** ** Vocabulary for the statements about a run *)

(** The pending triggers of the sync, and the others. *)
Definition pendingSyncs (ts : list Trigger) : list Trigger :=
  List.filter (fun t => String.eqb (t_handler t) SYNC_HANDLER) ts.

Definition otherTriggers (ts : list Trigger) : list Trigger :=
  List.filter (fun t => negb (String.eqb (t_handler t) SYNC_HANDLER)) ts.

(** A host whose state file holds a queue of one scanned sheet. *)
Definition queuedHost : Host :=
  {| lockFree := true; lockHeld := false;
     stateFile := Some (stateDoc {| queue := [guilfordPdf]; pos := 0;
                                    processed := ∅; geocodeCache := ∅ |});
     routesRoot := twoSources; nowMs := 1700001000000;
     triggers := [ {| t_handler := "nightlyReport"; t_afterMs := 0 |} ];
     loggerLines := []; logSheet := None; busStops := None; calls := [];
     hostFault := fun _ => None |}.

(** What a run finds when it starts: whether the lock is free, the time,
    the Routes folder, and which of its calls will throw. *)
Record RunEnv := {
  env_lockFree : bool;
  env_nowMs : Z;
  env_routes : RoutesRoot;
  env_fault : HostCall → option string
}.

Definition in_env (e : RunEnv) (h : Host) : Host :=
  {| lockFree := env_lockFree e; lockHeld := lockHeld h; stateFile := stateFile h;
     routesRoot := env_routes e; nowMs := env_nowMs e; triggers := triggers h;
     loggerLines := loggerLines h; logSheet := logSheet h; busStops := busStops h;
     calls := calls h; hostFault := env_fault e |}.

(** The host after one run of the entry point for each of [envs], one
    after the other. *)
Fixpoint afterRuns (sv : Services) (envs : list RunEnv) (h : Host) : Host :=
  match envs with
  | [] => h
  | e :: r => afterRuns sv r (syncRoutesUnifiedV4 sv (in_env e h)).2
  end.

(** What no step of a run changes but the saving of the state, the
    lock and the triggers of the sync itself. *)
Definition host_frame (h h' : Host) : Prop :=
  stateFile h' = stateFile h ∧
  otherTriggers (triggers h') = otherTriggers (triggers h) ∧
  hostFault h' = hostFault h ∧ lockFree h' = lockFree h ∧ lockHeld h' = lockHeld h.

Definition framed {A} (m : HM A) : Prop := ∀ h, host_frame h (m h).2.

(** Every call of the entry point answers. *)
Definition answers (h : Host) : Prop := ∀ c, hostFault h c = None.

(** A step that returns whenever every call answers. *)
Definition goes_through {A} (m : HM A) : Prop :=
  ∀ h, answers h → ∃ a, (m h).1 = Ok a.

(** A run in which the lock is free and every call of the entry point
    answers. *)
Definition quiet (e : RunEnv) : Prop :=
  env_lockFree e = true ∧ ∀ c, env_fault e c = None.

(** ** RegEd documents *)

(** A colour of the Docs API; a component that is missing or 0 is 0
    ([Number(rgb.red || 0)]). *)
Record Rgb := {
  rgb_red : Q;
  rgb_green : Q;
  rgb_blue : Q
}.

(** A text run: its text, and [textStyle.foregroundColor.color.rgbColor]
    when the whole chain is there. *)
Record TextRun := {
  run_content : string;
  run_color : option Rgb
}.

Inductive ParagraphElement :=
| TextRunElement (t : TextRun)
| OtherElement.

(** An entry of [doc.body.content]: a paragraph with its array of
    elements, or anything else. *)
Inductive StructuralElement :=
| Paragraph (elements : list ParagraphElement)
| OtherStructural.

Definition isRedStyleV4_ (color : option Rgb) : bool :=
  match color with
  | None => false
  | Some rgb =>
      Qle_bool (7 # 10) (rgb_red rgb) && Qle_bool (rgb_green rgb) (25 # 100)
      && Qle_bool (rgb_blue rgb) (25 # 100)
  end.

(** The runs of a paragraph that the inner loop does not skip. *)
Definition textRuns (elements : list ParagraphElement) : list TextRun :=
  omap (fun e => match e with
                 | TextRunElement t => if falsy (run_content t) then None else Some t
                 | OtherElement => None
                 end) elements.

(** The line a paragraph gives, if it gives one. *)
Definition redLine (elements : list ParagraphElement) : option string :=
  let runs := textRuns elements in
  let txt := fold_left (fun acc t => acc +:+ run_content t) runs "" in
  if existsb (fun t => isRedStyleV4_ (run_color t)) runs
  then let clean := normalizeWsV4_ txt in
       if falsy clean then None else Some clean
  else None.

Definition extractRedParagraphLinesV4_ (content : list StructuralElement) : list string :=
  omap (fun e => match e with
                 | Paragraph elements => redLine elements
                 | OtherStructural => None
                 end) content.

(** [/^.../.test(up)] for a literal. *)
Definition starts_with (w : string) (l : list ascii) : bool :=
  match pat_lit w l with Some _ => true | None => false end.

(** [BUS\s+\d+] at the head. *)
Definition starts_bus (l : list ascii) : bool :=
  match pat_lit "BUS" l with
  | Some (c :: r) =>
      is_space c && match dropWhile is_space r with d :: _ => is_digit d | [] => false end
  | _ => false
  end.

(** [/^(LEFT|RIGHT|TURN|PROCEED|CONTINUE|DO NOT|BUS\s+\d+|ARRIVE|DEPART)/] *)
Definition starts_instruction (up : list ascii) : bool :=
  existsb (fun w => starts_with w up)
    ["LEFT"; "RIGHT"; "TURN"; "PROCEED"; "CONTINUE"; "DO NOT"]
  || starts_bus up
  || existsb (fun w => starts_with w up) ["ARRIVE"; "DEPART"].

(** [/^\(?\d+\s*(ST|ND|RD|TH)\b/] *)
Definition starts_ordinal (up : list ascii) : bool :=
  let l1 := match up with c :: r => if (code c =? 40)%N then r else up | [] => up end in
  let ds := digit_run l1 in
  let rest := dropWhile is_space (drop (length ds) l1) in
  (1 <=? length ds)%nat
  && existsb (fun w => match pat_lit w rest with
                       | Some r => negb (wordness (head r))
                       | None => false
                       end) ["ST"; "ND"; "RD"; "TH"].

(** The ways to cut a text after its first [k] characters, for [k] from
    [n] down to [lo]: what a greedy quantifier tries, in its order. *)
Fixpoint cuts_down (lo n : nat) (l : list ascii) : list (list ascii * list ascii) :=
  (if (lo <=? n)%nat then [(take n l, drop n l)] else [])
  ++ match n with
     | O => []
     | S n' => cuts_down lo n' l
     end.

Fixpoint space_run (l : list ascii) : nat :=
  match l with
  | c :: r => if is_space c then S (space_run r) else O
  | [] => O
  end.

(** [(?::\d{2})?] and [(?:AM|PM)?] with the [i] flag: the optional part
    first, then without it. *)
Definition minute_cuts (l : list ascii) : list (list ascii * list ascii) :=
  match l with
  | c :: a :: b :: r =>
      if (code c =? 58)%N && is_digit a && is_digit b then [([c; a; b], r); ([], l)]
      else [([], l)]
  | _ => [([], l)]
  end.

Definition ampm_cuts (l : list ascii) : list (list ascii * list ascii) :=
  if is_ampm true (take 2 l) then [(take 2 l, drop 2 l); ([], l)] else [([], l)].

(** A line terminator, which [.] does not match. *)
Definition is_line_end (c : ascii) : bool := (code c =? 10)%N || (code c =? 13)%N.

(** [line.match(/^(\d{1,2}(?::\d{2})?\s*(?:AM|PM)?)\s+(.+)$/i)]: the two
    groups of the first match in the order the matcher tries. *)
Definition match_stop_line (l : list ascii) : option (list ascii * list ascii) :=
  head ('(h, r1) ← cuts_down 1 (Nat.min 2 (length (digit_run l))) l;
        '(mm, r2) ← minute_cuts r1;
        '(sp, r3) ← cuts_down 0 (space_run r2) r2;
        '(ap, r4) ← ampm_cuts r3;
        '(_, r5) ← cuts_down 1 (space_run r4) r4;
        if negb (bool_decide (r5 = [])) && forallb (fun c => negb (is_line_end c)) r5
        then [(h ++ mm ++ sp ++ ap, r5)]
        else []).

Definition street_words : list string :=
  ["ROAD"; "RD"; "STREET"; "ST"; "AVENUE"; "AVE"; "DRIVE"; "DR"; "COURT"; "CT";
   "WAY"; "LANE"; "LN"; "PLACE"; "PL"; "CIRCLE"; "CIR"; "PARKWAY"; "PKWY"].

Definition looksLikeLocationV4_ (up : list ascii) : bool :=
  if (length up <? 6)%nat then false
  else if existsb (fun c => (code c =? 47)%N) up then true
  else if existsb is_digit up then true
  else existsb (fun w => test_word (pat_lit w) None up) street_words.

(** A stop as [parseRegEdStopLineV4_] returns it. *)
Record RegEdStop := {
  reg_time : string;
  reg_location : string
}.

Definition parseRegEdStopLineV4_ (line : string) : option RegEdStop :=
  let up := chars (toUpperCase line) in
  if falsy line then None
  else if starts_instruction up then None
  else if starts_ordinal up then None
  else
    match match_stop_line (chars line) with
    | Some (t, loc) =>
        Some {| reg_time := normalizeTimeV4_ (str t);
                reg_location := cleanLocationV4_ (str loc) |}
    | None =>
        if looksLikeLocationV4_ up
        then Some {| reg_time := ""; reg_location := cleanLocationV4_ line |}
        else None
    end.

(** [grouped[p]] after the loop over the parsed stops. *)
Definition grouped (p : Period) (parsed : list RegEdStop) : list RegEdStop :=
  List.filter (fun s => bool_decide (periodFromTimeV4_ (reg_time s) = p)) parsed.

Definition regEdRawStop (s : RegEdStop) : RawStop :=
  {| raw_time := reg_time s; raw_location := reg_location s; raw_students := [] |}.

(** What [parseRegEdDocV4_] makes of a document that [Docs.Documents.get]
    has returned: the routes in the order of the keys of [grouped], each
    with the period it is returned under. *)
Definition regEdRoutes (content : list StructuralElement) (docName busHint : string)
    : list (Period * RawRoute) :=
  let parsed := omap parseRegEdStopLineV4_ (extractRedParagraphLinesV4_ content) in
  match parsed with
  | [] => []
  | _ =>
      let am := grouped AM parsed in
      let pm := grouped PM parsed in
      let mid := grouped MidDay parsed in
      let route := if (length am + length pm + length mid =? 0)%nat
                   then parsed else grouped Route parsed in
      let bus := or_else (normalizeBusV4_ (or_else busHint (extractBusNumberV4_ docName)))
                   "N-A" in
      let school := or_else (inferSchoolNameV4_ docName) "Unknown Route" in
      omap (fun '(k, g) =>
              match g with
              | [] => None
              | _ => Some (k, {| raw_busNumber := bus; raw_schoolName := school;
                                 raw_stops := map regEdRawStop g |})
              end)
        [(AM, am); (PM, pm); (MidDay, mid); (Route, route)]
  end.

(** The time and the place of a stop, raw and cleaned. *)
Definition raw_pair (s : RawStop) : string * string := (raw_time s, raw_location s).
Definition stop_pair (s : Stop) : string * string := (time s, location s).

(** A small RegEd document: a red stop line with a time, a black line,
    and a red instruction. *)
Definition redColor : option Rgb := Some {| rgb_red := 1; rgb_green := 0; rgb_blue := 0 |}.

Definition guilfordDoc : list StructuralElement :=
  [ Paragraph [ TextRunElement {| run_content := "6:42 AM  "; run_color := redColor |};
                TextRunElement {| run_content := "123 Main St"; run_color := None |} ];
    Paragraph [ TextRunElement {| run_content := "Guilford Park Elementary"; run_color := None |} ];
    OtherStructural;
    Paragraph [ TextRunElement {| run_content := "LEFT ON OAK ST"; run_color := redColor |} ];
    Paragraph [ TextRunElement {| run_content := "3:10 pm 9 Oak Ct"; run_color := redColor |} ] ].

(** The line the batch logs for an item it skips. *)
Definition skipLine (item : WorkItem) : string :=
  "[SKIP] " +:+ routeType item +:+ " " +:+ fileName item +:+ ": unchanged".

(** The skip test of the batch loop lets the item through as unchanged. *)
Definition unchanged (p : gmap string string) (item : WorkItem) : Prop :=
  fileId item ≠ "" ∧ routeType item ≠ "" ∧
  default "" (p !! fileId item) = stamp_compared (updatedMs item).
(** * Properties *)

(** ** What the period classifier computes *)

Section PeriodFacts.

Lemma best_step_fold (ss : list Stop) (b : option Z) :
  match fold_left best_step ss b with
  | None => b = None ∧ parsedTimes ss = []
  | Some t =>
      t ∈ option_list b ++ parsedTimes ss ∧
      ∀ t', t' ∈ option_list b ++ parsedTimes ss → t <= t'
  end.
Proof.
  revert b. induction ss as [|s ss IH]; intros b; simpl.
  - destruct b as [b|]; simpl; [|done].
    split; [apply list_elem_of_here|].
    intros t' Ht'. apply list_elem_of_singleton in Ht'. lia.
  - specialize (IH (best_step b s)). unfold parsedTimes in *.
    cbn [omap list_omap]. destruct (parseTimeMinsV4_ (time s)) as [t|] eqn:Ht.
    2:{ replace (best_step b s) with b in IH |- * by (unfold best_step; by rewrite Ht).
        exact IH. }
    destruct b as [b|].
    + replace (best_step (Some b) s)
        with (if (t <? b)%Z then Some t else Some b) in IH |- *
        by (unfold best_step; by rewrite Ht).
      destruct (fold_left best_step ss _) as [r|].
      * simpl in *.
        destruct (t <? b)%Z eqn:Hlt; simpl in IH; destruct IH as [Hin Hle];
          [apply Z.ltb_lt in Hlt | apply Z.ltb_ge in Hlt].
        -- split.
           ++ rewrite elem_of_cons in Hin. rewrite !elem_of_cons. tauto.
           ++ intros t' Ht'. rewrite !elem_of_cons in Ht'.
              assert (r <= t) by (apply Hle; apply list_elem_of_here).
              destruct Ht' as [->|[->|Ht']]; [lia|lia|].
              apply Hle. by apply list_elem_of_further.
        -- split.
           ++ rewrite elem_of_cons in Hin. rewrite !elem_of_cons. tauto.
           ++ intros t' Ht'. rewrite !elem_of_cons in Ht'.
              assert (r <= b) by (apply Hle; apply list_elem_of_here).
              destruct Ht' as [->|[->|Ht']]; [lia|lia|].
              apply Hle. by apply list_elem_of_further.
      * destruct (t <? b)%Z; destruct IH; discriminate.
    + replace (best_step None s) with (Some t) in IH |- *
        by (unfold best_step; by rewrite Ht).
      destruct (fold_left best_step ss _) as [r|]; [exact IH|].
      destruct IH; discriminate.
Qed.

Lemma earliestMins_Some (ss : list Stop) (t : Z) :
  earliestMins ss = Some t ↔ earliest_is ss t.
Proof.
  unfold earliestMins, earliest_is. pose proof (best_step_fold ss None) as H.
  simpl in H. split.
  - intros E. rewrite E in H. exact H.
  - intros [Hin Hle]. destruct (fold_left best_step ss None) as [r|].
    + destruct H as [Hr Hrle]. f_equal.
      pose proof (Hle _ Hr). pose proof (Hrle _ Hin). lia.
    + destruct H as [_ H]. rewrite H in Hin. inversion Hin.
Qed.

Lemma earliestMins_None (ss : list Stop) :
  earliestMins ss = None ↔ no_time_parses ss.
Proof.
  unfold earliestMins, no_time_parses. pose proof (best_step_fold ss None) as H.
  simpl in H. split.
  - intros E. rewrite E in H. destruct H as [_ H]. clear E.
    induction ss as [|s ss IH]; [constructor|].
    unfold parsedTimes in H. simpl in H.
    destruct (parseTimeMinsV4_ (time s)) eqn:Hs; [discriminate|].
    constructor; [done|]. apply IH. exact H.
  - intros Hall. destruct (fold_left best_step ss None) as [r|]; [|done].
    destruct H as [Hin _]. exfalso.
    unfold parsedTimes in Hin. apply list_elem_of_omap in Hin.
    destruct Hin as (s & Hs & Hp). rewrite Forall_forall in Hall.
    rewrite (Hall s Hs) in Hp. discriminate.
Qed.









End PeriodFacts.





(** ** First-occurrence de-duplication *)

Section FirstBy.
Context {A K : Type} `{EqDecision K} (key : A → K).

(** De-duplication commutes with a filter that looks at the key only. *)
Lemma first_by_filter (P : K → Prop) (Q : A → Prop)
    `{!∀ x, Decision (Q x)} (l : list A) :
  (∀ x, Q x ↔ P (key x)) →
  first_by key (filter Q l) = filter Q (first_by key l).
Proof.
  intros HQ. induction l as [|x r IH]; [done|].
  rewrite filter_cons. destruct (decide (Q x)) as [Hx|Hx]; simpl.
  - rewrite filter_cons_True by done. f_equal.
    rewrite IH, !list_filter_filter. apply list_filter_iff. tauto.
  - rewrite filter_cons_False by done.
    rewrite IH, list_filter_filter. apply list_filter_iff.
    intros y. split; [|tauto]. intros Hy. split; [done|].
    intros Hk. apply Hx. apply HQ. rewrite <- Hk. by apply HQ.
Qed.

Lemma first_by_sublist (l : list A) : first_by key l `sublist_of` l.
Proof.
  induction l as [|x r IH]; simpl; [done|].
  apply sublist_skip. etrans; [apply sublist_filter|done].
Qed.

Lemma first_by_NoDup (l : list A) : NoDup (key <$> first_by key l).
Proof.
  induction l as [|x r IH]; simpl; [constructor|].
  apply NoDup_cons. split.
  - rewrite list_elem_of_fmap. intros (y & Hk & Hy).
    apply list_elem_of_filter in Hy as [Hne _]. congruence.
  - eapply sublist_NoDup; [exact IH|].
    apply fmap_sublist, sublist_filter.
Qed.

(** An element that no earlier element shares its key with survives. *)
Lemma first_by_keeps (l : list A) (i : nat) (x : A) :
  l !! i = Some x →
  (∀ j y, (j < i)%nat → l !! j = Some y → key y ≠ key x) →
  x ∈ first_by key l.
Proof.
  revert i. induction l as [|a r IH]; intros i Hi Hfirst; [done|].
  destruct i as [|i]; simpl in *.
  - injection Hi as ->. apply list_elem_of_here.
  - apply list_elem_of_further, list_elem_of_filter. split.
    + intros Heq. apply (Hfirst 0%nat a); [lia|done|done].
    + apply (IH i Hi). intros j y Hj Hy.
      apply (Hfirst (S j) y); [lia|done].
Qed.

(** Every key of the input is still represented. *)
Lemma first_by_covers (l : list A) (x : A) :
  x ∈ l → ∃ y, y ∈ first_by key l ∧ key y = key x.
Proof.
  induction l as [|a r IH]; intros Hx; [inversion Hx|].
  apply elem_of_cons in Hx as [->|Hx].
  - exists a. split; [apply list_elem_of_here|done].
  - destruct (decide (key x = key a)) as [He|He].
    + exists a. split; [apply list_elem_of_here|done].
    + destruct (IH Hx) as (y & Hy & Hk). exists y. split; [|done].
      apply list_elem_of_further, list_elem_of_filter. split; [congruence|done].
Qed.
End FirstBy.

Lemma filter_iff_in {A} (P1 P2 : A → Prop)
    `{!∀ x, Decision (P1 x), !∀ x, Decision (P2 x)} (l : list A) :
  (∀ x, x ∈ l → P1 x ↔ P2 x) → filter P1 l = filter P2 l.
Proof.
  induction l as [|a r IH]; intros Hp; [done|].
  rewrite !filter_cons.
  rewrite IH by (intros x Hx; apply Hp; by apply list_elem_of_further).
  destruct (decide (P1 a)) as [H1|H1], (decide (P2 a)) as [H2|H2]; try done;
    exfalso; apply (Hp a (list_elem_of_here _ _)) in H1 || apply (Hp a (list_elem_of_here _ _)) in H2; done.
Qed.

(** Two keys that tell the same elements of a list apart de-duplicate it
    alike. *)
Lemma first_by_ext {A K K' : Type} `{EqDecision K} `{EqDecision K'}
    (key : A → K) (key' : A → K') (l : list A) :
  (∀ x y, x ∈ l → y ∈ l → key x = key y ↔ key' x = key' y) →
  first_by key l = first_by key' l.
Proof.
  induction l as [|a r IH]; intros Hk; [done|]. simpl. f_equal.
  rewrite <- IH.
  - apply filter_iff_in. intros y Hy.
    assert (y ∈ r) as Hr.
    { eapply elem_of_sublist; [exact Hy|apply first_by_sublist]. }
    specialize (Hk y a (list_elem_of_further _ _ _ Hr) (list_elem_of_here _ _)). tauto.
  - intros x y Hx Hy. apply Hk; by apply list_elem_of_further.
Qed.

(** A list without two elements of one key has no two elements of a key
    that tells fewer apart. *)
Lemma NoDup_coarser {A K K' : Type} (key : A → K) (key' : A → K') (l : list A) :
  (∀ x y, key' x = key' y → key x = key y) →
  NoDup (key <$> l) → NoDup (key' <$> l).
Proof.
  intros Hk. induction l as [|a r IH]; simpl; [constructor|].
  rewrite !NoDup_cons. intros [Ha Hr]. split; [|by apply IH].
  rewrite list_elem_of_fmap. intros (y & Hy & Hin). apply Ha.
  apply list_elem_of_fmap. exists y. split; [by apply Hk|done].
Qed.

(** ** The cleaning loop *)

Lemma clean_fold (school : string) (raw : list RawStop)
    (dedupe : gset string) (out : list Stop) :
  snd (fold_left (clean_step school) raw (dedupe, out))
  = out ++ first_by key_of
             (filter (fun s => key_of s ∉ dedupe) (candidates school raw)).
Proof.
  revert dedupe out. induction raw as [|s r IH]; intros dedupe out.
  - simpl. by rewrite app_nil_r.
  - cbn [fold_left]. unfold candidates. cbn [omap list_omap]. unfold clean_step at 2.
    destruct (clean_candidate school s) as [st|] eqn:Hc; [|apply IH].
    fold (key_of st). destruct (decide (key_of st ∈ dedupe)) as [Hin|Hin].
    + rewrite IH. rewrite filter_cons_False by (intros H; by apply H). done.
    + rewrite IH. rewrite filter_cons_True by done. cbn [first_by].
      rewrite <- app_assoc. cbn [app]. do 2 f_equal.
      fold (candidates school r).
      transitivity (filter (fun s0 => key_of s0 ∉ {[key_of st]} ∪ dedupe)
                      (first_by key_of (candidates school r))).
      { by apply (first_by_filter key_of (fun k => k ∉ {[key_of st]} ∪ dedupe)). }
      transitivity (filter (fun y => key_of y ≠ key_of st)
                      (filter (fun s0 => key_of s0 ∉ dedupe)
                         (first_by key_of (candidates school r)))).
      { rewrite list_filter_filter. apply list_filter_iff.
        intros y. rewrite not_elem_of_union, not_elem_of_singleton. tauto. }
      f_equal. symmetry.
      by apply (first_by_filter key_of (fun k => k ∉ dedupe)).
Qed.

Lemma chars_app (a b : string) : chars (a +:+ b) = chars a ++ chars b.
Proof. induction a as [|c a IH]; simpl; [done|]. unfold chars in *. by rewrite IH. Qed.

Lemma chars_str (l : list ascii) : chars (str l) = l.
Proof. apply list_ascii_of_string_of_list_ascii. Qed.

Lemma str_chars (s : string) : str (chars s) = s.
Proof. apply string_of_list_ascii_of_string. Qed.

Lemma toLowerCase_app (a b : string) :
  toLowerCase (a +:+ b) = toLowerCase a +:+ toLowerCase b.
Proof.
  unfold toLowerCase. rewrite chars_app, map_app.
  rewrite <- (str_chars (str _ +:+ str _)), chars_app, !chars_str. done.
Qed.

(** Stops that agree on time and place up to letter case have one key. *)
Lemma same_pair_same_key (s s' : Stop) :
  toLowerCase (time s) = toLowerCase (time s') →
  toLowerCase (location s) = toLowerCase (location s') →
  key_of s = key_of s'.
Proof.
  intros Ht Hl. unfold key_of, stop_key.
  rewrite !toLowerCase_app. by rewrite Ht, Hl.
Qed.

(** The cleaning loop computes the first-occurrence de-duplication of the
    candidates. *)
Lemma cleanRoute_fold_candidates (route : RawRoute) (fallbackSchool fallbackBus : string) :
  let r := cleanRouteV4_ route fallbackSchool fallbackBus in
  stops r = first_by key_of (candidates (schoolName r) (raw_stops route)) ∧
  NoDup (key_of <$> stops r).
Proof.
  intros r.
  assert (Heq : stops r = first_by key_of (candidates (schoolName r) (raw_stops route))).
  { unfold r, cleanRouteV4_. cbn [stops schoolName]. rewrite clean_fold.
    cbn [app]. f_equal.
    induction (candidates _ _) as [|x l IHl]; [done|].
    rewrite filter_cons_True by apply not_elem_of_empty. by rewrite IHl. }
  split; [exact Heq|]. rewrite Heq. apply first_by_NoDup.
Qed.

(** Lower case makes no bar. *)
Lemma lower_char_bar (c : ascii) : lower_char c = "|"%char → c = "|"%char.
Proof.
  destruct c as [[] [] [] [] [] [] [] []]; vm_compute; intros H; try exact H;
    discriminate H.
Qed.

Lemma lower_no_bar (l : list ascii) :
  "|"%char ∉ l → "|"%char ∉ map lower_char l.
Proof.
  intros Hl Hin. apply Hl. change (map lower_char l) with (lower_char <$> l) in Hin.
  apply list_elem_of_fmap in Hin as (c & Hc & Hin).
  symmetry in Hc. apply lower_char_bar in Hc. by subst c.
Qed.

(** A text is cut at its first bar in one way only. *)
Lemma cut_at_first {X} (c : X) (a a' b b' : list X) :
  c ∉ a → c ∉ a' → a ++ c :: b = a' ++ c :: b' → a = a' ∧ b = b'.
Proof.
  revert a'. induction a as [|x a IH]; intros [|x' a'] Ha Ha' Heq; simpl in *.
  - by injection Heq as ->.
  - injection Heq as <- _. exfalso. apply Ha'. apply list_elem_of_here.
  - injection Heq as -> _. exfalso. apply Ha. apply list_elem_of_here.
  - injection Heq as -> Heq.
    destruct (IH a') as [-> ->]; [| |done|done].
    + intros H. apply Ha. by apply list_elem_of_further.
    + intros H. apply Ha'. by apply list_elem_of_further.
Qed.

Lemma str_inj (l l' : list ascii) : str l = str l' → l = l'.
Proof. intros H. by rewrite <- (chars_str l), <- (chars_str l'), H. Qed.

(** Between stops whose times hold no bar, the text [time|location] in
    lower case tells apart what the pair of time and location does. *)
Lemma joined_key_pair (s s' : Stop) :
  "|"%char ∉ chars (time s) → "|"%char ∉ chars (time s') →
  toLowerCase (time s +:+ "|" +:+ location s)
  = toLowerCase (time s' +:+ "|" +:+ location s')
  ↔ time_location_ci s = time_location_ci s'.
Proof.
  intros Hs Hs'. unfold time_location_ci. split.
  - unfold toLowerCase. intros Heq. apply str_inj in Heq.
    rewrite !chars_app, !map_app in Heq. cbn [chars list_ascii_of_string map app] in Heq.
    apply cut_at_first in Heq as [Ht Hl]; [by rewrite Ht, Hl|by apply lower_no_bar..].
  - intros [= Ht Hl]. rewrite !toLowerCase_app. by rewrite Ht, Hl.
Qed.

(** C7.  The stop list that [cleanRouteV4_] returns, against the stops
    that pass its filters, in source order.  No two stops of a cleaned
    route agree on (time, location) up to letter case, and the survivors
    keep their relative order.  The stop list is the first-occurrence
    de-duplication of the candidates by the text [time|location] in lower
    case: a stop is dropped exactly when an earlier candidate has the
    same text.  When no normalized time holds a bar, this is the
    first-occurrence de-duplication by the pair (time, location) up to
    letter case: the first stop with a pair is the one that stays, and
    every stop that is the first with its pair stays. *)
Theorem cleanRoute_dedup_pairs (route : RawRoute) (fallbackSchool fallbackBus : string) :
  let r := cleanRouteV4_ route fallbackSchool fallbackBus in
  let cands := candidates (schoolName r) (raw_stops route) in
  NoDup (time_location_ci <$> stops r) ∧
  stops r `sublist_of` cands ∧
  stops r = first_by (fun s => toLowerCase (time s +:+ "|" +:+ location s)) cands ∧
  (∀ s, s ∈ cands →
     ∃ s', s' ∈ stops r ∧
           toLowerCase (time s' +:+ "|" +:+ location s')
           = toLowerCase (time s +:+ "|" +:+ location s)) ∧
  (Forall (fun s => "|"%char ∉ chars (time s)) cands →
   stops r = first_by time_location_ci cands ∧
   (∀ i s, cands !! i = Some s →
      (∀ j s', (j < i)%nat → cands !! j = Some s' →
               time_location_ci s' ≠ time_location_ci s) →
      s ∈ stops r) ∧
   (∀ s, s ∈ cands → ∃ s', s' ∈ stops r ∧ time_location_ci s' = time_location_ci s)).
Proof.
  intros r cands.
  destruct (cleanRoute_fold_candidates route fallbackSchool fallbackBus) as [Heq _].
  fold r cands in Heq. change key_of
    with (fun s => toLowerCase (time s +:+ "|" +:+ location s)) in Heq.
  split.
  { rewrite Heq. eapply NoDup_coarser; [|apply first_by_NoDup].
    intros x y [= Ht Hl]. cbn beta. rewrite !toLowerCase_app. by rewrite Ht, Hl. }
  split; [rewrite Heq; apply first_by_sublist|]. split; [exact Heq|]. split.
  { intros s Hs. rewrite Heq.
    by apply (first_by_covers (fun s => toLowerCase (time s +:+ "|" +:+ location s))). }
  intros Hbar.
  assert (stops r = first_by time_location_ci cands) as Hpairs.
  { rewrite Heq. apply first_by_ext. intros x y Hx Hy.
    rewrite Forall_forall in Hbar. apply joined_key_pair; by apply Hbar. }
  split; [exact Hpairs|]. rewrite Hpairs. split.
  - intros i s Hi Hfirst. by apply (first_by_keeps time_location_ci cands i s).
  - intros s Hs. by apply first_by_covers.
Qed.

Lemma cleanRoute_dedup_pairs_witness :
  stops (cleanRouteV4_ repeatedStopRoute "" "")
  = first_by time_location_ci
      (candidates (schoolName (cleanRouteV4_ repeatedStopRoute "" ""))
                  (raw_stops repeatedStopRoute)).
Proof.
  refine (proj1 (proj2 (proj2 (proj2 (proj2
            (cleanRoute_dedup_pairs repeatedStopRoute "" "")))) _)).
  vm_compute candidates.
  repeat apply Forall_cons_2; [..|apply Forall_nil_2];
    cbn [time]; apply (bool_decide_unpack _); vm_compute; reflexivity.
Defined.

(** The second stop of [barRoute] is the first at its time and the first
    at its place, and the cleaning drops it: its text [time|location] is
    that of the stop before it. *)
Lemma cleanRoute_drops_first_of_pair :
  let r := cleanRouteV4_ barRoute "" "" in
  let cands := candidates (schoolName r) (raw_stops barRoute) in
  cands = [ {| time := "NOON"; location := "Elm St|Oak Ave"; students := [];
               latitude := None; longitude := None; geocodeError := None |};
            {| time := "NOON|ELM ST"; location := "Oak Ave"; students := [];
               latitude := None; longitude := None; geocodeError := None |} ] ∧
  stops r = take 1 cands ∧
  first_by time_location_ci cands = cands ∧
  ¬ (∀ i s, cands !! i = Some s →
       (∀ j s', (j < i)%nat → cands !! j = Some s' →
                time_location_ci s' ≠ time_location_ci s) →
       s ∈ stops r).
Proof.
  cbv zeta.
  assert (candidates (schoolName (cleanRouteV4_ barRoute "" "")) (raw_stops barRoute)
          = [ {| time := "NOON"; location := "Elm St|Oak Ave"; students := [];
                 latitude := None; longitude := None; geocodeError := None |};
              {| time := "NOON|ELM ST"; location := "Oak Ave"; students := [];
                 latitude := None; longitude := None; geocodeError := None |} ]) as ->
    by (vm_compute; reflexivity).
  assert (stops (cleanRouteV4_ barRoute "" "")
          = [ {| time := "NOON"; location := "Elm St|Oak Ave"; students := [];
                 latitude := None; longitude := None; geocodeError := None |} ]) as ->
    by (vm_compute; reflexivity).
  split; [done|]. split; [done|]. split; [by vm_compute|].
  intros H.
  specialize (H 1%nat _ eq_refl).
  apply list_elem_of_singleton in H; [discriminate H|].
  intros j s' Hj Hs'. destruct j as [|j]; [|lia].
  injection Hs' as <-. vm_compute. discriminate.
Qed.

(** ** Phone numbers *)

Lemma falsy_true (s : string) : falsy s = true ↔ s = "".
Proof. destruct s; simpl; split; congruence. Qed.

Lemma falsy_false (s : string) : falsy s = false ↔ s ≠ "".
Proof. destruct s; simpl; split; congruence. Qed.

Lemma filter_seen_spec (seen : gset string) (l : list string) :
  filter_seen seen l
  = first_by id (filter (fun s => s ≠ "" ∧ s ∉ seen) l).
Proof.
  revert seen. induction l as [|s r IH]; intros seen; [done|].
  cbn [filter_seen]. destruct (falsy s) eqn:Hs.
  - apply falsy_true in Hs. rewrite filter_cons_False by tauto. apply IH.
  - apply falsy_false in Hs. destruct (decide (s ∈ seen)) as [Hin|Hin].
    + rewrite filter_cons_False by tauto. apply IH.
    + rewrite filter_cons_True by tauto. cbn [first_by]. f_equal.
      rewrite IH.
      transitivity (filter (fun y : string => id y ≠ id s)
                      (filter (fun s0 => s0 ≠ "" ∧ s0 ∉ seen) (first_by id r))).
      * etrans; [apply (first_by_filter id
                          (fun k => k ≠ "" ∧ k ∉ {[s]} ∪ seen)); done|].
        rewrite list_filter_filter. apply list_filter_iff.
        intros y. rewrite not_elem_of_union, not_elem_of_singleton.
        unfold id. tauto.
      * f_equal. symmetry.
        by apply (first_by_filter id (fun k => k ≠ "" ∧ k ∉ seen)).
Qed.

Lemma phone_entries_spec (raw : string) :
  phone_entries raw
  = first_by id (filter (fun s => s ≠ "")
                   (map phone_line (split_lines [] (chars raw)))).
Proof.
  unfold phone_entries. rewrite filter_seen_spec. f_equal.
  apply list_filter_iff. intros s. split; [tauto|].
  intros Hs. split; [done|]. apply not_elem_of_empty.
Qed.

Lemma strip_phone_chars (l : list ascii) :
  Forall (fun c => phone_char c = true) (strip_phone l).
Proof.
  unfold strip_phone. apply Forall_forall. intros c Hc.
  by apply list_elem_of_filter in Hc as [Hc _].
Qed.

Lemma phone_line_chars (l : list ascii) :
  Forall phone_out_char (chars (phone_line l)).
Proof.
  unfold phone_line. rewrite chars_str.
  assert (Hk : Forall phone_out_char (drop_country (strip_phone l))).
  { pose proof (strip_phone_chars l) as Hs. unfold drop_country.
    destruct (strip_phone l) as [|c r] eqn:E; [constructor|].
    assert (Forall phone_out_char (c :: r)) as Hall
      by (eapply Forall_impl; [exact Hs|]; intros ? ?; by left).
    destruct (_ && _); [by inversion Hall|done]. }
  unfold format_phone. destruct (10 <=? _)%nat; [|done].
  repeat apply Forall_app_2;
    try (apply Forall_take); try (apply Forall_drop); try done;
    by (constructor; [right|constructor]).
Qed.

Lemma clean_candidate_students (school : string) (rs : RawStop) (s : Stop) :
  clean_candidate school rs = Some s → students s = raw_students rs.
Proof.
  unfold clean_candidate.
  repeat (match goal with |- context [if ?b then _ else _] => destruct b end);
    try discriminate.
  by intros [= <-].
Qed.

(** C6, as the code has it.  [normalizePhonesV3_] of the v3 script works
    line by line.  On each line it keeps the digits and the letters x and
    X, in order, and removes every other character; when 11 characters are
    left and the first is 1, that character is dropped; a result of 10 or
    more characters is written as its first three, next three and next
    four characters joined by hyphens, anything after the tenth being
    dropped, and a shorter result is left as it is.  Empty results are
    removed and the others de-duplicated, first occurrence first.
    "1-410-555-0100" becomes "410-555-0100". *)
Theorem normalizePhones_behaviour (raw : string) :
  (∀ l : list ascii,
     let k := strip_phone l in
     let dash := chars "-" in
     k `sublist_of` l ∧
     (∀ c, c ∈ k ↔ c ∈ l ∧ phone_char c = true) ∧
     Forall phone_out_char (chars (phone_line l)) ∧
     (length k = 11%nat → head k = Some "1"%char →
        phone_line l = str (take 3 (tail k) ++ dash ++ take 3 (drop 3 (tail k))
                              ++ dash ++ drop 6 (tail k))) ∧
     (length k = 10%nat →
        phone_line l = str (take 3 k ++ dash ++ take 3 (drop 3 k) ++ dash ++ drop 6 k)) ∧
     ((11 <= length k)%nat → ¬ (length k = 11%nat ∧ head k = Some "1"%char) →
        phone_line l = str (take 3 k ++ dash ++ take 3 (drop 3 k)
                              ++ dash ++ take 4 (drop 6 k))) ∧
     ((length k < 10)%nat → phone_line l = str k)) ∧
  (raw ≠ "" →
     normalizePhonesV3_ raw
     = join newline
         (first_by id (filter (fun s => s ≠ "")
                         (map phone_line (split_lines [] (chars raw)))))) ∧
  NoDup (phone_entries raw) ∧
  normalizePhonesV3_ "1-410-555-0100" = "410-555-0100".
Proof.
  split.
  { intros l k dash. split; [apply sublist_filter|].
    split; [intros c; unfold k, strip_phone; rewrite list_elem_of_filter; tauto|].
    split; [apply phone_line_chars|].
    unfold phone_line. fold k. unfold drop_country, format_phone.
    assert (Hcode : ∀ c, (code c =? 49)%N = true ↔ c = "1"%char).
    { intros c. rewrite N.eqb_eq. unfold code. split; [|by intros ->].
      intros H. rewrite <- (ascii_N_embedding c), H. done. }
    repeat split.
    - intros Hlen Hhead. destruct k as [|c r]; [discriminate|].
      injection Hhead as ->. cbn [tail].
      assert (length r = 10%nat) as Hr by (simpl in Hlen; lia).
      rewrite Hlen. change ((11 =? 11)%nat && (code "1" =? 49)%N) with true.
      cbv iota. rewrite Hr. change (10 <=? 10)%nat with true. cbv iota.
      do 5 f_equal. rewrite take_ge; [done|]. rewrite length_drop. lia.
    - intros Hlen. destruct k as [|c r]; [discriminate|].
      rewrite Hlen. change (10 =? 11)%nat with false. cbn [andb].
      rewrite Hlen. change (10 <=? 10)%nat with true. cbv iota.
      do 5 f_equal. rewrite take_ge; [done|]. rewrite length_drop. lia.
    - intros Hlen Hnot. destruct k as [|c r]; [simpl in Hlen; lia|].
      destruct ((length (c :: r) =? 11)%nat && (code c =? 49)%N) eqn:Hb.
      + exfalso. apply Hnot. apply andb_true_iff in Hb as [H1 H2].
        apply Nat.eqb_eq in H1. apply Hcode in H2. by subst.
      + rewrite (proj2 (Nat.leb_le 10 (length (c :: r)))) by lia. done.
    - intros Hlen. destruct k as [|c r]; [done|].
      rewrite (proj2 (Nat.eqb_neq (length (c :: r)) 11)) by lia. cbn [andb].
      rewrite (proj2 (Nat.leb_gt 10 (length (c :: r)))) by lia. done. }
  split.
  { intros Hraw. unfold normalizePhonesV3_.
    apply falsy_false in Hraw. rewrite Hraw. by rewrite phone_entries_spec. }
  split.
  { rewrite phone_entries_spec.
    rewrite <- (list_fmap_id (first_by id _)). apply first_by_NoDup. }
  by vm_compute.
Qed.

(** The v4 cleaner has no phone step: the student records of a cleaned
    stop are those of the raw stop it comes from. *)
Lemma cleanRoute_keeps_students (route : RawRoute) (fallbackSchool fallbackBus : string)
    (s : Stop) :
  s ∈ stops (cleanRouteV4_ route fallbackSchool fallbackBus) →
  ∃ rs, rs ∈ raw_stops route ∧ students s = raw_students rs.
Proof.
  intros Hs.
  destruct (cleanRoute_fold_candidates route fallbackSchool fallbackBus) as [Heq _].
  rewrite Heq in Hs.
  eapply elem_of_sublist in Hs; [|apply first_by_sublist].
  apply list_elem_of_omap in Hs as (rs & Hrs & Hc).
  exists rs. split; [done|]. by apply clean_candidate_students in Hc.
Qed.

Lemma normalizePhones_behaviour_witness :
  normalizePhonesV3_ "(410) 555-0100"
  = join newline
      (first_by id (filter (fun s => s ≠ "")
                      (map phone_line (split_lines [] (chars "(410) 555-0100"))))).
Proof.
  apply (proj1 (proj2 (normalizePhones_behaviour "(410) 555-0100"))).
  discriminate.
Defined.

(** C6 as stated does not hold.  The letter x survives the stripping, so
    "555x1234" is returned as it is where removing every non-digit gives
    "5551234"; and a number with an extension is cut to its first ten
    kept characters where the stated rule leaves its twelve digits
    unformatted. *)
Lemma normalizePhones_not_as_stated :
  normalizePhonesV3_ "555x1234" = "555x1234" ∧
  normalizePhones_spec "555x1234" = "5551234" ∧
  normalizePhonesV3_ "410-555-0100 x22" = "410-555-0100" ∧
  normalizePhones_spec "410-555-0100 x22" = "410555010022".
Proof. repeat split; by vm_compute. Qed.

(** ** Running the script *)

Lemma bind_ok {A B} (m : M A) (f : A → M B) (w w' : World) (a : A) :
  m w = (Ok a, w') → (m ≫= f) w = f a w'.
Proof. intros H. unfold mbind, M_bind. by rewrite H. Qed.

Lemma bind_throw {A B} (m : M A) (f : A → M B) (w w' : World) (e : string) :
  m w = (Throw e, w') → (m ≫= f) w = (Throw e, w').
Proof. intros H. unfold mbind, M_bind. by rewrite H. Qed.

Lemma fetchOnce_run (sv : Services) (text : string) (w : World) :
  fetchOnce sv text w = (urlFetch sv (w_trace w) text, pushed (EvFetch text) w).
Proof. reflexivity. Qed.

(** A first attempt that returns ends [withRetryV4_] at once. *)
Lemma withRetry_first_ok {A} (sv : Services) (fn : M A) (attempts : nat) (baseMs : Z)
    (w w' : World) (a : A) :
  fn w = (Ok a, w') → withRetryV4_ sv fn (S attempts) baseMs w = (Ok a, w').
Proof.
  intros H. unfold withRetryV4_. cbn [withRetry_from]. unfold try_catch.
  by rewrite H.
Qed.

(** C4, on the code.  When the first fetch of the generative call returns
    a response, no second fetch is made whatever the response says: a
    status other than 200 (503 and 429 among them) is thrown to the caller
    after that single fetch, a body that is not JSON is thrown as a parse
    error, a candidate text that is not JSON gives one route without
    stops under the fall-back names, and a candidate text that is JSON
    but no array gives no route. *)
Theorem extract_after_one_response (sv : Services)
    (text fallbackSchool fallbackBus : string) (w : World) (res : HttpResponse) :
  text ≠ "" → apiKey sv ≠ "" →
  urlFetch sv (w_trace w) text = Ok res →
  let run := extractSpecEdRoutesV4_ sv text fallbackSchool fallbackBus w in
  run.2 = pushed (EvFetch text) w ∧
  (responseCode res ≠ 200 →
     run.1 = Throw ("Gemini API " +:+ pretty (responseCode res) +:+ ": "
                    +:+ contentText res)) ∧
  (responseCode res = 200 → body res = BodyMalformed → ∃ e, run.1 = Throw e) ∧
  (responseCode res = 200 → body res = BodyText TextMalformed →
     run.1 = Ok [ {| raw_busNumber := fallbackBus;
                     raw_schoolName := fallbackSchool; raw_stops := [] |} ]) ∧
  (responseCode res = 200 → body res = BodyText TextNotArray → run.1 = Ok []).
Proof.
  intros Htext Hkey Hfetch run.
  assert (Hrun : run =
    (if negb (responseCode res =? 200)%Z
     then throw ("Gemini API " +:+ pretty (responseCode res) +:+ ": " +:+ contentText res)
     else match body res with
          | BodyMalformed => throw "SyntaxError: Unexpected token in JSON"
          | BodyNoText => mret []
          | BodyText txt =>
              match (match txt with TextMalformed => TextArray [] | p => p end) with
              | TextArray [] =>
                  mret [ {| raw_busNumber := fallbackBus;
                            raw_schoolName := fallbackSchool; raw_stops := [] |} ]
              | TextArray rs => mret rs
              | _ => mret []
              end
          end) (pushed (EvFetch text) w)).
  { unfold run, extractSpecEdRoutesV4_.
    apply falsy_false in Htext, Hkey. rewrite Htext, Hkey.
    erewrite bind_ok; [reflexivity|].
    apply withRetry_first_ok. by rewrite fetchOnce_run, Hfetch. }
  rewrite Hrun. clear Hrun run.
  destruct (responseCode res =? 200)%Z eqn:Hc; cbn [negb].
  - apply Z.eqb_eq in Hc. split.
    + destruct (body res) as [| |[| |[|? ?]]]; reflexivity.
    + split; [congruence|]. repeat split.
      * intros _ ->. by eexists.
      * by intros _ ->.
      * by intros _ ->.
  - apply Z.eqb_neq in Hc. split; [reflexivity|].
    split; [done|]. repeat split; congruence.
Qed.

Lemma extract_after_one_response_witness :
  extractSpecEdRoutesV4_
    (constServices (Ok "6:42 AM 123 Main St") (Ok (response 503 BodyMalformed)) (Ok None))
    "6:42 AM 123 Main St" "GUILFORD PARK" "021" (startWorld emptyState)
  = (Throw "Gemini API 503: (body)",
     pushed (EvFetch "6:42 AM 123 Main St") (startWorld emptyState)).
Proof.
  pose proof (extract_after_one_response
    (constServices (Ok "6:42 AM 123 Main St") (Ok (response 503 BodyMalformed)) (Ok None))
    "6:42 AM 123 Main St" "GUILFORD PARK" "021" (startWorld emptyState)
    (response 503 BodyMalformed)) as H.
  cbv zeta in H.
  destruct H as (H2 & H1 & _); [discriminate|discriminate|reflexivity|].
  specialize (H1 ltac:(discriminate)).
  destruct (extractSpecEdRoutesV4_ _ _ _ _ _) as [r w']. simpl in *.
  by rewrite H1, H2.
Defined.

(** ** Invariants of the monadic code *)

Section Stable.
Context (I : World → Prop) (R : World → World → Prop) `{!PreOrder R}.

Lemma stable_same {A} (m : M A) : (∀ w, (m w).2 = w) → stable I R m.
Proof. intros H w Hw. rewrite H. split; [done|reflexivity]. Qed.

Lemma stable_ret {A} (a : A) : stable I R (mret a).
Proof. by apply stable_same. Qed.

Lemma stable_throw {A} (e : string) : stable I R (throw e : M A).
Proof. by apply stable_same. Qed.

Lemma stable_lift {A} (r : Result A) : stable I R (lift r).
Proof. by apply stable_same. Qed.

Lemma stable_bind {A B} (m : M A) (f : A → M B) :
  stable I R m → (∀ a, stable I R (f a)) → stable I R (m ≫= f).
Proof.
  intros Hm Hf w Hw. unfold mbind, M_bind.
  destruct (Hm w Hw) as [HI HR]. destruct (m w) as [[a|e] w']; simpl in *.
  - destruct (Hf a w' HI) as [HI' HR']. split; [done|]. by etrans.
  - done.
Qed.

Lemma stable_try_catch {A} (m : M A) (h : string → M A) :
  stable I R m → (∀ e, stable I R (h e)) → stable I R (try_catch m h).
Proof.
  intros Hm Hh w Hw. unfold try_catch.
  destruct (Hm w Hw) as [HI HR]. destruct (m w) as [[a|e] w']; simpl in *.
  - done.
  - destruct (Hh e w' HI) as [HI' HR']. split; [done|]. by etrans.
Qed.

Lemma stable_forEach {A} (body : A → M unit) (l : list A) :
  (∀ x, stable I R (body x)) → stable I R (forEach body l).
Proof.
  intros Hb. induction l as [|x r IH]; simpl.
  - apply stable_ret.
  - apply stable_bind; [apply Hb|]. intros _. apply IH.
Qed.

Lemma stable_mapM {A B} (body : A → M B) (l : list A) :
  (∀ x, stable I R (body x)) → stable I R (mapM body l).
Proof.
  intros Hb. induction l as [|x r IH]; simpl.
  - apply stable_ret.
  - apply stable_bind; [apply Hb|]. intros y.
    apply stable_bind; [apply IH|]. intros ys. apply stable_ret.
Qed.

Lemma stable_repeatM (n : nat) (m : M unit) :
  stable I R m → stable I R (repeatM n m).
Proof.
  intros Hm. induction n as [|n IH]; simpl.
  - apply stable_ret.
  - apply stable_bind; [done|]. intros _. apply IH.
Qed.

(** The primitives, as far as the invariant at hand lets them through. *)
Context (sv : Services).
Context (Hemit : ∀ e, is_geocode e = false → stable I R (emit e)).
Context (Hlog : ∀ line, stable I R (log line)).
Context (Hmark : ∀ item, stable I R (markProcessed item)).
Context (Hpos : stable I R advance).
Context (Hdrive : ∀ d, stable I R (setDrive d)).
Context (Hgeo : ∀ stop, stable I R (geocodeStop sv stop)).

Lemma stable_withRetry_from {A} (fn : M A) (baseMs : Z) (left i : nat) (lastErr : string) :
  stable I R fn → stable I R (withRetry_from sv fn baseMs i left lastErr).
Proof.
  intros Hfn. revert i lastErr. induction left as [|left IH]; intros i lastErr; simpl.
  - apply stable_throw.
  - apply stable_try_catch; [done|]. intros e. destruct left as [|left'].
    + apply stable_throw.
    + apply stable_bind; [by apply stable_same|]. intros tr.
      apply stable_bind; [by apply Hemit|]. intros _. apply IH.
Qed.

Lemma stable_withRetry {A} (fn : M A) (attempts : nat) (baseMs : Z) :
  stable I R fn → stable I R (withRetryV4_ sv fn attempts baseMs).
Proof. apply stable_withRetry_from. Qed.

Ltac stable_step :=
  first
    [ apply stable_ret | apply stable_throw | apply stable_lift
    | apply Hlog | apply Hmark | apply Hpos | apply Hdrive | apply Hgeo
    | apply Hemit; reflexivity
    | apply stable_same; reflexivity
    | apply stable_withRetry
    | apply stable_forEach; intros ?
    | apply stable_mapM; intros ?
    | apply stable_repeatM
    | apply stable_try_catch; [|intros ?]
    | apply stable_bind; [|intros ?] ].

Lemma stable_parseRegEdDoc (docId docName busHint : string) :
  stable I R (parseRegEdDocV4_ sv docId docName busHint).
Proof. unfold parseRegEdDocV4_. repeat stable_step. Qed.

Lemma stable_ocr (pdfId : string) : stable I R (ocrPdfToTextV4_ sv pdfId).
Proof. unfold ocrPdfToTextV4_. repeat stable_step. Qed.

Lemma stable_extractSpecEd (text fallbackSchool fallbackBus : string) :
  stable I R (extractSpecEdRoutesV4_ sv text fallbackSchool fallbackBus).
Proof.
  unfold extractSpecEdRoutesV4_, fetchOnce.
  repeat (first [ stable_step | match goal with
                                | |- stable _ _ (if ?b then _ else _) => destruct b
                                | |- stable _ _ (match ?x with _ => _ end) => destruct x
                                end ]).
Qed.

Lemma stable_geocodeStops (routes : list RouteDraft) :
  stable I R (geocodeStopsV4_ sv routes).
Proof. unfold geocodeStopsV4_. repeat stable_step. Qed.

Lemma stable_driveCall (op : DriveOp) : stable I R (driveCall sv op).
Proof.
  unfold driveCall. stable_step; [stable_step|]. destruct (driveFault sv _ _); stable_step.
Qed.

Ltac stable_drive :=
  repeat (first [ apply stable_driveCall | stable_step
                | match goal with
                  | |- stable _ _ (match ?x with _ => _ end) => destruct x
                  | |- stable _ _ (if ?x then _ else _) => destruct x
                  | |- stable _ _ (let '(_, _) := ?x in _) => destruct x
                  end ]).

Lemma stable_getOrCreate (name : string) : stable I R (getOrCreateSubfolderV4_ sv name).
Proof. unfold getOrCreateSubfolderV4_. stable_drive. Qed.

Lemma stable_upsertJson (folder : nat) (fileName : string) (obj : Artifact) :
  stable I R (upsertJsonV4_ sv folder fileName obj).
Proof. unfold upsertJsonV4_. stable_drive. Qed.

Lemma stable_upsertSheet (folder : nat) (sheetName : string) (route : RouteDraft) :
  stable I R (upsertSheetV4_ sv folder sheetName route).
Proof. unfold upsertSheetV4_, setCells. stable_drive. Qed.

Lemma stable_publishOne (item : WorkItem) (route : RouteDraft) :
  stable I R (publishOne sv item route).
Proof.
  unfold publishOne, WRITE_JSON_V4, WRITE_SHEETS_V4.
  repeat first [ apply stable_getOrCreate | apply stable_upsertJson
               | apply stable_upsertSheet | stable_step ].
Qed.

Lemma stable_publishRoutes (routes : list RawRoute) (item : WorkItem) :
  stable I R (publishRoutesV4_ sv routes item).
Proof.
  unfold publishRoutesV4_. destruct routes; [stable_step|].
  destruct (List.filter _ _); [stable_step|].
  stable_step; [apply stable_geocodeStops|].
  stable_step. apply stable_publishOne.
Qed.

Lemma stable_extractRoutes (item : WorkItem) : stable I R (extractRoutes sv item).
Proof.
  unfold extractRoutes. destruct (String.eqb _ _); [apply stable_parseRegEdDoc|].
  destruct (String.eqb _ _); [|stable_step].
  stable_step; [apply stable_ocr|]. apply stable_extractSpecEd.
Qed.

Lemma stable_processItem (item : WorkItem) : stable I R (processItem sv item).
Proof.
  unfold processItem. destruct (_ || _); [stable_step|].
  stable_step; [stable_step|]. destruct (String.eqb _ _); [stable_step|].
  stable_step; [|stable_step].
  stable_step; [apply stable_extractRoutes|].
  stable_step; [apply stable_publishRoutes|]. stable_step.
Qed.

Lemma stable_runBatch : stable I R (runBatch sv).
Proof.
  unfold runBatch, batchTurn. stable_step; [stable_step|].
  stable_step. stable_step; [stable_step|]. stable_step; [|stable_step].
  destruct (_ !! _); [apply stable_processItem|stable_step].
Qed.

End Stable.

(** ** The trace only grows *)

#[local] Instance trace_grows_preorder : PreOrder trace_grows.
Proof.
  split.
  - intros w. unfold trace_grows. reflexivity.
  - intros a b c Hab Hbc. unfold trace_grows in *. by etrans.
Qed.

Lemma grows_emit (e : Event) : stable (fun _ => True) trace_grows (emit e).
Proof. intros w _. split; [done|]. unfold trace_grows. simpl. by apply suffix_cons_r. Qed.

Lemma grows_same_trace {A} (m : M A) :
  (∀ w, w_trace (m w).2 = w_trace w) → stable (fun _ => True) trace_grows m.
Proof. intros H w _. split; [done|]. unfold trace_grows. by rewrite H. Qed.

Lemma grows_bind {A B} (m : M A) (f : A → M B) :
  stable (fun _ => True) trace_grows m →
  (∀ a, stable (fun _ => True) trace_grows (f a)) →
  stable (fun _ => True) trace_grows (m ≫= f).
Proof. apply (stable_bind _ trace_grows). Qed.

Lemma grows_geocodeStop (sv : Services) (stop : Stop) :
  stable (fun _ => True) trace_grows (geocodeStop sv stop).
Proof.
  unfold geocodeStop. apply grows_bind; [by apply grows_same_trace|].
  intros st. destruct (_ ≫= _) as [[la ln]|]; [by apply grows_same_trace|].
  apply grows_bind.
  - apply (stable_withRetry _ trace_grows sv).
    + intros e _. apply grows_emit.
    + unfold geocodeOnce. apply grows_bind; [by apply grows_same_trace|].
      intros tr. apply grows_bind; [apply grows_emit|].
      intros _. by apply grows_same_trace.
  - intros res. apply grows_bind.
    + destruct res as [[la ln]|]; by apply grows_same_trace.
    + intros s. apply grows_bind; [apply grows_emit|].
      intros _. by apply grows_same_trace.
Qed.

(** Nothing the batch does takes an event back. *)
Lemma processItem_trace_grows (sv : Services) (item : WorkItem) (w : World) :
  w_trace w `suffix_of` w_trace (processItem sv item w).2.
Proof.
  apply (stable_processItem (fun _ => True) trace_grows sv); [| | | | |done].
  - intros e _. apply grows_emit.
  - intros line. by apply grows_same_trace.
  - intros it. by apply grows_same_trace.
  - intros d. by apply grows_same_trace.
  - apply grows_geocodeStop.
Qed.

Ltac grows_prims :=
  first [ done
        | intros ? _; apply grows_emit
        | intros ?; by apply grows_same_trace
        | by apply grows_same_trace
        | apply grows_geocodeStop ].

Lemma publishRoutes_trace_grows (sv : Services) (routes : list RawRoute)
    (item : WorkItem) (w : World) :
  w_trace w `suffix_of` w_trace (publishRoutesV4_ sv routes item w).2.
Proof.
  apply (stable_publishRoutes (fun _ => True) trace_grows sv); grows_prims.
Qed.

Lemma extractSpecEd_trace_grows (sv : Services) (text school bus : string) (w : World) :
  w_trace w `suffix_of` w_trace (extractSpecEdRoutesV4_ sv text school bus w).2.
Proof.
  apply (stable_extractSpecEd (fun _ => True) trace_grows sv); grows_prims.
Qed.

Lemma withRetry_from_trace_grows {A} (sv : Services) (fn : M A) (baseMs : Z)
    (left i : nat) (lastErr : string) (w : World) :
  (∀ w0, w_trace w0 `suffix_of` w_trace (fn w0).2) →
  w_trace w `suffix_of` w_trace (withRetry_from sv fn baseMs i left lastErr w).2.
Proof.
  intros Hfn.
  apply (stable_withRetry_from (fun _ => True) trace_grows sv); [grows_prims| |done].
  intros w0 _. split; [done|]. apply Hfn.
Qed.

(** The tail of the loop body once the extraction has answered. *)
Lemma after_extract_trace_grows (sv : Services) (item : WorkItem)
    (r : Result (list RawRoute)) (w : World) :
  w_trace w `suffix_of`
  w_trace (try_catch (lift r ≫= fun routes =>
                        publishRoutesV4_ sv routes item ;; markProcessed item)
             (fun err => log ("[ERROR] " +:+ routeType item +:+ " " +:+ fileName item
                              +:+ ": " +:+ err)) w).2.
Proof.
  unfold try_catch, mbind, M_bind, lift. destruct r as [routes|e]; simpl.
  - pose proof (publishRoutes_trace_grows sv routes item w) as H.
    destruct (publishRoutesV4_ sv routes item w) as [[[]|e] w1]; simpl in *; done.
  - done.
Qed.

Lemma try_catch_bind_split {A B} (m : M A) (k : A → M B) (h : string → M B) (w : World) :
  try_catch (m ≫= k) h w = try_catch (lift (m w).1 ≫= k) h (m w).2.
Proof.
  unfold try_catch, mbind, M_bind, lift. by destruct (m w) as [[a|e] w1].
Qed.

Lemma processItem_skip (sv : Services) (item : WorkItem) (w : World) :
  fileId item ≠ "" → routeType item ≠ "" →
  default "" (processed (w_state w) !! fileId item) = stamp_compared (updatedMs item) →
  processItem sv item w
  = (Ok tt, logged ("[SKIP] " +:+ routeType item +:+ " " +:+ fileName item
                    +:+ ": unchanged") w).
Proof.
  intros Hf Hr Heq. unfold processItem.
  apply falsy_false in Hf, Hr. rewrite Hf, Hr. cbn [orb].
  unfold mbind, M_bind, getState. rewrite Heq, String.eqb_refl. done.
Qed.

Lemma processItem_run (sv : Services) (item : WorkItem) (w : World) :
  fileId item ≠ "" → routeType item ≠ "" →
  default "" (processed (w_state w) !! fileId item) ≠ stamp_compared (updatedMs item) →
  processItem sv item w
  = try_catch (extractRoutes sv item ≫= fun routes =>
                 publishRoutesV4_ sv routes item ;; markProcessed item)
      (fun err => log ("[ERROR] " +:+ routeType item +:+ " " +:+ fileName item
                       +:+ ": " +:+ err)) w.
Proof.
  intros Hf Hr Hne. unfold processItem.
  apply falsy_false in Hf, Hr. rewrite Hf, Hr. cbn [orb].
  unfold mbind at 1. unfold M_bind at 1. unfold getState at 1.
  apply String.eqb_neq in Hne. rewrite Hne. done.
Qed.

(** A decimal numeral is never empty. *)
Lemma pretty_N_go_nonempty (x : N) (s : string) : s ≠ "" → pretty_N_go x s ≠ "".
Proof.
  revert s. induction (N.lt_wf_0 x) as [x _ IH]; intros s Hs.
  destruct (decide (x = 0)%N) as [->|Hx].
  - by rewrite pretty_N_go_0.
  - rewrite pretty_N_go_step by lia. apply IH; [|done].
    apply N.div_lt; lia.
Qed.

Lemma pretty_Z_nonempty (z : Z) : pretty z ≠ "".
Proof.
  assert (HN : ∀ n : N, pretty n ≠ "").
  { intros n. unfold pretty, pretty_N. case_decide; [done|].
    rewrite pretty_N_go_step by lia. by apply pretty_N_go_nonempty. }
  unfold pretty, pretty_Z. destruct z; [done|apply HN|done].
Qed.

Lemma head_in_grown (e : Event) (tr tr' : list Event) :
  e :: tr `suffix_of` tr' → e ∈ tr'.
Proof. intros [pre ->]. apply elem_of_app. right. apply list_elem_of_here. Qed.

Lemma regEd_is_called (sv : Services) (item : WorkItem) (w : World) :
  fileId item ≠ "" → routeType item = "REGED_DOC" →
  default "" (processed (w_state w) !! fileId item) ≠ stamp_compared (updatedMs item) →
  EvRegEdDoc (fileId item) ∈ w_trace (processItem sv item w).2.
Proof.
  intros Hf Hr Hne. rewrite processItem_run; [|done|by rewrite Hr|done].
  rewrite try_catch_bind_split.
  assert (extractRoutes sv item w
          = (regEdDoc sv (w_trace w) (fileId item) (fileName item) (busNumberHint item),
             pushed (EvRegEdDoc (fileId item)) w)) as ->.
  { unfold extractRoutes. by rewrite Hr. }
  eapply head_in_grown. apply (after_extract_trace_grows sv item _ (pushed _ w)).
Qed.

(** The first call of a retried operation stays in the trace. *)
Lemma withRetry_first_event {A} (sv : Services) (fn : M A) (n : nat) (baseMs : Z)
    (w : World) (e : Event) (r : Result A) :
  fn w = (r, pushed e w) →
  (∀ w0, w_trace w0 `suffix_of` w_trace (fn w0).2) →
  e :: w_trace w `suffix_of` w_trace (withRetryV4_ sv fn (S n) baseMs w).2.
Proof.
  intros Hfn Hgrows. unfold withRetryV4_. cbn [withRetry_from]. unfold try_catch.
  rewrite Hfn. destruct r as [a|err]; [done|]. destruct n as [|n]; [done|].
  change (e :: w_trace w) with (w_trace (pushed e w)).
  generalize (pushed e w). intros w1.
  assert (stable (fun _ => True) trace_grows
            (getTrace ≫= fun tr =>
               emit (EvSleep (baseMs * 2 ^ Z.of_nat 0 + jitter sv tr)) ;;
               withRetry_from sv fn baseMs 1 (S n) err)) as Hst.
  { apply grows_bind; [by apply grows_same_trace|]. intros tr.
    apply grows_bind; [apply grows_emit|]. intros _.
    apply (stable_withRetry_from (fun _ => True) trace_grows sv); [grows_prims|].
    intros w0 _. split; [done|]. apply Hgrows. }
  by apply Hst.
Qed.

Lemma ocr_is_called (sv : Services) (item : WorkItem) (w : World) :
  fileId item ≠ "" → routeType item = "SPECED_PDF" →
  default "" (processed (w_state w) !! fileId item) ≠ stamp_compared (updatedMs item) →
  EvOcr (fileId item) ∈ w_trace (processItem sv item w).2.
Proof.
  intros Hf Hr Hne. rewrite processItem_run; [|done|by rewrite Hr|done].
  rewrite try_catch_bind_split.
  eapply head_in_grown. etrans; [|apply after_extract_trace_grows].
  unfold extractRoutes. rewrite Hr. cbn [String.eqb Ascii.eqb Bool.eqb].
  unfold mbind at 1. unfold M_bind at 1.
  assert (Hocr : EvOcr (fileId item) :: w_trace w `suffix_of`
                 w_trace (ocrPdfToTextV4_ sv (fileId item) w).2).
  { unfold ocrPdfToTextV4_. eapply withRetry_first_event; [reflexivity|].
    intros w0. simpl. by apply suffix_cons_r. }
  destruct (ocrPdfToTextV4_ sv (fileId item) w) as [[t|e] w1]; simpl in *; [|done].
  etrans; [exact Hocr|]. apply extractSpecEd_trace_grows.
Qed.

(** C2, on the code.  For an item that passes the guard, the loop skips
    exactly when the stored stamp, read through [|| ''], equals
    [String(updatedMs || '')]: it then only logs the skip line, and
    otherwise calls the extraction of the item's type.  For a non-zero
    time stamp this is the comparison of the stored stamp with the stamp
    that a success stores.  For a time stamp of zero it is not: the stamp
    "0" that a success stores never equals the empty string that is
    compared, so the item is extracted again although its stamp is the
    stored one, and an item that has no stored stamp at all is skipped. *)
Theorem skip_test_on_the_code (sv : Services) (item : WorkItem) (w : World) :
  fileId item ≠ "" → routeType item ≠ "" →
  let prev := processed (w_state w) !! fileId item in
  (default "" prev = stamp_compared (updatedMs item) →
     processItem sv item w
     = (Ok tt, logged ("[SKIP] " +:+ routeType item +:+ " " +:+ fileName item
                       +:+ ": unchanged") w)) ∧
  (default "" prev ≠ stamp_compared (updatedMs item) →
     (routeType item = "REGED_DOC" →
        EvRegEdDoc (fileId item) ∈ w_trace (processItem sv item w).2) ∧
     (routeType item = "SPECED_PDF" →
        EvOcr (fileId item) ∈ w_trace (processItem sv item w).2)) ∧
  (updatedMs item ≠ 0 →
     default "" prev = stamp_compared (updatedMs item)
     ↔ prev = Some (stamp_stored (updatedMs item))) ∧
  (updatedMs item = 0 → prev = Some (stamp_stored (updatedMs item)) →
     default "" prev ≠ stamp_compared (updatedMs item)) ∧
  (updatedMs item = 0 → prev = None →
     default "" prev = stamp_compared (updatedMs item)).
Proof.
  intros Hf Hr prev. split; [by apply processItem_skip|]. split.
  { intros Hne. split; intros Ht.
    - by apply regEd_is_called.
    - by apply ocr_is_called. }
  unfold stamp_compared, stamp_stored. split; [|split].
  - intros Hms. apply Z.eqb_neq in Hms. rewrite Hms. split.
    + destruct prev as [p|]; simpl; [by intros ->|].
      intros H. symmetry in H. by apply pretty_Z_nonempty in H.
    + by intros ->.
  - intros -> ->. done.
  - intros -> ->. done.
Qed.

Lemma skip_test_on_the_code_witness :
  EvRegEdDoc "doc-1" ∈ w_trace
    (processItem (constServices (Ok "") (Throw "down") (Ok None))
       {| routeType := "REGED_DOC"; fileId := "doc-1"; fileName := "021 GUILFORD PARK";
          updatedMs := 0; busNumberHint := "021"; schoolNameHint := "GUILFORD PARK" |}
       (startWorld
          {| queue := []; pos := 0;
             processed := <["doc-1" := stamp_stored 0]> ∅; geocodeCache := ∅ |})).2.
Proof.
  pose proof (skip_test_on_the_code (constServices (Ok "") (Throw "down") (Ok None))
    {| routeType := "REGED_DOC"; fileId := "doc-1"; fileName := "021 GUILFORD PARK";
       updatedMs := 0; busNumberHint := "021"; schoolNameHint := "GUILFORD PARK" |}
    (startWorld
       {| queue := []; pos := 0;
          processed := <["doc-1" := stamp_stored 0]> ∅; geocodeCache := ∅ |}))
    as H.
  cbv zeta in H. destruct H as (_ & H & _); [discriminate|discriminate|].
  apply H; [by vm_compute|reflexivity].
Defined.

(** C1, on the code.  When the extraction of an item returns and none of
    its routes keeps a stop after cleaning (no route at all, as after an
    empty OCR text or a response without candidate text, or only routes
    without stops, as after a malformed candidate text), the loop logs one
    [WARN] line and then stores the item's stamp in [processed]: the item
    is not left for the next pass.  An empty OCR text is such a case. *)
Theorem quality_failure_marks_processed (sv : Services) (item : WorkItem)
    (w w1 : World) (routes : list RawRoute) :
  fileId item ≠ "" → routeType item ≠ "" →
  default "" (processed (w_state w) !! fileId item) ≠ stamp_compared (updatedMs item) →
  extractRoutes sv item w = (Ok routes, w1) →
  cleanedRoutes item routes = [] →
  (∃ line,
     processItem sv item w = (Ok tt, marked item (logged line w1)) ∧
     (line = "[WARN] " +:+ fileName item +:+ ": no routes extracted" ∨
      line = "[WARN] " +:+ fileName item +:+ ": no valid stops after cleanup")) ∧
  processed (w_state (processItem sv item w).2) !! fileId item
  = Some (stamp_stored (updatedMs item)) ∧
  (routeType item = "SPECED_PDF" → ocrCopy sv (w_trace w) (fileId item) = Ok "" →
     routes = [] ∧ w1 = pushed (EvOcr (fileId item)) w).
Proof.
  intros Hf Hr Hne Hext Hclean.
  assert (Hrun : ∃ line,
     processItem sv item w = (Ok tt, marked item (logged line w1)) ∧
     (line = "[WARN] " +:+ fileName item +:+ ": no routes extracted" ∨
      line = "[WARN] " +:+ fileName item +:+ ": no valid stops after cleanup")).
  { rewrite processItem_run by done. rewrite try_catch_bind_split, Hext.
    unfold try_catch, lift. cbn [fst snd].
    unfold mbind at 1. unfold M_bind at 1.
    destruct routes as [|r0 rs].
    - eexists. split; [reflexivity|by left].
    - eexists. split; [|by right].
      unfold mbind, M_bind, publishRoutesV4_. fold (cleanedRoutes item (r0 :: rs)).
      rewrite Hclean. reflexivity. }
  split; [exact Hrun|]. split.
  - destruct Hrun as (line & -> & _). simpl. apply lookup_insert_eq.
  - intros Ht Hocr. unfold extractRoutes in Hext. rewrite Ht in Hext.
    cbn [String.eqb Ascii.eqb Bool.eqb] in Hext.
    unfold mbind, M_bind in Hext.
    assert (ocrPdfToTextV4_ sv (fileId item) w
            = (Ok "", pushed (EvOcr (fileId item)) w)) as Ho.
    { unfold ocrPdfToTextV4_. apply withRetry_first_ok.
      unfold mbind, M_bind, getTrace, emit, lift. by rewrite Hocr. }
    rewrite Ho in Hext. unfold extractSpecEdRoutesV4_ in Hext. simpl in Hext.
    by injection Hext as <- <-.
Qed.

Lemma quality_failure_marks_processed_witness :
  processed (w_state
    (processItem (constServices (Ok "") (Throw "down") (Ok None))
       {| routeType := "SPECED_PDF"; fileId := "pdf-1"; fileName := "021 GUILFORD PARK.pdf";
          updatedMs := 1700000000000; busNumberHint := "021";
          schoolNameHint := "GUILFORD PARK" |}
       (startWorld emptyState)).2) !! "pdf-1"
  = Some "1700000000000".
Proof.
  pose proof (quality_failure_marks_processed
    (constServices (Ok "") (Throw "down") (Ok None))
    {| routeType := "SPECED_PDF"; fileId := "pdf-1"; fileName := "021 GUILFORD PARK.pdf";
       updatedMs := 1700000000000; busNumberHint := "021";
       schoolNameHint := "GUILFORD PARK" |}
    (startWorld emptyState)
    (pushed (EvOcr "pdf-1") (startWorld emptyState)) []) as H.
  destruct H as (_ & H & _);
    [discriminate|discriminate|by vm_compute|reflexivity|reflexivity|].
  exact H.
Defined.

(** An extraction that throws is logged as an error and nothing is
    stored for the item. *)
Lemma extract_throw_is_logged (sv : Services) (item : WorkItem) (w w1 : World)
    (e : string) :
  fileId item ≠ "" → routeType item ≠ "" →
  default "" (processed (w_state w) !! fileId item) ≠ stamp_compared (updatedMs item) →
  extractRoutes sv item w = (Throw e, w1) →
  processItem sv item w
  = (Ok tt, logged ("[ERROR] " +:+ routeType item +:+ " " +:+ fileName item
                    +:+ ": " +:+ e) w1).
Proof.
  intros Hf Hr Hne Hext. rewrite processItem_run by done.
  rewrite try_catch_bind_split, Hext. reflexivity.
Qed.

(** ** The geocode cache *)

Lemma cache_grows_refl (c : gmap string CacheEntry) : cache_grows c c.
Proof. intros k. destruct (c !! k) as [e|] eqn:E; [|done]. exists e. done. Qed.

Lemma cache_grows_trans (a b c : gmap string CacheEntry) :
  cache_grows a b → cache_grows b c → cache_grows a c.
Proof.
  intros Hab Hbc k. specialize (Hab k). specialize (Hbc k).
  destruct (a !! k) as [e|] eqn:Ea.
  - destruct Hab as (e' & Eb & Hkeep & Hnew). rewrite Eb in Hbc.
    destruct Hbc as (e'' & Ec & Hkeep' & Hnew'). exists e''. split; [done|]. split.
    + intros Hn. rewrite <- (Hkeep Hn). apply Hkeep'. by rewrite (Hkeep Hn).
    + intros Hne. destruct (decide (e' = e)) as [->|Hd].
      * by apply Hnew'.
      * rewrite (Hkeep' (Hnew Hd)). by apply Hnew.
  - intros e'' Ec. destruct (b !! k) as [e'|] eqn:Eb.
    + destruct Hbc as (e3 & Ec' & Hkeep' & _).
      assert (e3 = e'') as -> by congruence.
      rewrite (Hkeep' (Hab e' eq_refl)). by apply Hab.
    + by apply Hbc.
Qed.

#[local] Instance cache_step_preorder : PreOrder cache_step.
Proof.
  split.
  - intros w. split; [reflexivity|apply cache_grows_refl].
  - intros a b c [H1 H2] [H3 H4]. split; [by etrans|by eapply cache_grows_trans].
Qed.

Lemma cache_same {A} (m : M A) :
  (∀ w, w_trace (m w).2 = w_trace w ∧
        geocodeCache (w_state (m w).2) = geocodeCache (w_state w)) →
  stable cache_inv cache_step m.
Proof.
  intros H w [Hc Hn]. destruct (H w) as [Ht Hg]. split; [split|split].
  - intros q a Hin. rewrite Ht in Hin. rewrite Hg. exact (Hc q a Hin).
  - by rewrite Ht.
  - unfold trace_grows. by rewrite Ht.
  - rewrite Hg. apply cache_grows_refl.
Qed.

Lemma cache_emit (e : Event) : is_geocode e = false → stable cache_inv cache_step (emit e).
Proof.
  intros He w [Hc Hn]. split; [split|split]; simpl.
  - intros q a Hin. apply elem_of_cons in Hin as [<-|Hin]; [discriminate|].
    exact (Hc q a Hin).
  - split; [|done]. by destruct e.
  - unfold trace_grows. simpl. by apply suffix_cons_r.
  - apply cache_grows_refl.
Qed.

Lemma unmatched_failing (q : string) (new tr : list Event) :
  Forall (failing q) new → unmatched q tr → no_call_after_match tr →
  unmatched q (new ++ tr) ∧ no_call_after_match (new ++ tr).
Proof.
  intros Hnew Hun Hno. induction Hnew as [|e new He Hnew [IHun IHno]]; [done|].
  split.
  - intros q' a Hin. simpl in Hin. apply elem_of_cons in Hin as [Heq|Hin].
    + subst e. simpl in He. done.
    + by apply (IHun q' a).
  - simpl. split; [|done].
    destruct e as [| | |q0 [ans|msg]| | |]; simpl in He; try done.
    subst q0. exact IHun.
Qed.

Lemma geocodeOnce_run (sv : Services) (q : string) (w : World) :
  geocodeOnce sv q w
  = (geocode sv (w_trace w) q, pushed (EvGeocode q (geocode sv (w_trace w) q)) w).
Proof. reflexivity. Qed.

(** What a retried geocoder call leaves in the trace: calls that threw
    and pauses, and on top of them the call that answered, if one did. *)
Lemma retry_geocode (sv : Services) (q : string) (baseMs : Z) (left i : nat)
    (lastErr : string) (w : World) :
  let res := withRetry_from sv (geocodeOnce sv q) baseMs i left lastErr w in
  w_state res.2 = w_state w ∧
  ∃ new, w_trace res.2 = new ++ w_trace w ∧
         match res.1 with
         | Ok ans => ∃ new', new = EvGeocode q (Ok ans) :: new' ∧ Forall (failing q) new'
         | Throw _ => Forall (failing q) new
         end.
Proof.
  revert i lastErr w. induction left as [|left IH]; intros i lastErr w.
  - simpl. split; [done|]. exists []. done.
  - cbn [withRetry_from]. unfold try_catch. rewrite geocodeOnce_run.
    destruct (geocode sv (w_trace w) q) as [ans|msg] eqn:Hans.
    + simpl. split; [done|]. exists [EvGeocode q (Ok ans)]. split; [done|].
      exists []. done.
    + destruct left as [|left'].
      * simpl. split; [done|]. exists [EvGeocode q (Throw msg)]. split; [done|].
        constructor; [done|constructor].
      * set (w1 := pushed (EvGeocode q (Throw msg)) w).
        set (ms := baseMs * 2 ^ Z.of_nat i + jitter sv (w_trace w1)).
        change ((getTrace ≫= fun tr =>
                   emit (EvSleep (baseMs * 2 ^ Z.of_nat i + jitter sv tr)) ;;
                   withRetry_from sv (geocodeOnce sv q) baseMs (S i) (S left') msg) w1)
          with (withRetry_from sv (geocodeOnce sv q) baseMs (S i) (S left') msg
                  (pushed (EvSleep ms) w1)).
        specialize (IH (S i) msg (pushed (EvSleep ms) w1)).
        cbv zeta in IH. destruct IH as (Hst & new & Htr & Hres).
        split; [by rewrite Hst|].
        exists (new ++ [EvSleep ms; EvGeocode q (Throw msg)]). split.
        { rewrite Htr. simpl. by rewrite <- app_assoc. }
        assert (Forall (failing q) [EvSleep ms; EvGeocode q (Throw msg)]) as Htail
          by (repeat constructor).
        destruct (withRetry_from _ _ _ _ _ _ _).1 as [ans|e].
        -- destruct Hres as (new' & -> & Hf).
           exists (new' ++ [EvSleep ms; EvGeocode q (Throw msg)]).
           split; [done|]. by apply Forall_app_2.
        -- by apply Forall_app_2.
Qed.

Lemma geocodeStop_hit (sv : Services) (stop : Stop) (w : World)
    (e : CacheEntry) (la ln : Q) :
  geocodeCache (w_state w) !! toLowerCase (location stop +:+ COUNTY_SUFFIX_V4) = Some e →
  numeric_entry e = Some (la, ln) →
  geocodeStop sv stop w = (Ok (with_coords stop la ln), w).
Proof.
  intros Hc Hn. unfold geocodeStop, mbind at 1, M_bind at 1, getState at 1.
  rewrite Hc. simpl. rewrite Hn. done.
Qed.

(** One stop: the cache invariant is kept and the cache only gains. *)
Lemma cache_geocodeStop (sv : Services) (stop : Stop) :
  stable cache_inv cache_step (geocodeStop sv stop).
Proof.
  intros w [Hc Hn].
  set (query := location stop +:+ COUNTY_SUFFIX_V4).
  set (key := toLowerCase query).
  destruct (geocodeCache (w_state w) !! key ≫= numeric_entry) as [[la ln]|] eqn:Hhit.
  { assert (geocodeStop sv stop w = (Ok (with_coords stop la ln), w)) as ->.
    { unfold geocodeStop, mbind at 1, M_bind at 1, getState at 1.
      fold query key. by rewrite Hhit. }
    split; [done|reflexivity]. }
  assert (Hun : unmatched query (w_trace w)).
  { intros q' a Hin Heq. destruct (Hc q' a Hin) as (e & He & Hnum).
    rewrite Heq in He. fold key in He. rewrite He in Hhit. simpl in Hhit.
    rewrite Hhit in Hnum. by destruct Hnum. }
  pose proof (retry_geocode sv query 500 3 0 "null" w) as Hretry.
  cbv zeta in Hretry. destruct Hretry as (Hst & new & Htr & Hres).
  assert (Hrun : geocodeStop sv stop w =
    (withRetry_from sv (geocodeOnce sv query) 500 0 3 "null" ≫= fun res =>
       stop' ← match res with
               | Some (la, ln) =>
                   st ← getState;
                   setState (with_cache st
                     (<[key := {| lat := JNum la; lng := JNum ln |}]> (geocodeCache st))) ;;
                   mret (with_coords stop la ln)
               | None =>
                   mret (with_geocodeError stop
                           ("No match for " +:+ dquote +:+ location stop +:+ dquote))
               end;
       emit (EvSleep 150) ;; mret stop') w).
  { unfold geocodeStop, mbind at 1, M_bind at 1, getState at 1.
    fold query key. by rewrite Hhit. }
  rewrite Hrun. clear Hrun.
  destruct (withRetry_from sv (geocodeOnce sv query) 500 0 3 "null" w)
    as [[ans|msg] w1] eqn:Hw; cbn [fst snd] in *;
    [rewrite (bind_ok _ _ _ _ _ Hw) | rewrite (bind_throw _ _ _ _ _ Hw)].
  - destruct Hres as (new' & -> & Hfail).
    destruct (unmatched_failing query new' (w_trace w) Hfail Hun Hn) as [Hun' Hn'].
    destruct ans as [[la ln]|];
      (split; [split|split]);
      unfold matches_cached, trace_grows; simpl; rewrite ?Htr, ?Hst.
    + intros q a Hin.
      apply elem_of_cons in Hin as [Hin|Hin]; [discriminate|].
      apply elem_of_cons in Hin as [Hin|Hin].
      * injection Hin as -> _. fold key. rewrite lookup_insert_eq. by eexists.
      * pose proof (Hun' q a Hin) as Hne.
        assert (EvGeocode q (Ok (Some a)) ∈ w_trace w) as Hold.
        { apply elem_of_app in Hin as [Hin|Hin]; [|done].
          rewrite Forall_forall in Hfail. by apply Hfail in Hin. }
        destruct (Hc q a Hold) as (e & He & Hnum).
        exists e. split; [|done].
        rewrite lookup_insert_ne; [done|]. unfold key. congruence.
    + split; [done|]. split; [exact Hun'|exact Hn'].
    + do 2 apply suffix_cons_r. by apply suffix_app_r.
    + intros k. destruct (decide (k = key)) as [->|Hk].
      * rewrite lookup_insert_eq.
        destruct (geocodeCache (w_state w) !! key) as [e|] eqn:He.
        -- simpl in Hhit. eexists. split; [done|]. split.
           ++ rewrite Hhit. by intros [? ?].
           ++ intros _. by eexists.
        -- intros e' [= <-]. by eexists.
      * rewrite lookup_insert_ne by done. apply cache_grows_refl.
    + intros q a Hin.
      apply elem_of_cons in Hin as [Hin|Hin]; [discriminate|].
      apply elem_of_cons in Hin as [Hin|Hin]; [discriminate|].
      assert (EvGeocode q (Ok (Some a)) ∈ w_trace w) as Hold.
      { apply elem_of_app in Hin as [Hin|Hin]; [|done].
        rewrite Forall_forall in Hfail. by apply Hfail in Hin. }
      exact (Hc q a Hold).
    + split; [done|]. split; [exact Hun'|exact Hn'].
    + do 2 apply suffix_cons_r. by apply suffix_app_r.
    + apply cache_grows_refl.
  - destruct (unmatched_failing query new (w_trace w) Hres Hun Hn) as [Hun' Hn'].
    (split; [split|split]);
      unfold matches_cached, trace_grows; simpl; rewrite ?Htr, ?Hst.
    + intros q a Hin.
      assert (EvGeocode q (Ok (Some a)) ∈ w_trace w) as Hold.
      { apply elem_of_app in Hin as [Hin|Hin]; [|done].
        rewrite Forall_forall in Hres. by apply Hres in Hin. }
      exact (Hc q a Hold).
    + done.
    + by apply suffix_app_r.
    + apply cache_grows_refl.
Qed.

Lemma cache_runBatch (sv : Services) : stable cache_inv cache_step (runBatch sv).
Proof.
  apply (stable_runBatch cache_inv cache_step sv).
  - apply cache_emit.
  - intros line. by apply cache_same.
  - intros item. by apply cache_same.
  - by apply cache_same.
  - intros d. by apply cache_same.
  - apply cache_geocodeStop.
Qed.

(** C3, as the code has it.  Over the batch of a run the geocode cache
    only gains: no key is removed, an entry with numeric coordinates is
    never changed, and every new or changed entry has numeric
    coordinates.  A stop whose lower-cased query is in the cache with
    numeric coordinates gets these coordinates and the world is left as
    it is, so no geocoder call is made.  And no geocoder call of the run
    is made for a query for which an earlier call of the run, equal up to
    letter case, has returned a match. *)
Theorem geocode_cache_in_a_run (sv : Services) (w : World) :
  w_trace w = [] →
  let w' := (runBatch sv w).2 in
  cache_grows (geocodeCache (w_state w)) (geocodeCache (w_state w')) ∧
  no_call_after_match (w_trace w') ∧
  (∀ (stop : Stop) (w0 : World) (e : CacheEntry) (la ln : Q),
     geocodeCache (w_state w0) !! toLowerCase (location stop +:+ COUNTY_SUFFIX_V4)
       = Some e →
     numeric_entry e = Some (la, ln) →
     geocodeStop sv stop w0 = (Ok (with_coords stop la ln), w0)).
Proof.
  intros Hstart w'.
  assert (cache_inv w) as Hinv.
  { split; [|by rewrite Hstart]. intros q a Hin. rewrite Hstart in Hin. inversion Hin. }
  destruct (cache_runBatch sv w Hinv) as [[_ Hno] [_ Hgrow]].
  split; [exact Hgrow|]. split; [exact Hno|].
  intros stop w0 e la ln. apply geocodeStop_hit.
Qed.

Lemma geocode_cache_in_a_run_witness :
  geocodeStop noMatchServices (stop_at "6:42 AM" "9 Oak Ct")
    (startWorld
       {| queue := []; pos := 0; processed := ∅;
          geocodeCache :=
            <["9 oak ct, howard county, maryland" :=
                {| lat := JNum (3912345 # 100000); lng := JNum (-7654321 # 100000) |}]> ∅ |})
  = (Ok (with_coords (stop_at "6:42 AM" "9 Oak Ct")
           (3912345 # 100000) (-7654321 # 100000)),
     startWorld
       {| queue := []; pos := 0; processed := ∅;
          geocodeCache :=
            <["9 oak ct, howard county, maryland" :=
                {| lat := JNum (3912345 # 100000); lng := JNum (-7654321 # 100000) |}]> ∅ |}).
Proof.
  pose proof (geocode_cache_in_a_run noMatchServices (startWorld emptyState) eq_refl)
    as (_ & _ & H).
  eapply H; [by vm_compute|reflexivity].
Defined.

(** C3 as stated does not hold: a query that found no match is not
    cached, and when it recurs in the same run the geocoder is called
    again.  With a geocoder that finds a match the second stop is served
    from the cache. *)
Lemma repeated_query_is_called_again :
  w_trace (geocodeStopsV4_ noMatchServices [twoStopsOneAddress] (startWorld emptyState)).2
  = [ EvSleep 150; EvGeocode "9 Oak Ct, Howard County, Maryland" (Ok None);
      EvSleep 150; EvGeocode "9 Oak Ct, Howard County, Maryland" (Ok None) ] ∧
  w_trace (geocodeStopsV4_ matchServices [twoStopsOneAddress] (startWorld emptyState)).2
  = [ EvSleep 150;
      EvGeocode "9 Oak Ct, Howard County, Maryland"
        (Ok (Some (3912345 # 100000, -7654321 # 100000)%Q)) ].
Proof. split; by vm_compute. Qed.

(** ** Loading the state *)

(** A stop that is not in the cache is sent to the geocoder. *)
Lemma geocode_is_called (sv : Services) (stop : Stop) (w : World) :
  geocodeCache (w_state w) = ∅ →
  let query := location stop +:+ COUNTY_SUFFIX_V4 in
  EvGeocode query (geocode sv (w_trace w) query) ∈ w_trace (geocodeStop sv stop w).2.
Proof.
  intros Hempty query. eapply head_in_grown.
  assert (geocodeStop sv stop w =
    (withRetryV4_ sv (geocodeOnce sv query) 3 500 ≫= fun res =>
       stop' ← match res with
               | Some (la, ln) =>
                   st ← getState;
                   setState (with_cache st
                     (<[toLowerCase query := {| lat := JNum la; lng := JNum ln |}]>
                        (geocodeCache st))) ;;
                   mret (with_coords stop la ln)
               | None =>
                   mret (with_geocodeError stop
                           ("No match for " +:+ dquote +:+ location stop +:+ dquote))
               end;
       emit (EvSleep 150) ;; mret stop') w) as ->.
  { unfold geocodeStop, mbind at 1, M_bind at 1, getState at 1.
    fold query. by rewrite Hempty, lookup_empty. }
  pose proof (withRetry_first_event sv (geocodeOnce sv query) 2 500 w _ _
                (geocodeOnce_run sv query w)) as Hfirst.
  unfold mbind at 1. unfold M_bind at 1.
  destruct (withRetryV4_ sv (geocodeOnce sv query) 3 500 w) as [[res|e] w1];
    cbn [snd] in *.
  - etrans; [apply Hfirst; intros w0; simpl; by apply suffix_cons_r|].
    destruct res as [[la ln]|]; simpl; by apply suffix_cons_r.
  - apply Hfirst. intros w0. simpl. by apply suffix_cons_r.
Qed.

(** C9.  [loadStateV4_] propagates an error exactly when one of the
    Drive calls before its [try] block throws, and then that error;
    nothing the state file holds makes it throw.  When the
    state file is absent, when its text cannot be read or parsed, and when
    it holds [null], the state returned is the empty initial state: no
    queue, position 0, no processed stamp and no cached coordinate.  From
    such a state every item that passes the guard and has a non-zero time
    stamp is extracted again, and every stop is sent to the geocoder
    again. *)
Theorem loadState_outcomes (found : Result (option StateDoc)) :
  (∀ e, loadStateV4_ found = Throw e ↔ found = Throw e) ∧
  (∀ h e, (loadState h).1 = Throw e ↔ hostFault h LoadLookup = Some e) ∧
  (∀ file, found = Ok file → ∃ s, loadStateV4_ found = Ok s) ∧
  (found = Ok None ∨ found = Ok (Some DocNotJson) ∨ found = Ok (Some DocNull) →
     loadStateV4_ found = Ok emptyState) ∧
  (queue emptyState = [] ∧ pos emptyState = 0%nat ∧
   processed emptyState = ∅ ∧ geocodeCache emptyState = ∅) ∧
  (∀ (sv : Services) (item : WorkItem) (w : World),
     processed (w_state w) = ∅ →
     fileId item ≠ "" → updatedMs item ≠ 0 →
     (routeType item = "REGED_DOC" →
        EvRegEdDoc (fileId item) ∈ w_trace (processItem sv item w).2) ∧
     (routeType item = "SPECED_PDF" →
        EvOcr (fileId item) ∈ w_trace (processItem sv item w).2)) ∧
  (∀ (sv : Services) (stop : Stop) (w : World),
     geocodeCache (w_state w) = ∅ →
     EvGeocode (location stop +:+ COUNTY_SUFFIX_V4)
       (geocode sv (w_trace w) (location stop +:+ COUNTY_SUFFIX_V4))
     ∈ w_trace (geocodeStop sv stop w).2).
Proof.
  split.
  { intros e. destruct found as [[[| |q p pr gc]|]|e']; simpl; split; congruence. }
  split.
  { intros h e. unfold loadState, lookupState. cbn [fst].
    destruct (hostFault h LoadLookup) as [e'|]; [simpl; split; congruence|].
    destruct (stateFile h) as [[| |q p pr gc]|]; simpl; split; congruence. }
  split.
  { intros file ->. destruct file as [[| |q p pr gc]|]; simpl; by eexists. }
  split.
  { intros [->|[->| ->]]; reflexivity. }
  split; [done|]. split.
  - intros sv item w Hp Hf Hms.
    assert (default "" (processed (w_state w) !! fileId item)
            ≠ stamp_compared (updatedMs item)) as Hne.
    { rewrite Hp, lookup_empty. simpl. unfold stamp_compared.
      apply Z.eqb_neq in Hms. rewrite Hms. intros H. symmetry in H.
      by apply pretty_Z_nonempty in H. }
    split; intros Ht.
    + by apply regEd_is_called.
    + by apply ocr_is_called.
  - intros sv stop w Hc. by apply geocode_is_called.
Qed.

Lemma loadState_outcomes_witness :
  loadStateV4_ (Ok (Some DocNotJson)) = Ok emptyState.
Proof.
  apply (proj1 (proj2 (proj2 (proj2 (loadState_outcomes (Ok (Some DocNotJson))))))).
  right. left. reflexivity.
Defined.

(** Loading is not total.  When Drive fails at the look-up of the state
    file, [loadStateV4_] throws, and so does the run that called it, with
    the lock released and nothing else done. *)
Lemma loadState_lookup_error_propagates :
  loadStateV4_ (lookupState lookupDown) = Throw "Exception: Service error: Drive" ∧
  (¬ ∃ s, loadStateV4_ (lookupState lookupDown) = Ok s) ∧
  syncRoutesUnifiedV4 sheetServices lookupDown
  = (Throw "Exception: Service error: Drive", lookupDown).
Proof.
  split; [reflexivity|]. split; [|reflexivity].
  intros [s Hs]. discriminate Hs.
Qed.

(** ** Publishing *)

(** *** Folders and their files *)






Lemma withFiles_same (i : nat) (d : list Folder) : withFiles i (filesOf i d) d = d.
Proof.
  unfold withFiles, filesOf. revert i. induction d as [|fo d IH]; intros [|i]; simpl; [done..| |].
  - by destruct fo.
  - f_equal. apply IH.
Qed.

(** *** What a successful call has done *)







(** *** Writing a second time *)

Section Twice.
Context (sv : Services).
Context (Hrefl : ∀ n, sameName sv n n = true).




End Twice.




(** ** The canonical school name *)


Lemma rev_reverse {A} (l : list A) : rev l = reverse l.
Proof. unfold reverse. apply rev_alt. Qed.

Section KeepsChars.
Context (P : ascii → Prop) (Pspace : P " "%char).









End KeepsChars.


Lemma collapse_head (l : list ascii) :
  match collapse_ws true l with
  | [] => True
  | d :: _ => is_space d = false
  end.
Proof.
  induction l as [|c r IH]; simpl; [done|].
  destruct (is_space c) eqn:Hc; done.
Qed.

Lemma collapse_spaced (b : bool) (l : list ascii) : spaced (collapse_ws b l).
Proof.
  revert b. induction l as [|c r IH]; intros b; simpl; [done|].
  destruct (is_space c) eqn:Hc.
  - destruct b; [apply IH|]. simpl. split; [|apply IH].
    intros _. split; [done|]. apply collapse_head.
  - simpl. split; [|apply IH]. congruence.
Qed.

Lemma dropWhile_split (p : ascii → bool) (l : list ascii) :
  ∃ pre, l = pre ++ dropWhile p l.
Proof.
  induction l as [|c r [pre IH]]; simpl; [by exists []|].
  destruct (p c); [|by exists []]. exists (c :: pre). simpl. by rewrite <- IH.
Qed.

Lemma dropWhile_head (p : ascii → bool) (l : list ascii) (c : ascii) :
  head (dropWhile p l) = Some c → p c = false.
Proof.
  induction l as [|a r IH]; simpl; [done|].
  destruct (p a) eqn:Ha; [done|]. by intros [= <-].
Qed.

Lemma spaced_suffix (pre l : list ascii) : spaced (pre ++ l) → spaced l.
Proof. induction pre as [|c pre IH]; simpl; [done|]. intros [_ H]. by apply IH. Qed.

Lemma spaced_prefix (l post : list ascii) : spaced (l ++ post) → spaced l.
Proof.
  induction l as [|c l IH]; simpl; [done|]. intros [Hc H]. split; [|by apply IH].
  intros Hs. destruct (Hc Hs) as [-> Hn]. split; [done|]. by destruct l.
Qed.

Lemma trim_tidy (l : list ascii) : spaced l → tidy (trim_chars l).
Proof.
  intros Hs. unfold trim_chars.
  set (l1 := dropWhile is_space l).
  destruct (dropWhile_split is_space l) as [pre Hpre]. fold l1 in Hpre.
  destruct (dropWhile_split is_space (rev l1)) as [post Hpost].
  set (x := dropWhile is_space (rev l1)) in *.
  assert (l1 = rev x ++ rev post) as Hl1.
  { rewrite <- (rev_involutive l1), Hpost, rev_app_distr. done. }
  split; [|split].
  - rewrite Hpre, Hl1 in Hs. by apply spaced_suffix, spaced_prefix in Hs.
  - intros c Hc. apply (dropWhile_head is_space l c). fold l1. rewrite Hl1.
    destruct (rev x); [done|]. done.
  - intros c Hc. apply (dropWhile_head is_space (rev l1) c). fold x.
    rewrite rev_reverse, last_reverse in Hc. exact Hc.
Qed.



(** *** Plain names and their annotations *)

Lemma word_char_facts (c : ascii) :
  is_word c = true →
  is_space c = false ∧ (code c =? 45)%N = false ∧ (code c =? 40)%N = false ∧
  upper_char c ≠ "("%char.
Proof.
  destruct c as [[] [] [] [] [] [] [] []]; vm_compute; intros H; try discriminate H;
    repeat split; discriminate.
Qed.

Lemma code_space (c : ascii) : (code c =? 32)%N = true → c = " "%char.
Proof.
  intros H. apply N.eqb_eq in H. unfold code in H.
  rewrite <- (ascii_N_embedding c), H. reflexivity.
Qed.

(** A scan that copies a word character, and a space before a word
    character, copies what may follow a word character of a plain name. *)
Lemma plain_scan (f : list ascii → list ascii) :
  (∀ d X, is_word d = true → f (d :: X) = d :: f X) →
  (∀ d X, is_word d = true → f (" "%char :: d :: X) = " "%char :: d :: f X) →
  ∀ l S, plain_tail l = true → f (l ++ S) = l ++ f S.
Proof.
  intros HW HS l S. remember (length l) as n eqn:Hn. revert l Hn.
  induction n as [n IH] using lt_wf_ind. intros l Hn Hp.
  destruct l as [|c r]; [done|]. simpl in Hp.
  destruct (is_word c) eqn:Hc.
  - cbn [app]. rewrite HW by done. f_equal.
    apply (IH (length r)); [simpl in Hn; lia|done|done].
  - apply andb_prop in Hp as [Hp Hr]. apply andb_prop in Hp as [H32 Hd].
    apply code_space in H32 as ->.
    destruct r as [|d r']; [done|]. cbn [app]. rewrite HS by done. do 2 f_equal.
    simpl in Hr. rewrite Hd in Hr.
    apply (IH (length r')); [simpl in Hn; lia|done|done].
Qed.

Lemma dash_plain (l S : list ascii) :
  plain_tail l = true →
  dash_to_space false [] (l ++ S) = l ++ dash_to_space false [] S.
Proof.
  apply (plain_scan (dash_to_space false [])).
  - intros d X Hd. destruct (word_char_facts d Hd) as (Hs & H45 & _).
    cbn [dash_to_space]. by rewrite H45, Hs.
  - intros d X Hd. destruct (word_char_facts d Hd) as (Hs & H45 & _).
    cbn [dash_to_space].
    change (code " " =? 45)%N with false. change (is_space " ") with true.
    cbn [app]. by rewrite H45, Hs.
Qed.

Lemma collapse_plain (l S : list ascii) :
  plain_tail l = true →
  collapse_ws false (l ++ S) = l ++ collapse_ws false S.
Proof.
  apply (plain_scan (collapse_ws false)).
  - intros d X Hd. destruct (word_char_facts d Hd) as (Hs & _).
    cbn [collapse_ws]. by rewrite Hs.
  - intros d X Hd. destruct (word_char_facts d Hd) as (Hs & _).
    cbn [collapse_ws]. change (is_space " ") with true. by rewrite Hs.
Qed.

Lemma period_note_word (d : ascii) (X : list ascii) :
  is_word d = true → is_period_note (d :: X) = false.
Proof.
  intros Hd. destruct (word_char_facts d Hd) as (_ & _ & _ & Hu).
  unfold is_period_note. cbn [map].
  rewrite !bool_decide_eq_false_2; [done|intros [= H _]; done..].
Qed.

Lemma period_plain (l S : list ascii) :
  plain_tail l = true →
  drop_period_note (l ++ S) = l ++ drop_period_note S.
Proof.
  apply (plain_scan drop_period_note).
  - intros d X Hd. destruct (word_char_facts d Hd) as (Hs & _).
    cbn [drop_period_note]. by rewrite Hs.
  - intros d X Hd. destruct (word_char_facts d Hd) as (Hs & _).
    cbn [drop_period_note dropWhile]. change (is_space " ") with true.
    rewrite Hs. rewrite period_note_word by done. by cbn [andb].
Qed.

(** A text that does not begin with ROUTE does not when a blank follows. *)
Lemma strip_prefix_blank (p a S : list ascii) :
  Forall (fun x => Ascii.eqb (upper_char x) " " = false) p →
  strip_prefix_ci p a = None → starts_blank S →
  strip_prefix_ci p (a ++ S) = None.
Proof.
  intros Hp. revert a. induction Hp as [|x p Hx Hp IH]; intros a Hn HS; [done|].
  destruct a as [|c a]; cbn [app].
  - destruct S as [|e S]; [done|]. simpl in HS. subst e. cbn [strip_prefix_ci].
    change (upper_char " ") with " "%char. by rewrite Hx.
  - simpl in Hn |- *. destruct (Ascii.eqb (upper_char x) (upper_char c)); [|done].
    by apply IH.
Qed.

Lemma route_prefix_blank (a S : list ascii) :
  strip_prefix_ci (chars "ROUTE") a = None → starts_blank S →
  strip_prefix_ci (chars "ROUTE") (a ++ S) = None.
Proof. apply strip_prefix_blank. by repeat constructor. Qed.

(** The word boundary looks at the character before it only for its
    class. *)
Lemma drop_route_prev (p q : ascii) (l : list ascii) :
  is_word p = is_word q → drop_route (Some p) l = drop_route (Some q) l.
Proof.
  intros H. destruct l as [|c r]; simpl; unfold boundary; simpl; by rewrite H.
Qed.

Lemma match_route_word (d : ascii) (X : list ascii) :
  is_word d = true →
  strip_prefix_ci (chars "ROUTE") (d :: X) = None →
  match_route (d :: X) = None.
Proof.
  intros Hd Hn. destruct (word_char_facts d Hd) as (Hs & _ & H40 & _).
  unfold match_route. rewrite H40. cbn [dropWhile]. rewrite Hs. by rewrite Hn.
Qed.

Lemma drop_route_plain (l S : list ascii) :
  plain_tail l = true → route_free false l = true → starts_blank S →
  drop_route (Some "A"%char) (l ++ S) = l ++ drop_route (Some "A"%char) S.
Proof.
  intros Hp Hr HS. remember (length l) as n eqn:Hn. revert l Hn Hp Hr.
  induction n as [n IH] using lt_wf_ind. intros l Hn Hp Hr.
  destruct l as [|c r]; [done|]. simpl in Hp.
  destruct (is_word c) eqn:Hc.
  - cbn [app drop_route head]. unfold boundary. cbn [wordness]. rewrite Hc.
    cbn [Bool.eqb negb is_word]. change (is_word "A") with true. cbn [Bool.eqb negb].
    f_equal. rewrite (drop_route_prev c "A") by done.
    simpl in Hr. rewrite Hc in Hr. cbn [negb] in Hr.
    apply (IH (length r)); [simpl in Hn; lia|done|done|done].
  - apply andb_prop in Hp as [Hp Hpr]. apply andb_prop in Hp as [H32 Hd].
    apply code_space in H32 as ->.
    destruct r as [|d r']; [done|].
    simpl in Hpr. rewrite Hd in Hpr.
    cbn [route_free] in Hr. rewrite Hd in Hr. cbn [andb negb] in Hr.
    change (is_word " ") with false in Hr. cbn [negb andb] in Hr.
    apply andb_prop in Hr as [Hfree Hr].
    apply negb_true_iff, bool_decide_eq_false in Hfree.
    assert (strip_prefix_ci (chars "ROUTE") (d :: r' ++ S) = None) as Hno.
    { apply (route_prefix_blank (d :: r')); [|done].
      destruct (strip_prefix_ci (chars "ROUTE") (d :: r')) eqn:E; [|done].
      exfalso. apply Hfree. by eexists. }
    destruct (word_char_facts d Hd) as (Hs & _ & H40 & _).
    cbn [app]. cbn [drop_route head].
    assert (match_route (" "%char :: d :: r' ++ S) = None) as ->.
    { unfold match_route. change (code " " =? 40)%N with false.
      cbn [dropWhile]. change (is_space " ") with true. rewrite Hs. by rewrite Hno. }
    replace (if boundary (Some "A"%char) (Some " "%char) then None else None)
      with (@None (list ascii)) by by destruct (boundary _ _).
    rewrite (match_route_word d (r' ++ S) Hd Hno).
    replace (if boundary (Some " "%char) (Some d) then None else None)
      with (@None (list ascii)) by by destruct (boundary _ _).
    do 2 f_equal. rewrite (drop_route_prev d "A") by done.
    apply (IH (length r')); [simpl in Hn; lia|done|done|done].
Qed.



Lemma upper_chars_app (x s : string) :
  map upper_char (chars (x +:+ s)) = map upper_char (chars x) ++ map upper_char (chars s).
Proof. by rewrite chars_app, map_app. Qed.

(** The canonical name of a plain name with a text after it. *)
Lemma canonicalize_plain (x s : string) :
  plain_name x →
  starts_blank (dash_to_space false [] (map upper_char (chars s))) →
  canonicalizeSchoolV4_ (x +:+ s)
  = str (trim_chars (map upper_char (chars x)
                     ++ canonical_rest (map upper_char (chars s)))).
Proof.
  intros [Hp Hr] Hb. unfold canonicalizeSchoolV4_, canonical_rest.
  rewrite upper_chars_app. cbv zeta in Hp, Hr.
  destruct (map upper_char (chars x)) as [|c r]; [done|]. destruct Hp as [Hc Hp].
  assert (plain_tail (c :: r) = true) as Hcr by (simpl; by rewrite Hc).
  rewrite dash_plain by done.
  set (S2 := dash_to_space false [] (map upper_char (chars s))) in *.
  assert (drop_route None ((c :: r) ++ S2) = (c :: r) ++ drop_route (Some "A"%char) S2)
    as ->.
  { cbn [route_free] in Hr. rewrite Hc in Hr. cbn [andb negb] in Hr.
    apply andb_prop in Hr as [Hfree Hr].
    apply negb_true_iff, bool_decide_eq_false in Hfree.
    assert (strip_prefix_ci (chars "ROUTE") (c :: r ++ S2) = None) as Hno.
    { apply (route_prefix_blank (c :: r)); [|done].
      destruct (strip_prefix_ci (chars "ROUTE") (c :: r)) eqn:E; [|done].
      exfalso. apply Hfree. by eexists. }
    cbn [app drop_route head]. rewrite (match_route_word c (r ++ S2) Hc Hno).
    replace (if boundary None (Some c) then None else None)
      with (@None (list ascii)) by by destruct (boundary _ _).
    f_equal. rewrite (drop_route_prev c "A") by done.
    by apply drop_route_plain. }
  rewrite period_plain by done. rewrite collapse_plain by done. done.
Qed.


(** Two annotations, a ROUTE in parentheses, and a hyphen in the period
    are not removed. *)
Lemma canonicalize_not_removed (x : string) :
  plain_name x →
  canonicalizeSchoolV4_ (x +:+ " Route (AM)") = toUpperCase x +:+ "(AM)" ∧
  canonicalizeSchoolV4_ (x +:+ " (Route)") = toUpperCase x +:+ " (" ∧
  canonicalizeSchoolV4_ (x +:+ " (Mid-Day)") = toUpperCase x +:+ " (MID DAY)".
Proof.
  intros Hx.
  assert (∀ s t, starts_blank (dash_to_space false [] (map upper_char (chars s))) →
                 canonical_rest (map upper_char (chars s)) = chars t →
                 (∃ e l, rev (chars t) = e :: l ∧ is_space e = false) →
                 canonicalizeSchoolV4_ (x +:+ s) = toUpperCase x +:+ t) as Hgen.
  { intros s t Hb Hrest (e & l & Hrev & He).
    rewrite canonicalize_plain by done. rewrite Hrest.
    destruct Hx as [Hp _]. cbv zeta in Hp. unfold toUpperCase.
    destruct (map upper_char (chars x)) as [|c r]; [done|]. destruct Hp as [Hc Hp].
    destruct (word_char_facts c Hc) as (Hs & _).
    rewrite <- (str_chars (str (c :: r) +:+ t)), chars_app, chars_str. f_equal.
    unfold trim_chars. cbn [app dropWhile]. rewrite Hs.
    change (c :: r ++ chars t) with ((c :: r) ++ chars t).
    rewrite rev_app_distr, Hrev. cbn [app dropWhile]. rewrite He.
    change (e :: l ++ rev (c :: r)) with ((e :: l) ++ rev (c :: r)).
    rewrite <- Hrev, <- rev_app_distr. apply rev_involutive. }
  split_and!; apply Hgen; try (by vm_compute); by eexists _, _.
Qed.

(** *** Publishing twice *)




(** ** The batch loop visits the items of the batch *)

#[local] Instance same_cursor_preorder : PreOrder same_cursor.
Proof.
  split.
  - intros w. by split.
  - intros a b c [H1 H2] [H3 H4]. split; congruence.
Qed.

Lemma cursor_same_state {A} (m : M A) :
  (∀ w, queue (w_state (m w).2) = queue (w_state w) ∧
        pos (w_state (m w).2) = pos (w_state w)) →
  stable (fun _ => True) same_cursor m.
Proof. intros H w _. split; [done|]. apply H. Qed.

Lemma cursor_bind {A B} (m : M A) (f : A → M B) :
  stable (fun _ => True) same_cursor m →
  (∀ a, stable (fun _ => True) same_cursor (f a)) →
  stable (fun _ => True) same_cursor (m ≫= f).
Proof. apply (stable_bind _ same_cursor). Qed.

Lemma cursor_geocodeStop (sv : Services) (stop : Stop) :
  stable (fun _ => True) same_cursor (geocodeStop sv stop).
Proof.
  unfold geocodeStop. apply cursor_bind; [by apply cursor_same_state|].
  intros st. destruct (_ ≫= _) as [[la ln]|]; [by apply cursor_same_state|].
  apply cursor_bind.
  - apply (stable_withRetry _ same_cursor sv).
    + intros e _. by apply cursor_same_state.
    + by apply cursor_same_state.
  - intros res. apply cursor_bind.
    + destruct res as [[la ln]|]; by apply cursor_same_state.
    + intros s. by apply cursor_same_state.
Qed.

Lemma processItem_same_cursor (sv : Services) (item : WorkItem) (w : World) :
  same_cursor w (processItem sv item w).2.
Proof.
  apply (stable_processItem (fun _ => True) same_cursor sv); [| | | | |done].
  - intros e _. by apply cursor_same_state.
  - intros line. by apply cursor_same_state.
  - intros it. by apply cursor_same_state.
  - intros d. by apply cursor_same_state.
  - apply cursor_geocodeStop.
Qed.

Lemma repeat_batchTurn (sv : Services) (n : nat) (w : World) :
  (pos (w_state w) + n <= length (queue (w_state w)))%nat →
  repeatM n (batchTurn sv) w
  = forEach (fun item => processItem sv item ;; advance)
      (take n (drop (pos (w_state w)) (queue (w_state w)))) w.
Proof.
  revert w. induction n as [|n IH]; intros w Hn.
  - by rewrite take_0.
  - destruct (queue (w_state w) !! pos (w_state w)) as [item|] eqn:Hitem.
    2:{ apply lookup_ge_None in Hitem. lia. }
    rewrite (drop_S _ _ _ Hitem). cbn [take forEach repeatM].
    assert (batchTurn sv w = (processItem sv item ;; advance) w) as Hturn.
    { unfold batchTurn, mbind at 1, M_bind at 1, getState at 1. by rewrite Hitem. }
    destruct ((processItem sv item ;; advance) w) as [[[]|e] w'] eqn:Hw'.
    2:{ rewrite (bind_throw (batchTurn sv) _ w w' e) by (by rewrite Hturn).
        by rewrite (bind_throw _ _ w w' e Hw'). }
    rewrite (bind_ok (batchTurn sv) _ w w' tt) by (by rewrite Hturn).
    rewrite (bind_ok _ _ w w' tt Hw').
    assert (queue (w_state w') = queue (w_state w) ∧
            pos (w_state w') = S (pos (w_state w))) as [Hq Hp].
    { unfold mbind, M_bind in Hw'.
      pose proof (processItem_same_cursor sv item w) as [Hq Hp].
      destruct (processItem sv item w) as [[[]|e] w1]; [|done].
      injection Hw' as <-. simpl in *. by rewrite Hp. }
    rewrite IH by (rewrite Hq, Hp; lia). by rewrite Hq, Hp.
Qed.

(** The batch of a run is the loop body applied, in queue order, to the
    items from the cursor up to the batch size or the end of the queue. *)
Lemma runBatch_items (sv : Services) (w : World) :
  runBatch sv w
  = forEach (fun item => processItem sv item ;; advance) (batchItems (w_state w)) w.
Proof.
  unfold runBatch, mbind at 1, M_bind at 1, getState at 1, batchItems.
  destruct (decide (pos (w_state w) <= length (queue (w_state w)))%nat) as [Hle|Hgt].
  - apply repeat_batchTurn. lia.
  - replace (Nat.min (pos (w_state w) + BATCH_SIZE_V4) (length (queue (w_state w)))
             - pos (w_state w))%nat with 0%nat by lia.
    by rewrite take_0.
Qed.

(** ** The retry wrapper and a whole run, on examples *)

(** A fetch that throws is tried again after a pause. *)
Lemma fetch_throw_is_retried (sv : Services) (text e : string) (w : World)
    (res : HttpResponse) :
  urlFetch sv (w_trace w) text = Throw e →
  let paused := pushed (EvSleep (1000 * 2 ^ Z.of_nat 0
                                 + jitter sv (EvFetch text :: w_trace w)))
                  (pushed (EvFetch text) w) in
  urlFetch sv (w_trace paused) text = Ok res →
  withRetryV4_ sv (fetchOnce sv text) 3 1000 w = (Ok res, pushed (EvFetch text) paused).
Proof.
  intros H1 paused H2. unfold withRetryV4_. cbn [withRetry_from]. unfold try_catch at 1.
  rewrite fetchOnce_run, H1.
  change ((getTrace ≫= fun tr =>
             emit (EvSleep (1000 * 2 ^ Z.of_nat 0 + jitter sv tr)) ;;
             try_catch (fetchOnce sv text)
               (fun err => tr0 ← getTrace;
                           emit (EvSleep (1000 * 2 ^ Z.of_nat 1 + jitter sv tr0)) ;;
                           try_catch (fetchOnce sv text) (fun err0 => throw err0)))
            (pushed (EvFetch text) w))
    with (try_catch (fetchOnce sv text)
            (fun err => tr0 ← getTrace;
                        emit (EvSleep (1000 * 2 ^ Z.of_nat 1 + jitter sv tr0)) ;;
                        try_catch (fetchOnce sv text) (fun err0 => throw err0))
            paused).
  unfold try_catch at 1. by rewrite fetchOnce_run, H2.
Qed.

(** The sheet "021 GUILFORD PARK.pdf" is published as
    [Bus Stops/021/GUILFORD PARK (AM).json] with its one geocoded stop and
    as the spreadsheet [GUILFORD PARK (AM)] beside it, and its stamp is
    stored. *)
Example sheet_run :
  let w := (runBatch sheetServices sheetWorld).2 in
  w_logs w = [ "[OK] 021 GUILFORD PARK (AM).json -> https://drive.google.com/file/d/file-4/view";
               "[OK] 021 GUILFORD PARK (AM) (sheet) -> https://docs.google.com/spreadsheets/d/sheet" ] ∧
  processed (w_state w) !! "pdf-1" = Some "1700000000000" ∧
  pos (w_state w) = 1%nat ∧
  folder_name <$> w_drive w = ["021"] ∧
  ((fun f => (file_name f,
              match file_content f with
              | JsonText a =>
                  Some (sourceFileName (meta a),
                        (fun s => (location s, latitude s, longitude s)) <$> art_stops a)
              | _ => None
              end,
              match file_content f with
              | SheetCells values => Some (length values)
              | _ => None
              end))
     <$> filesOf 0 (w_drive w))
  = [ ("GUILFORD PARK (AM).json",
       Some ("021 GUILFORD PARK.pdf",
             [ ("123 Main St", Some (3912345 # 100000)%Q, Some (-7654321 # 100000)%Q) ]),
       None);
      ("GUILFORD PARK (AM)", None, Some 2%nat) ].
Proof. repeat split; by vm_compute. Qed.

(** ** The text normalisers applied twice *)

Lemma filter_all {A} (P : A → Prop) `{!∀ x, Decision (P x)} (l : list A) :
  Forall P l → filter P l = l.
Proof.
  induction 1 as [|x r Hx Hr IH]; [done|].
  rewrite filter_cons_True by done. by rewrite IH.
Qed.

Lemma filter_digits (l : list ascii) : all_digits (filter (fun c => is_digit c = true) l).
Proof. apply Forall_forall. intros c Hc. by apply list_elem_of_filter in Hc as [Hc _]. Qed.

Lemma length_chars (s : string) : length (chars s) = String.length s.
Proof. induction s as [|c s IH]; simpl; [done|]. f_equal. exact IH. Qed.

Lemma falsy_chars (s : string) : falsy s = true ↔ chars s = [].
Proof. destruct s; simpl; split; done. Qed.

(** The bus number is empty when the text has no digit, and else its
    digits, in order, after as many zeros as bring them to three. *)
Lemma normalizeBus_chars (v : string) :
  let d := filter (fun c => is_digit c = true) (chars v) in
  chars (normalizeBusV4_ v) = match d with [] => [] | _ => replicate (3 - length d) "0"%char ++ d end.
Proof.
  intros d. unfold normalizeBusV4_, digits_only. fold d.
  destruct d as [|a [|b [|c r]]]; reflexivity || (simpl; by rewrite ?chars_str).
Qed.

Lemma normalizeBus_digits (v : string) : all_digits (chars (normalizeBusV4_ v)).
Proof.
  rewrite normalizeBus_chars.
  pose proof (filter_digits (chars v)) as Hd.
  destruct (filter _ _) as [|a r] eqn:E; [constructor|].
  apply Forall_app_2; [|done]. apply Forall_replicate. reflexivity.
Qed.

Lemma chars_inj (a b : string) : chars a = chars b → a = b.
Proof. intros H. by rewrite <- (str_chars a), <- (str_chars b), H. Qed.

Lemma normalizeBus_twice (v : string) :
  normalizeBusV4_ (normalizeBusV4_ v) = normalizeBusV4_ v.
Proof.
  apply chars_inj. rewrite (normalizeBus_chars (normalizeBusV4_ v)).
  rewrite (filter_all _ _ (normalizeBus_digits v)).
  rewrite normalizeBus_chars.
  by destruct (filter _ (chars v)) as [|a [|b [|c r]]].
Qed.

(** X1.  Normalising a bus number twice gives what normalising it once
    gives: [normalizeBusV4_] leaves its own results alone.  A hint that was
    normalised when the queue was built is therefore not changed by the
    second normalisation in [cleanRouteV4_] or [parseRegEdDocV4_]. *)
Theorem normalizeBus_idempotent :
  ∀ (v : string),
  normalizeBusV4_ (normalizeBusV4_ v) = normalizeBusV4_ v.
Proof. exact normalizeBus_twice. Qed.

Lemma dropWhile_id (p : ascii → bool) (l : list ascii) :
  (∀ c, head l = Some c → p c = false) → dropWhile p l = l.
Proof. destruct l as [|c r]; simpl; [done|]. intros H. by rewrite (H c). Qed.

Lemma collapse_flag (b : bool) (l : list ascii) :
  (∀ c, head l = Some c → is_space c = false) → collapse_ws b l = collapse_ws false l.
Proof. destruct l as [|c r]; simpl; [done|]. intros H. by rewrite (H c). Qed.

Lemma spaced_collapse (l : list ascii) : spaced l → collapse_ws false l = l.
Proof.
  induction l as [|c r IH]; simpl; [done|]. intros [Hc Hr].
  destruct (is_space c) eqn:Hs.
  - destruct (Hc eq_refl) as [-> Hn]. f_equal.
    rewrite collapse_flag; [by apply IH|].
    intros d Hd. destruct r; [done|]. by injection Hd as <-.
  - f_equal. by apply IH.
Qed.

Lemma tidy_trim (l : list ascii) : tidy l → trim_chars l = l.
Proof.
  intros (_ & Hh & Hl). unfold trim_chars.
  rewrite (dropWhile_id is_space l Hh).
  rewrite (dropWhile_id is_space (rev l)); [apply rev_involutive|].
  intros c Hc. apply Hl. by rewrite <- (rev_involutive l), rev_reverse, last_reverse.
Qed.

Lemma normalizeWs_tidy (s : string) : tidy (chars (normalizeWsV4_ s)).
Proof. unfold normalizeWsV4_. rewrite chars_str. apply trim_tidy, collapse_spaced. Qed.

Lemma normalizeWs_fixed (l : list ascii) : tidy l → normalizeWsV4_ (str l) = str l.
Proof.
  intros H. unfold normalizeWsV4_. rewrite chars_str.
  rewrite spaced_collapse by apply H. by rewrite tidy_trim.
Qed.

(** X2.  [normalizeWsV4_] is idempotent, and in what it returns the
    only white space is a single space between two other characters. *)
Theorem normalizeWs_idempotent (s : string) :
  normalizeWsV4_ (normalizeWsV4_ s) = normalizeWsV4_ s ∧
  tidy (chars (normalizeWsV4_ s)).
Proof.
  split; [|apply normalizeWs_tidy].
  rewrite <- (str_chars (normalizeWsV4_ s)). apply normalizeWs_fixed, normalizeWs_tidy.
Qed.

Lemma is_sep_space (c : ascii) : is_space c = true → is_sep c = true.
Proof. unfold is_sep. by intros ->. Qed.

Lemma strip_tail_split (l : list ascii) :
  ∃ rest, l = strip_tail_seps l ++ rest ∧
          (rest = [] ∨ ∃ c r, rest = c :: r ∧ is_space c = true ∧ forallb is_sep r = true).
Proof.
  induction l as [|c r (rest & IH & Hrest)]; simpl.
  - exists []. split; [done|by left].
  - destruct (is_space c && negb (bool_decide (r = [])) && forallb is_sep r) eqn:Hc.
    + exists (c :: r). split; [done|]. right. exists c, r.
      apply andb_prop in Hc as [Hc ?]. apply andb_prop in Hc as [? _]. done.
    + exists rest. split; [simpl; by rewrite <- IH|done].
Qed.

Lemma strip_tail_idempotent (l : list ascii) :
  strip_tail_seps (strip_tail_seps l) = strip_tail_seps l.
Proof.
  induction l as [|c r IH]; simpl; [done|].
  destruct (is_space c && negb (bool_decide (r = [])) && forallb is_sep r) eqn:Hc; [done|].
  simpl. rewrite IH.
  destruct (is_space c && negb (bool_decide (strip_tail_seps r = []))
            && forallb is_sep (strip_tail_seps r)) eqn:Hc'; [|done].
  exfalso. apply andb_prop in Hc' as [Hc' Hall]. apply andb_prop in Hc' as [Hs Hne].
  rewrite Hs in Hc. cbn [andb] in Hc.
  destruct (strip_tail_split r) as (rest & Hr & Hrest).
  assert (forallb is_sep r = true) as Hr'.
  { rewrite Hr, forallb_app, Hall. simpl.
    destruct Hrest as [->|(c' & r' & -> & Hc1 & Hr1)]; [done|].
    simpl. by rewrite (is_sep_space c' Hc1), Hr1. }
  rewrite Hr' in Hc. destruct r; [done|]. done.
Qed.

Lemma spaced_last (l : list ascii) (c x : ascii) (r : list ascii) :
  spaced (l ++ c :: r) → last l = Some x → is_space x = true → is_space c = false.
Proof.
  induction l as [|a l IH]; [done|]. simpl. intros [Ha Hl] Hx Hs.
  destruct l as [|b l].
  - injection Hx as ->. by destruct (Ha Hs) as [_ ?].
  - by apply IH.
Qed.

Lemma last_app_nonempty {A} (l r : list A) : r ≠ [] → last (l ++ r) = last r.
Proof.
  intros Hr. destruct r as [|x r _] using rev_ind; [done|].
  by rewrite app_assoc, !last_snoc.
Qed.

(** What [cleanLocationV4_] returns: tidy, not starting with a separator,
    and with nothing left for the two replacements to take. *)
Lemma cleanLocation_chars (s : string) :
  let t := chars (cleanLocationV4_ s) in
  tidy t ∧ (∀ c, head t = Some c → is_sep c = false) ∧ strip_tail_seps t = t.
Proof.
  intros t. subst t. unfold cleanLocationV4_. rewrite chars_str.
  pose proof (normalizeWs_tidy s) as (Hsp & Hh & Hl).
  set (n := chars (normalizeWsV4_ s)) in *.
  destruct (dropWhile_split is_sep n) as [pre Hpre].
  set (d := dropWhile is_sep n) in *.
  assert (∀ c, head d = Some c → is_sep c = false) as Hdh
    by (intros c; apply dropWhile_head).
  assert (spaced d) as Hds by (rewrite Hpre in Hsp; by apply spaced_suffix in Hsp).
  assert (∀ c, last d = Some c → is_space c = false) as Hdl.
  { intros c Hc. apply Hl. rewrite Hpre. rewrite last_app_nonempty; [done|].
    by destruct d. }
  destruct (strip_tail_split d) as (rest & Hd & Hrest).
  set (t := strip_tail_seps d) in *.
  assert (∀ c, head t = Some c → is_sep c = false) as Hth.
  { intros c Hc. apply Hdh. rewrite Hd. by destruct t. }
  split; [|split; [done|apply strip_tail_idempotent]].
  split; [|split].
  - rewrite Hd in Hds. by apply spaced_prefix in Hds.
  - intros c Hc. specialize (Hth c Hc). unfold is_sep in Hth.
    by destruct (is_space c).
  - intros x Hx. destruct Hrest as [->|(c & r & -> & Hc & _)].
    + apply Hdl. by rewrite Hd, app_nil_r.
    + destruct (is_space x) eqn:Hsx; [|done].
      rewrite Hd in Hds. by rewrite (spaced_last t c x r Hds Hx Hsx) in Hc.
Qed.

Lemma cleanLocation_fixed (t : list ascii) :
  tidy t → (∀ c, head t = Some c → is_sep c = false) → strip_tail_seps t = t →
  cleanLocationV4_ (str t) = str t.
Proof.
  intros Ht Hh Hs. unfold cleanLocationV4_.
  rewrite normalizeWs_fixed by done. rewrite chars_str.
  by rewrite (dropWhile_id is_sep t Hh), Hs.
Qed.

Lemma cleanLocation_twice (s : string) :
  cleanLocationV4_ (cleanLocationV4_ s) = cleanLocationV4_ s.
Proof.
  destruct (cleanLocation_chars s) as (Ht & Hh & Hs).
  rewrite <- (str_chars (cleanLocationV4_ s)). by apply cleanLocation_fixed.
Qed.

(** X3.  [cleanLocationV4_] is idempotent: a cleaned location is cleaned
    to itself. *)
Theorem cleanLocation_idempotent :
  ∀ (s : string),
  cleanLocationV4_ (cleanLocationV4_ s) = cleanLocationV4_ s.
Proof. exact cleanLocation_twice. Qed.

(** ** Times: normalising and parsing *)

Lemma upper_digit (c : ascii) : is_digit (upper_char c) = is_digit c.
Proof. destruct c as [[] [] [] [] [] [] [] []]; reflexivity. Qed.

Lemma upper_space (c : ascii) : is_space (upper_char c) = is_space c.
Proof. destruct c as [[] [] [] [] [] [] [] []]; reflexivity. Qed.

Lemma upper_colon (c : ascii) : (code (upper_char c) =? 58)%N = (code c =? 58)%N.
Proof. destruct c as [[] [] [] [] [] [] [] []]; reflexivity. Qed.

Lemma upper_upper (c : ascii) : upper_char (upper_char c) = upper_char c.
Proof. destruct c as [[] [] [] [] [] [] [] []]; reflexivity. Qed.

Lemma digit_upper (c : ascii) : is_digit c = true → upper_char c = c.
Proof. destruct c as [[] [] [] [] [] [] [] []]; (reflexivity || discriminate). Qed.

Lemma digit_not_space (c : ascii) : is_digit c = true → is_space c = false.
Proof. destruct c as [[] [] [] [] [] [] [] []]; (reflexivity || discriminate). Qed.

Lemma digit_not_colon (c : ascii) : is_digit c = true → (code c =? 58)%N = false.
Proof. destruct c as [[] [] [] [] [] [] [] []]; (reflexivity || discriminate). Qed.

Lemma colon_char (c : ascii) : (code c =? 58)%N = true → c = ":"%char.
Proof. destruct c as [[] [] [] [] [] [] [] []]; (reflexivity || discriminate). Qed.

Lemma space_upper (c : ascii) : is_space c = true → upper_char c = c.
Proof. destruct c as [[] [] [] [] [] [] [] []]; (reflexivity || discriminate). Qed.

Lemma collapse_cons (b : bool) (c : ascii) (r : list ascii) :
  is_space c = false → collapse_ws b (c :: r) = c :: collapse_ws false r.
Proof. intros H. simpl. by rewrite H. Qed.

(** Leading white space: dropping it before or after the collapse. *)
Lemma dropWhile_collapse (b : bool) (l : list ascii) :
  dropWhile is_space (collapse_ws b l) = collapse_ws false (dropWhile is_space l).
Proof.
  revert b. induction l as [|c r IH]; intros b; [done|].
  cbn [collapse_ws dropWhile]. destruct (is_space c) eqn:Hc.
  - destruct b; [apply IH|]. cbn [dropWhile]. apply IH.
  - cbn [dropWhile collapse_ws]. by rewrite Hc.
Qed.

Lemma dropWhile_upper (l : list ascii) :
  dropWhile is_space (map upper_char l) = map upper_char (dropWhile is_space l).
Proof.
  induction l as [|c r IH]; [done|]. cbn [map dropWhile].
  rewrite upper_space. by destruct (is_space c).
Qed.

Lemma collapse_no_space (b : bool) (l : list ascii) : no_space l → collapse_ws b l = l.
Proof.
  intros H. revert b. induction H as [|c r Hc Hr IH]; intros b; [done|].
  rewrite collapse_cons by done. by rewrite IH.
Qed.

Lemma no_space_collapse (l : list ascii) : no_space (collapse_ws false l) → no_space l.
Proof.
  induction l as [|c r IH]; [done|]. simpl.
  destruct (is_space c) eqn:Hc.
  - intros H. by inversion H.
  - intros H. inversion H; subst. constructor; [done|]. by apply IH.
Qed.

Lemma no_space_upper (l : list ascii) : no_space (map upper_char l) ↔ no_space l.
Proof.
  unfold no_space. rewrite Forall_map. apply Forall_iff. intros c. simpl.
  by rewrite upper_space.
Qed.

Lemma collapse_nonempty (b : bool) (c : ascii) (r : list ascii) :
  is_space c = false → collapse_ws b (c :: r) ≠ [].
Proof. intros H. by rewrite collapse_cons. Qed.

(** The pattern reads the same groups off a text and off its upper-case,
    white-space-collapsed form. *)

Lemma squeeze_cons (c : ascii) (r : list ascii) :
  is_space c = false → squeeze (c :: r) = upper_char c :: squeeze r.
Proof. intros H. unfold squeeze. by rewrite collapse_cons. Qed.

Lemma squeeze_head_digit (l : list ascii) :
  match squeeze l, l with
  | a' :: _, a :: _ => is_digit a' = is_digit a
  | [], [] => True
  | _, _ => False
  end.
Proof.
  destruct l as [|a r]; [done|]. unfold squeeze. simpl.
  destruct (is_space a) eqn:Ha; simpl.
  - destruct a as [[] [] [] [] [] [] [] []]; (reflexivity || discriminate).
  - apply upper_digit.
Qed.

Lemma take_hour_squeeze (l : list ascii) :
  take_hour (squeeze l)
  = match take_hour l with Some (h, r) => Some (h, squeeze r) | None => None end.
Proof.
  destruct l as [|a [|b r]]; [done| |].
  - unfold squeeze. simpl. destruct (is_digit a) eqn:Ha.
    + rewrite (digit_not_space a Ha). simpl. by rewrite upper_digit, Ha, (digit_upper a Ha).
    + destruct (is_space a); simpl; [done|]. by rewrite upper_digit, Ha.
  - cbn [take_hour]. destruct (is_digit a) eqn:Ha.
    + rewrite squeeze_cons by (by apply digit_not_space).
      rewrite (digit_upper a Ha).
      destruct (is_digit b) eqn:Hb.
      * rewrite squeeze_cons by (by apply digit_not_space).
        rewrite (digit_upper b Hb). cbn [take_hour]. by rewrite Ha, Hb.
      * pose proof (squeeze_head_digit (b :: r)) as H.
        destruct (squeeze (b :: r)) as [|b' r'] eqn:E; [done|].
        cbn [take_hour]. by rewrite Ha, H, Hb.
    + pose proof (squeeze_head_digit (a :: b :: r)) as H.
      destruct (squeeze (a :: b :: r)) as [|a' [|b' r']] eqn:E; [done| |];
        cbn [take_hour]; by rewrite H, Ha.
Qed.

Lemma take_minutes_none (l : list ascii) :
  (∀ c a b r, l = c :: a :: b :: r → (code c =? 58)%N && is_digit a && is_digit b = false) →
  take_minutes l = (None, l).
Proof.
  intros H. destruct l as [|c [|a [|b r]]]; try reflexivity.
  cbn [take_minutes]. by rewrite (H c a b r eq_refl).
Qed.

Lemma take_minutes_squeeze (l : list ascii) :
  take_minutes (squeeze l) = let '(mm, r) := take_minutes l in (mm, squeeze r).
Proof.
  destruct l as [|c [|a [|b r]]].
  - reflexivity.
  - unfold squeeze. simpl. by destruct (is_space c).
  - unfold squeeze. simpl. by destruct (is_space c), (is_space a).
  - cbn [take_minutes].
    destruct ((code c =? 58)%N && is_digit a && is_digit b) eqn:Hc.
    + apply andb_prop in Hc as [Hc Hb]. apply andb_prop in Hc as [Hc Ha].
      apply colon_char in Hc as ->.
      rewrite squeeze_cons by done.
      rewrite squeeze_cons by (by apply digit_not_space).
      rewrite squeeze_cons by (by apply digit_not_space).
      rewrite (digit_upper a Ha), (digit_upper b Hb).
      cbn [take_minutes upper_char]. simpl. by rewrite Ha, Hb.
    + apply take_minutes_none. intros c' a' b' r' E.
      destruct ((code c =? 58)%N) eqn:H1.
      2:{ pose proof (squeeze_head_digit (c :: a :: b :: r)) as _.
          unfold squeeze in E. simpl in E. destruct (is_space c) eqn:Hs.
          - simpl in E. by injection E as <- _.
          - simpl in E. injection E as <- _. by rewrite upper_colon, H1. }
      apply colon_char in H1 as ->. rewrite squeeze_cons in E by done.
      injection E as <- E. cbn [andb] in Hc.
      destruct (is_digit a) eqn:Ha.
      2:{ pose proof (squeeze_head_digit (a :: b :: r)) as H. rewrite E in H.
          rewrite H, Ha. by rewrite andb_false_r. }
      rewrite squeeze_cons in E by (by apply digit_not_space).
      injection E as <- E. cbn [andb] in Hc.
      pose proof (squeeze_head_digit (b :: r)) as H. rewrite E in H.
      rewrite H, Hc. by rewrite andb_false_r.
Qed.

Lemma map_upper_fixed (l : list ascii) :
  map upper_char (map upper_char l) = map upper_char l.
Proof. rewrite map_map. apply map_ext. intros c. apply upper_upper. Qed.

Lemma is_ampm_no_space (ci : bool) (l : list ascii) : is_ampm ci l = true → no_space l.
Proof.
  unfold is_ampm. intros H. apply orb_prop in H.
  assert (no_space (if ci then map upper_char l else l)) as Hn.
  { destruct H as [H|H]; apply bool_decide_eq_true in H; rewrite H;
      repeat constructor. }
  destruct ci; [by apply no_space_upper|done].
Qed.

Lemma is_ampm_squeeze (l : list ascii) :
  is_ampm false (squeeze l) = is_ampm true l ∧
  (is_ampm true l = true → squeeze l = map upper_char l).
Proof.
  assert (is_ampm true l = true → squeeze l = map upper_char l) as H1.
  { intros H. unfold squeeze. by rewrite (collapse_no_space _ _ (is_ampm_no_space _ _ H)). }
  split; [|done].
  destruct (is_ampm true l) eqn:E.
  - rewrite (H1 eq_refl). exact E.
  - destruct (is_ampm false (squeeze l)) eqn:E'; [|done].
    pose proof (is_ampm_no_space _ _ E') as Hn. unfold squeeze in Hn.
    apply no_space_upper, no_space_collapse in Hn.
    unfold squeeze in E'. rewrite (collapse_no_space _ _ Hn) in E'.
    unfold is_ampm in E, E'. by rewrite E' in E.
Qed.

Lemma match_time_squeeze (l : list ascii) :
  match_time false (squeeze l) = upper_match <$> match_time true l.
Proof.
  unfold match_time. rewrite take_hour_squeeze.
  destruct (take_hour l) as [[h r1]|]; [|done].
  rewrite take_minutes_squeeze. destruct (take_minutes r1) as [mm r2].
  unfold squeeze at 1. rewrite dropWhile_upper, dropWhile_collapse. fold (squeeze (dropWhile is_space r2)).
  pose proof (dropWhile_head is_space r2) as Hh.
  destruct (dropWhile is_space r2) as [|c r3]; [done|].
  specialize (Hh c eq_refl).
  destruct (is_ampm_squeeze (c :: r3)) as [H1 H2].
  rewrite squeeze_cons in * by done. rewrite H1.
  destruct (is_ampm true (c :: r3)); [|done].
  by rewrite (H2 eq_refl).
Qed.

Lemma dropWhile_split_all (p : ascii → bool) (l : list ascii) :
  ∃ pre, l = pre ++ dropWhile p l ∧ Forall (fun c => p c = true) pre.
Proof.
  induction l as [|c r (pre & IH & Hpre)]; simpl; [by exists []|].
  destruct (p c) eqn:Hc; [|by exists []].
  exists (c :: pre). split; [simpl; by rewrite <- IH|by constructor].
Qed.

Lemma dropWhile_app_all (p : ascii → bool) (pre l : list ascii) :
  Forall (fun c => p c = true) pre → dropWhile p (pre ++ l) = dropWhile p l.
Proof. induction 1 as [|c r Hc Hr IH]; simpl; [done|]. by rewrite Hc. Qed.

(** White space at the end: what is cut, and that nothing else is. *)
Lemma rtrim_split (l : list ascii) :
  ∃ sps, l = rev (dropWhile is_space (rev l)) ++ sps ∧
         Forall (fun c => is_space c = true) sps ∧
         (∀ c, last (rev (dropWhile is_space (rev l))) = Some c → is_space c = false).
Proof.
  destruct (dropWhile_split_all is_space (rev l)) as (pre & Hl & Hpre).
  exists (rev pre). split; [|split].
  - rewrite <- rev_app_distr, <- Hl. by rewrite rev_involutive.
  - by apply Forall_rev.
  - intros c Hc. rewrite rev_reverse, last_reverse in Hc.
    by apply dropWhile_head in Hc.
Qed.

Lemma rtrim_unique (a sps : list ascii) :
  Forall (fun c => is_space c = true) sps →
  (∀ c, last a = Some c → is_space c = false) →
  rev (dropWhile is_space (rev (a ++ sps))) = a.
Proof.
  intros Hs Ha. rewrite rev_app_distr.
  rewrite dropWhile_app_all by (by apply Forall_rev).
  rewrite dropWhile_id; [apply rev_involutive|].
  intros c Hc. apply Ha. by rewrite <- (rev_involutive a), rev_reverse, last_reverse.
Qed.

Lemma collapse_spaces (l : list ascii) :
  Forall (fun c => is_space c = true) l →
  collapse_ws true l = [] ∧
  collapse_ws false l = match l with [] => [] | _ => [" "%char] end.
Proof.
  induction 1 as [|c r Hc Hr [IH1 IH2]]; [done|]. simpl. by rewrite Hc, IH1.
Qed.

Lemma collapse_app_spaces (b : bool) (p : list ascii) (x : ascii) (sps : list ascii) :
  is_space x = false → Forall (fun c => is_space c = true) sps →
  collapse_ws b (p ++ x :: sps)
  = collapse_ws b (p ++ [x]) ++ match sps with [] => [] | _ => [" "%char] end.
Proof.
  intros Hx Hs. revert b. induction p as [|c p IH]; intros b.
  - simpl. rewrite Hx. simpl. by rewrite (proj2 (collapse_spaces sps Hs)).
  - simpl. destruct (is_space c); [destruct b|]; simpl; by rewrite IH.
Qed.

Lemma collapse_last (b : bool) (p : list ascii) (x : ascii) :
  is_space x = false → ∃ st, collapse_ws b (p ++ [x]) = st ++ [x].
Proof.
  intros Hx. revert b. induction p as [|c p IH]; intros b.
  - exists []. simpl. by rewrite Hx.
  - simpl. destruct (is_space c); [destruct b|].
    + apply IH.
    + destruct (IH true) as [st ->]. by exists (" "%char :: st).
    + destruct (IH false) as [st ->]. by exists (c :: st).
Qed.

(** Trimming commutes with the collapse of white space. *)
Lemma trim_collapse (l : list ascii) :
  trim_chars (collapse_ws false l) = collapse_ws false (trim_chars l).
Proof.
  unfold trim_chars. rewrite dropWhile_collapse.
  pose proof (dropWhile_head is_space l) as Hh.
  set (y := dropWhile is_space l) in *.
  destruct (rtrim_split y) as (sps & Hy & Hs & Ha).
  set (a := rev (dropWhile is_space (rev y))) in *.
  destruct a as [|x p _] using rev_ind.
  - simpl in Hy. destruct y as [|c y']; [done|].
    specialize (Hh c eq_refl). rewrite <- Hy in Hs. inversion Hs; congruence.
  - rewrite last_snoc in Ha. specialize (Ha x eq_refl).
    rewrite Hy, <- app_assoc. cbn [app].
    rewrite collapse_app_spaces by done.
    destruct (collapse_last false p x Ha) as [st Hst]. rewrite Hst.
    apply rtrim_unique.
    + destruct sps; repeat constructor.
    + intros c. rewrite last_snoc. by intros [= <-].
Qed.

Lemma parseTimeMins_groups (s : string) :
  parseTimeMinsV4_ s = minutes_of <$> match_time true (trim_chars (chars s)).
Proof.
  unfold parseTimeMinsV4_, minutes_of.
  destruct (match_time true _) as [m|]; [|done]. cbn [fmap option_fmap option_map].
  by destruct (_ && _ && _).
Qed.

Lemma take_hour_digits (l h r : list ascii) :
  take_hour l = Some (h, r) →
  (∃ a, h = [a] ∧ is_digit a = true) ∨
  (∃ a b, h = [a; b] ∧ is_digit a = true ∧ is_digit b = true).
Proof.
  destruct l as [|a [|b l]]; [done| |]; cbn [take_hour];
    destruct (is_digit a) eqn:Ha; try done.
  - intros [= <- <-]. left. by exists a.
  - destruct (is_digit b) eqn:Hb; intros [= <- <-].
    + right. by exists a, b.
    + left. by exists a.
Qed.

Lemma take_minutes_digits (l r : list ascii) (mm : option (list ascii)) :
  take_minutes l = (mm, r) →
  mm = None ∨ ∃ a b, mm = Some [a; b] ∧ is_digit a = true ∧ is_digit b = true.
Proof.
  destruct l as [|c [|a [|b l]]]; cbn [take_minutes]; try (intros [= <- <-]; by left).
  destruct (_ && _ && _) eqn:Hc; intros [= <- <-]; [|by left].
  apply andb_prop in Hc as [Hc Hb]. apply andb_prop in Hc as [Hc Ha].
  right. by exists a, b.
Qed.

Lemma match_time_plain (l : list ascii) (m : TimeMatch) :
  match_time false l = Some m → plain_match m.
Proof.
  unfold match_time. destruct (take_hour l) as [[h r1]|] eqn:Hh; [|done].
  destruct (take_minutes r1) as [mm r2] eqn:Hm.
  apply take_hour_digits in Hh. apply take_minutes_digits in Hm.
  destruct (dropWhile is_space r2) as [|c r3].
  - intros [= <-]. split; [done|]. split; [done|]. by left.
  - destruct (is_ampm false (c :: r3)) eqn:Hap; [|done].
    intros [= <-]. split; [done|]. split; [done|]. right.
    unfold is_ampm in Hap. apply orb_prop in Hap as [H|H];
      apply bool_decide_eq_true in H; cbn [m_ap]; rewrite H; auto.
Qed.

Ltac digit_facts :=
  repeat match goal with
         | H : is_digit ?a = true |- _ =>
             lazymatch goal with
             | _ : is_space a = false |- _ => fail
             | _ => pose proof (digit_not_space a H);
                    pose proof (digit_not_colon a H);
                    pose proof (digit_upper a H)
             end
         end.

Ltac crunch :=
  repeat (simpl; match goal with H : _ = _ |- _ => rewrite H end); simpl.

(** The text built from the groups of a match is left alone by [trim],
    by the collapse and by [toUpperCase], and the pattern reads the same
    groups off it, with the minutes now written out. *)
Lemma render_plain (m : TimeMatch) :
  plain_match m →
  trim_chars (render_time m) = render_time m ∧
  squeeze (render_time m) = render_time m ∧
  ∀ ci, match_time ci (render_time m)
        = Some {| m_hour := m_hour m;
                  m_min := Some (default (chars "00") (m_min m));
                  m_ap := m_ap m |}.
Proof.
  destruct m as [h mm ap]. unfold plain_match. cbn [m_hour m_min m_ap].
  intros (Hh & Hm & Ha).
  destruct Hh as [(a & -> & Ha1)|(a & b & -> & Ha1 & Hb1)];
    destruct Hm as [->|(c & d & -> & Hc1 & Hd1)];
    destruct Ha as [->|[->| ->]];
    digit_facts; unfold render_time, trim_chars, squeeze;
    (split; [|split; [|intros [|]; unfold match_time]]); crunch; reflexivity.
Qed.

Lemma tidy_upper (l : list ascii) : tidy l → tidy (map upper_char l).
Proof.
  intros (Hs & Hh & Hl). split; [|split].
  - clear Hh Hl. induction l as [|c r IH]; [done|]. destruct Hs as [Hc Hr].
    split; [|by apply IH]. rewrite upper_space. intros Hsp.
    destruct (Hc Hsp) as [-> Hn]. split; [done|].
    destruct r; [done|]. simpl. by rewrite upper_space.
  - intros c Hc. destruct l as [|a r]; [done|]. injection Hc as <-.
    rewrite upper_space. by apply Hh.
  - intros c. change (map upper_char l) with (upper_char <$> l). rewrite fmap_last.
    destruct (last l) as [x|]; [|done].
    intros [= <-]. rewrite upper_space. by apply Hl.
Qed.

(** The text [normalizeTimeV4_] matches against. *)
Lemma upper_normalizeWs (t : string) :
  chars (toUpperCase (normalizeWsV4_ t)) = squeeze (trim_chars (chars t)) ∧
  tidy (chars (toUpperCase (normalizeWsV4_ t))).
Proof.
  unfold toUpperCase. rewrite chars_str. split.
  - unfold normalizeWsV4_. rewrite chars_str. by rewrite trim_collapse.
  - apply tidy_upper, normalizeWs_tidy.
Qed.

Lemma squeeze_squeeze (l : list ascii) :
  squeeze (squeeze l) = squeeze l.
Proof.
  unfold squeeze at 1. rewrite spaced_collapse.
  - unfold squeeze. apply map_upper_fixed.
  - clear. unfold squeeze. generalize false.
    induction l as [|c r IH]; intros b; [done|]. simpl.
    destruct (is_space c) eqn:Hc.
    + destruct b; [apply IH|]. simpl. split; [|apply IH].
      intros _. split; [done|].
      pose proof (collapse_head r) as H. destruct (collapse_ws true r); [done|].
      simpl. by rewrite upper_space.
    + simpl. split; [|apply IH]. rewrite upper_space. congruence.
Qed.

(** The two outcomes of [normalizeTimeV4_] on a text, by what the time
    pattern makes of the text. *)
Lemma normalizeTime_cases (t : string) :
  match match_time true (trim_chars (chars t)) with
  | None =>
      chars (normalizeTimeV4_ t) = squeeze (trim_chars (chars t)) ∧
      match_time false (squeeze (trim_chars (chars t))) = None
  | Some m =>
      chars (normalizeTimeV4_ t) = render_time (upper_match m) ∧
      plain_match (upper_match m)
  end.
Proof.
  destruct (upper_normalizeWs t) as [Hu _].
  pose proof (match_time_squeeze (trim_chars (chars t))) as Hm.
  unfold normalizeTimeV4_. rewrite Hu, Hm.
  destruct (match_time true (trim_chars (chars t))) as [m|];
    cbn [fmap option_fmap option_map] in *.
  - assert (plain_match (upper_match m)) as Hp by (by eapply match_time_plain).
    split; [|done].
    destruct (falsy _) eqn:Hf.
    { apply falsy_chars in Hf. rewrite Hu in Hf. by rewrite Hf in Hm. }
    unfold trim. rewrite chars_str.
    replace (chars _) with (render_time (upper_match m)).
    + apply (render_plain _ Hp).
    + unfold render_time. rewrite !chars_app, !chars_str.
      destruct (m_ap (upper_match m)); [by rewrite chars_app, chars_str|done].
  - split; [|done]. destruct (falsy _) eqn:Hf.
    + apply falsy_chars in Hf. rewrite Hu in Hf. by rewrite Hf.
    + done.
Qed.

Lemma normalizeTime_minutes (t : string) :
  parseTimeMinsV4_ (normalizeTimeV4_ t) = parseTimeMinsV4_ t.
Proof.
  rewrite !parseTimeMins_groups.
  pose proof (normalizeTime_cases t) as H.
  destruct (match_time true (trim_chars (chars t))) as [m|].
  - destruct H as [-> Hp]. destruct (render_plain _ Hp) as (-> & _ & ->).
    cbn [fmap option_fmap option_map]. f_equal.
    unfold minutes_of, upper_match. cbn [m_hour m_min m_ap].
    destruct m as [h [mm|] [ap|]]; cbn [m_hour m_min m_ap default from_option id fmap option_fmap option_map];
      rewrite ?map_upper_fixed; reflexivity.
  - destruct H as [-> Hn].
    pose proof (match_time_squeeze (squeeze (trim_chars (chars t)))) as Hs.
    rewrite squeeze_squeeze, Hn in Hs.
    destruct (upper_normalizeWs t) as [Hu Ht]. rewrite Hu in Ht.
    rewrite (tidy_trim _ Ht).
    by destruct (match_time true (squeeze (trim_chars (chars t)))).
Qed.

(** X4.  Normalising a time text does not change how [parseTimeMinsV4_]
    reads it: what [normalizeTimeV4_] returns parses to the same minutes past
    midnight as the original text, and does not parse when the original
    does not. *)
Theorem normalizeTime_keeps_minutes :
  ∀ (t : string),
  parseTimeMinsV4_ (normalizeTimeV4_ t) = parseTimeMinsV4_ t.
Proof. exact normalizeTime_minutes. Qed.

Lemma normalizeTime_twice (t : string) :
  normalizeTimeV4_ (normalizeTimeV4_ t) = normalizeTimeV4_ t.
Proof.
  apply chars_inj.
  pose proof (normalizeTime_cases t) as H.
  pose proof (normalizeTime_cases (normalizeTimeV4_ t)) as H'.
  destruct (match_time true (trim_chars (chars t))) as [m|].
  - destruct H as [Hc Hp]. rewrite Hc in *.
    destruct (render_plain _ Hp) as (Ht & _ & Hm). rewrite Ht, Hm in H'.
    destruct H' as [-> _]. unfold render_time, upper_match. cbn [m_hour m_min m_ap].
    destruct m as [h [mm|] [ap|]]; cbn [m_hour m_min m_ap default from_option id fmap option_fmap option_map];
      rewrite ?map_upper_fixed; reflexivity.
  - destruct H as [Hc Hn]. rewrite Hc in *.
    destruct (upper_normalizeWs t) as [Hu Ht]. rewrite Hu in Ht.
    rewrite (tidy_trim _ Ht) in H'.
    pose proof (match_time_squeeze (squeeze (trim_chars (chars t)))) as Hs.
    rewrite squeeze_squeeze, Hn in Hs.
    destruct (match_time true (squeeze (trim_chars (chars t)))); [done|].
    destruct H' as [-> _]. apply squeeze_squeeze.
Qed.

(** X5.  [normalizeTimeV4_] is idempotent: a normalised time, and also a
    text the time pattern does not match, is returned as it is. *)
Theorem normalizeTime_idempotent :
  ∀ (t : string),
  normalizeTimeV4_ (normalizeTimeV4_ t) = normalizeTimeV4_ t.
Proof. exact normalizeTime_twice. Qed.

(** ** The batch as a whole *)

(** The loop body catches what an item throws. *)
Lemma processItem_returns (sv : Services) (item : WorkItem) (w : World) :
  (processItem sv item w).1 = Ok tt.
Proof.
  unfold processItem. destruct (_ || _); [done|].
  unfold mbind at 1, M_bind at 1, getState at 1.
  destruct (String.eqb _ _); [done|].
  unfold try_catch.
  match goal with |- context [match ?x with _ => _ end] => by destruct x as [[[]|e] w'] end.
Qed.

Lemma turn_run (sv : Services) (item : WorkItem) (w : World) :
  (processItem sv item ;; advance) w
  = (Ok tt, (advance (processItem sv item w).2).2).
Proof.
  pose proof (processItem_returns sv item w) as H. unfold mbind, M_bind.
  destruct (processItem sv item w) as [[[]|e] w']; [done|done].
Qed.

Lemma forEach_turns (sv : Services) (items : list WorkItem) (w : World) :
  let run := forEach (fun item => processItem sv item ;; advance) items w in
  run.1 = Ok tt ∧
  queue (w_state run.2) = queue (w_state w) ∧
  pos (w_state run.2) = (pos (w_state w) + length items)%nat.
Proof.
  revert w. induction items as [|item r IH]; intros w.
  - simpl. split; [done|]. split; [done|lia].
  - cbn [forEach]. cbv zeta.
    rewrite (bind_ok _ _ w _ tt (turn_run sv item w)).
    specialize (IH (advance (processItem sv item w).2).2). cbv zeta in IH.
    destruct IH as (H1 & H2 & H3). split; [done|].
    destruct (processItem_same_cursor sv item w) as [Hq Hp].
    cbn [length]. split; [rewrite H2|rewrite H3]; simpl; [done|]. rewrite Hp. lia.
Qed.

Lemma runBatch_cursor (sv : Services) (w : World) :
  let run := runBatch sv w in
  let stop := Nat.min (pos (w_state w) + BATCH_SIZE_V4) (length (queue (w_state w))) in
  run.1 = Ok tt ∧
  queue (w_state run.2) = queue (w_state w) ∧
  pos (w_state run.2) = Nat.max (pos (w_state w)) stop.
Proof.
  cbv zeta. rewrite runBatch_items.
  destruct (forEach_turns sv (batchItems (w_state w)) w) as (H1 & H2 & H3).
  split; [done|]. split; [done|]. rewrite H3. unfold batchItems.
  rewrite length_take, length_drop. lia.
Qed.

(** X6.  The batch of a run never throws, whatever the services answer:
    it returns, leaves the queue as it is, and leaves the cursor at
    [min(pos + BATCH_SIZE_V4, queue.length)], or where it was when it was
    already past that. *)
Theorem runBatch_completes :
  ∀ (sv : Services) (w : World),
  let run := runBatch sv w in
  let stop := Nat.min (pos (w_state w) + BATCH_SIZE_V4) (length (queue (w_state w))) in
  run.1 = Ok tt ∧
  queue (w_state run.2) = queue (w_state w) ∧
  pos (w_state run.2) = Nat.max (pos (w_state w)) stop.
Proof. exact runBatch_cursor. Qed.

#[local] Instance same_processed_preorder : PreOrder same_processed.
Proof.
  split.
  - intros w. reflexivity.
  - intros a b c H1 H2. unfold same_processed in *. congruence.
Qed.

Lemma processed_same_state {A} (m : M A) :
  (∀ w, processed (w_state (m w).2) = processed (w_state w)) →
  stable (fun _ => True) same_processed m.
Proof. intros H w _. split; [done|]. apply H. Qed.

Lemma processed_bind {A B} (m : M A) (f : A → M B) :
  stable (fun _ => True) same_processed m →
  (∀ a, stable (fun _ => True) same_processed (f a)) →
  stable (fun _ => True) same_processed (m ≫= f).
Proof. apply (stable_bind _ same_processed). Qed.

Lemma processed_geocodeStop (sv : Services) (stop : Stop) :
  stable (fun _ => True) same_processed (geocodeStop sv stop).
Proof.
  unfold geocodeStop. apply processed_bind; [by apply processed_same_state|].
  intros st. destruct (_ ≫= _) as [[la ln]|]; [by apply processed_same_state|].
  apply processed_bind.
  - apply (stable_withRetry _ same_processed sv).
    + intros e _. by apply processed_same_state.
    + by apply processed_same_state.
  - intros res. apply processed_bind.
    + destruct res as [[la ln]|]; by apply processed_same_state.
    + intros s. by apply processed_same_state.
Qed.

Lemma processItem_guard (sv : Services) (item : WorkItem) (w : World) :
  fileId item = "" ∨ routeType item = "" → processItem sv item w = (Ok tt, w).
Proof.
  intros H. unfold processItem.
  assert (falsy (fileId item) || falsy (routeType item) = true) as ->; [|done].
  destruct H as [H|H]; apply falsy_true in H; rewrite H; [done|apply orb_true_r].
Qed.

(** The three ways through the loop body. *)
Lemma processItem_cases (sv : Services) (item : WorkItem) (w : World) :
  (fileId item = "" ∨ routeType item = "") ∧ processItem sv item w = (Ok tt, w) ∨
  fileId item ≠ "" ∧ routeType item ≠ "" ∧
  (processItem sv item w
   = (Ok tt, logged ("[SKIP] " +:+ routeType item +:+ " " +:+ fileName item
                     +:+ ": unchanged") w) ∨
   processItem sv item w
   = try_catch (lift (extractRoutes sv item w).1 ≫= fun routes =>
                  publishRoutesV4_ sv routes item ;; markProcessed item)
       (fun err => log ("[ERROR] " +:+ routeType item +:+ " " +:+ fileName item
                        +:+ ": " +:+ err)) (extractRoutes sv item w).2).
Proof.
  destruct (decide (fileId item = "")) as [Hf|Hf].
  { left. split; [by left|]. apply processItem_guard. by left. }
  destruct (decide (routeType item = "")) as [Hr|Hr].
  { left. split; [by right|]. apply processItem_guard. by right. }
  right. split; [done|]. split; [done|].
  destruct (decide (default "" (processed (w_state w) !! fileId item)
                    = stamp_compared (updatedMs item))) as [Heq|Hne].
  - left. by apply processItem_skip.
  - right. rewrite processItem_run by done. apply try_catch_bind_split.
Qed.

(** Extraction and publishing leave the table alone; only the
    assignment after them writes to it. *)
Lemma processItem_processed (sv : Services) (item : WorkItem) (w : World) :
  let p' := processed (w_state (processItem sv item w).2) in
  p' = processed (w_state w) ∨
  p' = <[fileId item := stamp_stored (updatedMs item)]> (processed (w_state w)).
Proof.
  cbv zeta.
  destruct (processItem_cases sv item w) as [[_ ->]|(_ & _ & [-> | ->])];
    [by left|by left|].
  destruct (stable_extractRoutes (fun _ => True) same_processed sv
              ltac:(intros e _; by apply processed_same_state) item w I) as [_ He].
  destruct (extractRoutes sv item w) as [[routes|e] w1]; cbn [fst snd] in *.
  2:{ left. exact He. }
  unfold try_catch, lift, mbind, M_bind.
  destruct (stable_publishRoutes (fun _ => True) same_processed sv
              ltac:(intros e _; by apply processed_same_state)
              ltac:(intros line; by apply processed_same_state)
              ltac:(intros d; by apply processed_same_state)
              (processed_geocodeStop sv) routes item w1 I) as [_ Hp].
  destruct (publishRoutesV4_ sv routes item w1) as [[[]|e] w2]; cbn [fst snd] in *.
  - right. unfold markProcessed, mbind, M_bind, getState, setState. simpl.
    unfold same_processed in *. by rewrite Hp, He.
  - left. unfold same_processed in *. simpl. by rewrite Hp, He.
Qed.

Lemma forEach_processed (sv : Services) (items : list WorkItem) (w : World) (k : string) :
  let p' := processed (w_state (forEach (fun item => processItem sv item ;; advance) items w).2) in
  p' !! k = processed (w_state w) !! k ∨
  ∃ item, item ∈ items ∧ fileId item = k ∧ p' !! k = Some (stamp_stored (updatedMs item)).
Proof.
  revert w. induction items as [|item r IH]; intros w; [by left|].
  cbn [forEach]. cbv zeta. rewrite (bind_ok _ _ w _ tt (turn_run sv item w)).
  set (w1 := (advance (processItem sv item w).2).2).
  assert (processed (w_state w1) = processed (w_state (processItem sv item w).2)) as H1
    by reflexivity.
  destruct (IH w1) as [Hsame|(it & Hin & Hk & Hv)].
  - rewrite Hsame, H1.
    destruct (processItem_processed sv item w) as [E|E]; rewrite E; [by left|].
    destruct (decide (fileId item = k)) as [Hk|Hk].
    + right. exists item. split; [left|]. split; [done|].
      by rewrite <- Hk, lookup_insert_eq.
    + left. by rewrite lookup_insert_ne.
  - right. exists it. split; [by right|]. done.
Qed.

(** X7.  A batch writes to [state.processed] only under the file ids of
    its own items: after the batch the entry of a key is what it was, or it
    is the stamp [String(item.updatedMs || 0)] of an item of the batch with
    that file id. *)
Theorem runBatch_processed (sv : Services) (w : World) (k : string) :
  let p' := processed (w_state (runBatch sv w).2) in
  p' !! k = processed (w_state w) !! k ∨
  ∃ item, item ∈ batchItems (w_state w) ∧ fileId item = k ∧
          p' !! k = Some (stamp_stored (updatedMs item)).
Proof. cbv zeta. rewrite runBatch_items. apply forEach_processed. Qed.

(** ** The retry wrapper *)

Lemma retry_step {A} (sv : Services) (fn : M A) (baseMs : Z) (i left : nat)
    (lastErr e : string) (w w1 : World) :
  fn w = (Throw e, w1) →
  withRetry_from sv fn baseMs i (S (S left)) lastErr w
  = withRetry_from sv fn baseMs (S i) (S left) e
      (pushed (EvSleep (baseMs * 2 ^ Z.of_nat i + jitter sv (w_trace w1))) w1).
Proof. intros H. cbn [withRetry_from]. unfold try_catch at 1. by rewrite H. Qed.

Lemma retry_last {A} (sv : Services) (fn : M A) (baseMs : Z) (i : nat)
    (lastErr : string) (w : World) :
  withRetry_from sv fn baseMs i 1 lastErr w = fn w.
Proof.
  cbn [withRetry_from]. unfold try_catch. by destruct (fn w) as [[a|e] w1].
Qed.

(** X8.  Three failed attempts exhaust [withRetryV4_(fn, 3, baseMs)].
    When [fn] throws on the first call, throws again after a pause of
    [baseMs] plus the jitter, and throws once more after a pause of
    [2 * baseMs] plus the jitter, the wrapper throws the third error from
    the world the third call left: there is no fourth call and no pause
    after the last one. *)
Theorem withRetry_exhausted {A} (sv : Services) (fn : M A) (baseMs : Z)
    (w w1 w2 w3 : World) (e1 e2 e3 : string) :
  fn w = (Throw e1, w1) →
  fn (pushed (EvSleep (baseMs + jitter sv (w_trace w1))) w1) = (Throw e2, w2) →
  fn (pushed (EvSleep (2 * baseMs + jitter sv (w_trace w2))) w2) = (Throw e3, w3) →
  withRetryV4_ sv fn 3 baseMs w = (Throw e3, w3).
Proof.
  intros H1 H2 H3. unfold withRetryV4_.
  rewrite (retry_step sv fn baseMs 0 1 _ e1 w w1 H1).
  replace (baseMs * 2 ^ Z.of_nat 0) with baseMs by (simpl; lia).
  rewrite (retry_step sv fn baseMs 1 0 _ e2 _ w2 H2).
  replace (baseMs * 2 ^ Z.of_nat 1) with (2 * baseMs) by (simpl; lia).
  by rewrite retry_last.
Qed.

Lemma withRetry_exhausted_witness :
  (withRetryV4_ noMatchServices (fetchOnce noMatchServices "6:42 AM 9 Oak Ct") 3 1000
     (startWorld emptyState)).1 = Throw "down".
Proof.
  by rewrite (withRetry_exhausted noMatchServices
                (fetchOnce noMatchServices "6:42 AM 9 Oak Ct") 1000
                (startWorld emptyState) _ _ _ "down" "down" "down"
                eq_refl eq_refl eq_refl).
Defined.

(** What a retried call leaves in the trace: [left] calls at most, and
    pauses. *)
Lemma retry_calls {A} (sv : Services) (P : Event → bool) (fn : M A) :
  (∀ ms, P (EvSleep ms) = false) →
  (∀ w, ∃ e, (fn w).2 = pushed e w ∧ P e = true) →
  ∀ (baseMs : Z) (left i : nat) (lastErr : string) (w : World),
    let res := withRetry_from sv fn baseMs i left lastErr w in
    ∃ new, res.2 = {| w_state := w_state w; w_logs := w_logs w;
                      w_trace := new ++ w_trace w; w_drive := w_drive w |} ∧
           (length (filter (fun e => P e = true) new) ≤ left)%nat ∧
           Forall (fun e => P e = true ∨ is_sleep e = true) new.
Proof.
  intros Hsleep Hfn baseMs left. induction left as [|left IH]; intros i lastErr w.
  - exists []. by destruct w.
  - cbn [withRetry_from]. cbv zeta. unfold try_catch.
    destruct (Hfn w) as (e & Hw & He).
    destruct (fn w) as [[a|msg] w1]; cbn [snd] in Hw; subst w1.
    + exists [e]. split; [done|]. split.
      * rewrite filter_cons_True by done. simpl. lia.
      * constructor; [by left|constructor].
    + destruct left as [|left'].
      * exists [e]. split; [done|]. split.
        -- rewrite filter_cons_True by done. simpl. lia.
        -- constructor; [by left|constructor].
      * set (ms := baseMs * 2 ^ Z.of_nat i + jitter sv (w_trace (pushed e w))).
        change ((getTrace ≫= fun tr =>
                   emit (EvSleep (baseMs * 2 ^ Z.of_nat i + jitter sv tr)) ;;
                   withRetry_from sv fn baseMs (S i) (S left') msg) (pushed e w))
          with (withRetry_from sv fn baseMs (S i) (S left') msg
                  (pushed (EvSleep ms) (pushed e w))).
        destruct (IH (S i) msg (pushed (EvSleep ms) (pushed e w))) as (new & Hn & Hc & Hf).
        exists (new ++ [EvSleep ms; e]). split; [|split].
        -- rewrite Hn. simpl. by rewrite <- app_assoc.
        -- rewrite filter_app, length_app.
           rewrite filter_cons_False by (by rewrite Hsleep).
           rewrite filter_cons_True by done. simpl. lia.
        -- apply Forall_app_2; [done|]. constructor; [by right|]. constructor; [by left|constructor].
Qed.

(** X9.  [extractSpecEdRoutesV4_] changes nothing but the trace of
    outside calls, and what it adds to the trace are fetches of the given
    text and pauses, with three fetches at most. *)
Theorem extract_fetch_bound (sv : Services) (text fallbackSchool fallbackBus : string)
    (w : World) :
  let res := extractSpecEdRoutesV4_ sv text fallbackSchool fallbackBus w in
  ∃ new, res.2 = {| w_state := w_state w; w_logs := w_logs w;
                    w_trace := new ++ w_trace w; w_drive := w_drive w |} ∧
         (length (filter (fun e => is_fetch e = true) new) ≤ 3)%nat ∧
         Forall (fun e => e = EvFetch text ∨ is_sleep e = true) new.
Proof.
  cbv zeta. unfold extractSpecEdRoutesV4_.
  assert (∃ new : list Event,
            w = {| w_state := w_state w; w_logs := w_logs w;
                   w_trace := new ++ w_trace w; w_drive := w_drive w |} ∧
            (length (filter (fun e => is_fetch e = true) new) ≤ 3)%nat ∧
            Forall (fun e => e = EvFetch text ∨ is_sleep e = true) new) as Hnone.
  { exists []. split; [by destruct w|]. split; [simpl; lia|constructor]. }
  destruct (falsy text); [exact Hnone|].
  destruct (falsy (apiKey sv)); [exact Hnone|]. clear Hnone.
  set (P := fun e => match e with EvFetch t => String.eqb t text | _ => false end).
  destruct (retry_calls sv P (fetchOnce sv text)
              ltac:(done)
              ltac:(intros w0; exists (EvFetch text); split;
                    [done|apply String.eqb_refl])
              1000 3%nat 0%nat "null" w) as (new & Hn & Hc & Hf).
  exists new.
  assert (Forall (fun e => e = EvFetch text ∨ is_sleep e = true) new) as Hf'.
  { eapply Forall_impl; [exact Hf|]. intros e [He|He]; [left|by right].
    destruct e; try done. by apply String.eqb_eq in He as ->. }
  split; [|split; [|done]].
  - unfold mbind, M_bind. fold (withRetryV4_ sv (fetchOnce sv text) 3 1000 w) in Hn.
    destruct (withRetryV4_ sv (fetchOnce sv text) 3 1000 w) as [[res|e] w1];
      cbn [snd] in Hn; subst w1; [|done].
    destruct (negb _); [done|].
    by destruct (body res) as [| |[| |[|? ?]]].
  - etrans; [|exact Hc]. clear -Hf'.
    induction Hf' as [|e r He Hr IH]; [done|].
    destruct He as [->|He].
    + rewrite (filter_cons_True (fun e => is_fetch e = true)) by done.
      rewrite (filter_cons_True (fun e => P e = true)) by apply String.eqb_refl.
      simpl. lia.
    + by destruct e.
Qed.

(** ** Geocoding a route *)

Lemma mapM_ok {A B} (body : A → M B) (P : A → B → Prop) (l : list A) (l' : list B)
    (w w' : World) :
  (∀ x y w1 w2, body x w1 = (Ok y, w2) → P x y) →
  mapM body l w = (Ok l', w') → Forall2 P l l'.
Proof.
  intros Hb. revert l' w. induction l as [|x r IH]; intros l' w.
  - intros [= <- _]. constructor.
  - cbn [mapM]. unfold mbind at 1, M_bind at 1.
    destruct (body x w) as [[y|e] w1] eqn:Hx; [|done].
    unfold mbind at 1, M_bind at 1.
    destruct (mapM body r w1) as [[ys|e] w2] eqn:Hr; [|done].
    intros [= <- <-]. constructor; [by eapply Hb|by eapply IH].
Qed.

Lemma geocodeStop_resolves (sv : Services) (stop s' : Stop) (w w' : World) :
  geocodeStop sv stop w = (Ok s', w') → resolved stop s'.
Proof.
  unfold geocodeStop, mbind at 1, M_bind at 1, getState at 1.
  destruct (_ ≫= numeric_entry) as [[la ln]|].
  - intros [= <- _]. repeat split; try done. left. by split.
  - unfold mbind at 1, M_bind at 1.
    destruct (withRetryV4_ _ _ _ _ w) as [[[[la ln]|]|e] w1]; [| |done].
    + cbn. intros [= <- _]. repeat split; try done. left. by split.
    + cbn. intros [= <- _]. repeat split; try done. by right.
Qed.

Lemma geocodeStops_outcome (sv : Services) (routes routes' : list RouteDraft)
    (w w' : World) :
  geocodeStopsV4_ sv routes w = (Ok routes', w') →
  Forall2 (fun r r' => busNumber r' = busNumber r ∧ schoolName r' = schoolName r ∧
                       Forall2 resolved (stops r) (stops r')) routes routes'.
Proof.
  unfold geocodeStopsV4_. apply mapM_ok.
  intros r r' w1 w2. unfold mbind, M_bind.
  destruct (mapM (geocodeStop sv) (stops r) w1) as [[ss|e] w3] eqn:Hs; [|done].
  intros [= <- _]. split; [done|]. split; [done|]. cbn [stops with_stops].
  eapply mapM_ok; [|exact Hs]. intros x y w4 w5. apply geocodeStop_resolves.
Qed.

(** X10.  When [geocodeStopsV4_] returns, the routes are the ones it
    was given, in the same order and with the same bus number and school
    name, and every stop is the stop it was, in the same place, with the
    same time, location and students, and with both coordinates or with a
    [geocodeError]. *)
Theorem geocodeStops_resolves :
  ∀ (sv : Services) (routes routes' : list RouteDraft) (w w' : World),
  geocodeStopsV4_ sv routes w = (Ok routes', w') →
  Forall2 (fun r r' => busNumber r' = busNumber r ∧ schoolName r' = schoolName r ∧
                       Forall2 resolved (stops r) (stops r')) routes routes'.
Proof. exact geocodeStops_outcome. Qed.

Lemma geocodeStops_resolves_witness :
  match (geocodeStopsV4_ matchServices [twoStopsOneAddress] (startWorld emptyState)).1 with
  | Ok rs => Forall2 (fun r r' => busNumber r' = busNumber r ∧ schoolName r' = schoolName r ∧
                                  Forall2 resolved (stops r) (stops r'))
               [twoStopsOneAddress] rs
  | Throw _ => False
  end.
Proof.
  destruct (geocodeStopsV4_ matchServices [twoStopsOneAddress] (startWorld emptyState))
    as [[rs|e] w'] eqn:H.
  - exact (geocodeStops_resolves _ _ _ _ _ H).
  - vm_compute in H. discriminate H.
Defined.

Lemma mapM_pure {A B} (body : A → M B) (f : A → B) (l : list A) (w : World) :
  Forall (fun x => body x w = (Ok (f x), w)) l → mapM body l w = (Ok (map f l), w).
Proof.
  induction 1 as [|x r Hx Hr IH]; [done|]. cbn [mapM map].
  rewrite (bind_ok _ _ w w (f x) Hx). by rewrite (bind_ok _ _ w w (map f r) IH).
Qed.

(** X11.  When the cache holds numeric coordinates for every stop of
    the routes, [geocodeStopsV4_] returns the stops with those coordinates
    and leaves the world as it is: no geocoder call, no pause, no write to
    the cache. *)
Theorem geocodeStops_all_cached (sv : Services) (routes : list RouteDraft) (w : World) :
  let c := geocodeCache (w_state w) in
  Forall (fun r => Forall (fun s => is_Some (cachedCoords c s)) (stops r)) routes →
  geocodeStopsV4_ sv routes w
  = (Ok (map (fun r => with_stops r (map (withCachedCoords c) (stops r))) routes), w).
Proof.
  intros c Hall. unfold geocodeStopsV4_. apply mapM_pure.
  eapply Forall_impl; [exact Hall|]. intros r Hr. cbv beta.
  erewrite bind_ok; [reflexivity|]. apply mapM_pure.
  eapply Forall_impl; [exact Hr|]. intros s [[la ln] Hs]. cbv beta.
  unfold withCachedCoords. rewrite Hs.
  unfold cachedCoords in Hs. subst c.
  destruct (geocodeCache (w_state w) !! toLowerCase (location s +:+ COUNTY_SUFFIX_V4))
    as [e|] eqn:He; [|done].
  by apply (geocodeStop_hit sv s w e la ln).
Qed.

Lemma geocodeStops_all_cached_witness :
  let w := startWorld {| queue := []; pos := 0; processed := ∅;
                         geocodeCache := {[ "9 oak ct, howard county, maryland" :=
                                            {| lat := JNum (3912345 # 100000)%Q;
                                               lng := JNum (-7654321 # 100000)%Q |} ]} |} in
  (geocodeStopsV4_ noMatchServices [twoStopsOneAddress] w).2 = w.
Proof.
  intros w.
  rewrite (geocodeStops_all_cached noMatchServices [twoStopsOneAddress] w); [done|].
  constructor; [|constructor].
  constructor; [|constructor; [|constructor]]; eexists; vm_compute; reflexivity.
Defined.

(** ** The log of a batch *)

#[local] Instance same_logs_preorder : PreOrder same_logs.
Proof.
  split.
  - intros w. reflexivity.
  - intros a b c H1 H2. unfold same_logs in *. congruence.
Qed.

#[local] Instance logs_grow_preorder : PreOrder logs_grow.
Proof.
  split.
  - intros w. unfold logs_grow. reflexivity.
  - intros a b c H1 H2. unfold logs_grow in *. by etrans.
Qed.

#[local] Instance logs_tagged_preorder : PreOrder logs_tagged.
Proof.
  split.
  - intros w. exists []. by rewrite app_nil_r.
  - intros a b c (n1 & H1 & F1) (n2 & H2 & F2). exists (n1 ++ n2).
    split; [by rewrite H2, H1, app_assoc|by apply Forall_app].
Qed.

(** The calls that write no line. *)
Lemma unlogged_same {A} (m : M A) :
  (∀ w, w_logs (m w).2 = w_logs w) → stable (fun _ => True) same_logs m.
Proof. intros H w _. split; [done|apply H]. Qed.

Lemma unlogged_geocodeStop (sv : Services) (stop : Stop) :
  stable (fun _ => True) same_logs (geocodeStop sv stop).
Proof.
  unfold geocodeStop. apply (stable_bind _ same_logs); [by apply unlogged_same|].
  intros st. destruct (_ ≫= _) as [[la ln]|]; [by apply unlogged_same|].
  apply (stable_bind _ same_logs).
  - apply (stable_withRetry _ same_logs sv).
    + intros e _. by apply unlogged_same.
    + by apply unlogged_same.
  - intros res. apply (stable_bind _ same_logs).
    + destruct res as [[la ln]|]; by apply unlogged_same.
    + intros s. by apply unlogged_same.
Qed.

Lemma unlogged_geocodeStops (sv : Services) (routes : list RouteDraft) :
  stable (fun _ => True) same_logs (geocodeStopsV4_ sv routes).
Proof. apply (stable_geocodeStops _ same_logs sv), unlogged_geocodeStop. Qed.

Lemma unlogged_extractRoutes (sv : Services) (item : WorkItem) :
  stable (fun _ => True) same_logs (extractRoutes sv item).
Proof.
  apply (stable_extractRoutes _ same_logs sv). intros e _. by apply unlogged_same.
Qed.

Lemma unlogged_getOrCreate (sv : Services) (name : string) :
  stable (fun _ => True) same_logs (getOrCreateSubfolderV4_ sv name).
Proof. apply (stable_getOrCreate _ same_logs sv). intros d. by apply unlogged_same. Qed.

Lemma unlogged_upsertJson (sv : Services) (folder : nat) (fileName : string) (a : Artifact) :
  stable (fun _ => True) same_logs (upsertJsonV4_ sv folder fileName a).
Proof.
  apply (stable_upsertJson _ same_logs sv).
  - intros e _. by apply unlogged_same.
  - intros d. by apply unlogged_same.
Qed.

Lemma unlogged_upsertSheet (sv : Services) (folder : nat) (sheet : string) (r : RouteDraft) :
  stable (fun _ => True) same_logs (upsertSheetV4_ sv folder sheet r).
Proof.
  apply (stable_upsertSheet _ same_logs sv).
  - intros e _. by apply unlogged_same.
  - intros d. by apply unlogged_same.
Qed.

(** The lines of a batch are tagged. *)
Lemma tagged_unlogged {A} (m : M A) :
  stable (fun _ => True) same_logs m → stable (fun _ => True) logs_tagged m.
Proof.
  intros H w _. split; [done|]. destruct (H w I) as [_ Hs].
  exists []. by rewrite app_nil_r.
Qed.

Lemma tagged_log (line : string) : tagged line → stable (fun _ => True) logs_tagged (log line).
Proof. intros H w _. split; [done|]. exists [line]. split; [done|]. by constructor. Qed.

Lemma tagged_publishOne (sv : Services) (item : WorkItem) (route : RouteDraft) :
  stable (fun _ => True) logs_tagged (publishOne sv item route).
Proof.
  unfold publishOne, WRITE_JSON_V4, WRITE_SHEETS_V4.
  apply (stable_bind _ logs_tagged); [apply tagged_unlogged, unlogged_getOrCreate|].
  intros busFolder. apply (stable_bind _ logs_tagged).
  - apply (stable_bind _ logs_tagged); [by apply tagged_unlogged, unlogged_same|].
    intros tr. apply (stable_bind _ logs_tagged);
      [apply tagged_unlogged, unlogged_upsertJson|].
    intros url. apply tagged_log. eexists. right. right. left. reflexivity.
  - intros _. apply (stable_bind _ logs_tagged);
      [apply tagged_unlogged, unlogged_upsertSheet|].
    intros url. apply tagged_log. eexists. right. right. left. reflexivity.
Qed.

Lemma tagged_publishRoutes (sv : Services) (routes : list RawRoute) (item : WorkItem) :
  stable (fun _ => True) logs_tagged (publishRoutesV4_ sv routes item).
Proof.
  unfold publishRoutesV4_. destruct routes.
  { apply tagged_log. eexists. right. left. reflexivity. }
  destruct (List.filter _ _).
  { apply tagged_log. eexists. right. left. reflexivity. }
  apply (stable_bind _ logs_tagged); [apply tagged_unlogged, unlogged_geocodeStops|].
  intros geocoded. apply (stable_forEach _ logs_tagged). apply tagged_publishOne.
Qed.

Lemma tagged_processItem (sv : Services) (item : WorkItem) :
  stable (fun _ => True) logs_tagged (processItem sv item).
Proof.
  unfold processItem. destruct (_ || _); [by apply tagged_unlogged, unlogged_same|].
  apply (stable_bind _ logs_tagged); [by apply tagged_unlogged, unlogged_same|].
  intros st. destruct (String.eqb _ _).
  { apply tagged_log. eexists. left. reflexivity. }
  apply (stable_try_catch _ logs_tagged).
  2:{ intros e. apply tagged_log. eexists. do 3 right. reflexivity. }
  apply (stable_bind _ logs_tagged); [apply tagged_unlogged, unlogged_extractRoutes|].
  intros routes.
  apply (stable_bind _ logs_tagged); [|intros _; by apply tagged_unlogged, unlogged_same].
  apply tagged_publishRoutes.
Qed.

(** Tagged lines are lines. *)
Lemma grow_tagged {A} (m : M A) :
  stable (fun _ => True) logs_tagged m → stable (fun _ => True) logs_grow m.
Proof.
  intros H w _. split; [done|]. destruct (H w I) as [_ (new & Hn & _)].
  unfold logs_grow. rewrite Hn. by apply prefix_app_r.
Qed.

Lemma logs_publishOne (sv : Services) (item : WorkItem) (route : RouteDraft) :
  stable (fun _ => True) logs_grow (publishOne sv item route).
Proof. apply grow_tagged, tagged_publishOne. Qed.

Lemma prefix_longer {A} (l l' : list A) (x : A) :
  l `prefix_of` l' → (length l < length (l' ++ [x]))%nat.
Proof. intros H. apply prefix_length in H. rewrite length_app. simpl. lia. Qed.

(** A publication that returns has written a line. *)
Lemma publishOne_logs (sv : Services) (item : WorkItem) (route : RouteDraft)
    (w w1 : World) :
  publishOne sv item route w = (Ok tt, w1) → (length (w_logs w) < length (w_logs w1))%nat.
Proof.
  intros Hrun. unfold publishOne, WRITE_JSON_V4, WRITE_SHEETS_V4 in Hrun.
  unfold mbind at 1 in Hrun. unfold M_bind at 1 in Hrun.
  destruct (unlogged_getOrCreate sv (or_else (busNumber route) "N-A") w I) as [_ H1].
  destruct (getOrCreateSubfolderV4_ sv _ w) as [[busFolder|e] wa]; [|done]. cbn [snd] in H1.
  unfold mbind at 1 in Hrun. unfold M_bind at 1 in Hrun.
  unfold mbind at 1 in Hrun. unfold M_bind at 1 in Hrun.
  unfold getTrace at 1 in Hrun.
  unfold mbind at 1 in Hrun. unfold M_bind at 1 in Hrun.
  match type of Hrun with
  | context [upsertJsonV4_ sv ?b ?f ?a wa] =>
      destruct (unlogged_upsertJson sv b f a wa I) as [_ H2];
      destruct (upsertJsonV4_ sv b f a wa) as [[url|e] wb]; [|done]
  end.
  cbn [snd] in H2. unfold log at 1 in Hrun.
  unfold mbind at 1 in Hrun. unfold M_bind at 1 in Hrun.
  match type of Hrun with
  | context [upsertSheetV4_ sv ?b ?f ?a ?w0] =>
      destruct (unlogged_upsertSheet sv b f a w0 I) as [_ H3];
      destruct (upsertSheetV4_ sv b f a w0) as [[url2|e] wc]; [|done]
  end.
  cbn [snd] in H3. injection Hrun as <-. unfold same_logs in *. simpl in *.
  rewrite H3, H2, H1, !length_app. simpl. lia.
Qed.

Lemma forEach_nonempty_logs (sv : Services) (item : WorkItem) (routes : list RouteDraft)
    (w w1 : World) :
  routes ≠ [] →
  forEach (publishOne sv item) routes w = (Ok tt, w1) →
  (length (w_logs w) < length (w_logs w1))%nat.
Proof.
  destruct routes as [|r rs]; [done|]. intros _. cbn [forEach].
  unfold mbind, M_bind.
  destruct (publishOne sv item r w) as [[[]|e] wa] eqn:Ha; [|done].
  apply publishOne_logs in Ha. intros Hrest.
  destruct (stable_forEach (fun _ => True) logs_grow (publishOne sv item) rs
              (logs_publishOne sv item) wa I) as [_ H].
  rewrite Hrest in H. apply prefix_length in H. simpl in H. lia.
Qed.

Lemma publishRoutes_logs (sv : Services) (routes : list RawRoute) (item : WorkItem)
    (w w1 : World) :
  publishRoutesV4_ sv routes item w = (Ok tt, w1) →
  (length (w_logs w) < length (w_logs w1))%nat.
Proof.
  unfold publishRoutesV4_. destruct routes as [|r rs].
  { intros [= <-]. simpl. rewrite length_app. simpl. lia. }
  destruct (List.filter _ _) as [|c cs] eqn:Hc.
  { intros [= <-]. simpl. rewrite length_app. simpl. lia. }
  unfold mbind, M_bind.
  destruct (unlogged_geocodeStops sv (c :: cs) w I) as [_ Hg].
  destruct (geocodeStopsV4_ sv (c :: cs) w) as [[geocoded|e] wg] eqn:Hgeo; [|done].
  apply geocodeStops_outcome in Hgeo. cbn [snd] in Hg.
  intros Hpub. apply forEach_nonempty_logs in Hpub.
  - unfold same_logs in Hg. rewrite Hg in Hpub. exact Hpub.
  - intros ->. by inversion Hgeo.
Qed.

(** An item that passes the guard leaves a line. *)
Lemma processItem_adds_line (sv : Services) (item : WorkItem) (w : World) :
  fileId item ≠ "" → routeType item ≠ "" →
  (length (w_logs w) < length (w_logs (processItem sv item w).2))%nat.
Proof.
  intros Hf Hr.
  destruct (processItem_cases sv item w) as [[[?|?] _]|(_ & _ & [-> | ->])]; [done|done| |].
  { simpl. rewrite length_app. simpl. lia. }
  destruct (unlogged_extractRoutes sv item w I) as [_ He]. unfold same_logs in He.
  destruct (extractRoutes sv item w) as [[routes|e] w1]; cbn [fst snd] in *.
  2:{ simpl. rewrite length_app, He. simpl. lia. }
  unfold try_catch, lift, mbind, M_bind.
  destruct (publishRoutesV4_ sv routes item w1) as [[[]|e] w2] eqn:Hpub.
  - apply publishRoutes_logs in Hpub. rewrite He in Hpub. exact Hpub.
  - assert (w_logs w1 `prefix_of` w_logs w2) as Hp.
    { destruct (grow_tagged _ (tagged_publishRoutes sv routes item) w1 I) as [_ Hg].
      by rewrite Hpub in Hg. }
    apply prefix_length in Hp. rewrite He in Hp. simpl. rewrite length_app. simpl. lia.
Qed.

(** X12.  Every item that has a file id and a route type leaves a line
    in the log of the run, at the end of what was there, whether it is
    skipped, published, found empty or failed; and every line it leaves
    starts with one of the tags "[SKIP] ", "[WARN] ", "[OK] " and
    "[ERROR] ". *)
Theorem processItem_logs (sv : Services) (item : WorkItem) (w : World) :
  fileId item ≠ "" → routeType item ≠ "" →
  ∃ line new, w_logs (processItem sv item w).2 = w_logs w ++ line :: new ∧
              Forall tagged (line :: new).
Proof.
  intros Hf Hr.
  destruct (tagged_processItem sv item w I) as [_ (new & Hnew & Htag)].
  pose proof (processItem_adds_line sv item w Hf Hr) as Hlen.
  rewrite Hnew, length_app in Hlen.
  destruct new as [|line new]; [simpl in Hlen; lia|]. by exists line, new.
Qed.

Lemma processItem_logs_witness :
  ∃ line new, w_logs (processItem sheetServices guilfordPdf sheetWorld).2
              = w_logs sheetWorld ++ line :: new ∧ Forall tagged (line :: new).
Proof. apply processItem_logs; discriminate. Defined.

(** ** The bus folders of a batch *)

Section Grown.
Context {A : Type} (R : A → A → Prop) `{!PreOrder R}.

Lemma grown_refl (l : list A) : grown R l l.
Proof.
  exists l, []. split; [by rewrite app_nil_r|]. by apply Forall_Forall2_diag, Forall_true.
Qed.

Lemma grown_trans (l1 l2 l3 : list A) : grown R l1 l2 → grown R l2 l3 → grown R l1 l3.
Proof.
  intros (k1 & m1 & -> & H1) (k2 & m2 & -> & H2).
  apply Forall2_app_inv_l in H2 as (k2a & k2b & Ha & Hb & ->).
  exists k2a, (k2b ++ m2). split; [by rewrite app_assoc|].
  eapply Forall2_trans; [|exact H1|exact Ha]. intros x y z. by etrans.
Qed.

#[local] Instance grown_preorder : PreOrder (grown R).
Proof. split; [exact grown_refl|exact grown_trans]. Qed.

Lemma grown_app (l m : list A) : grown R l (l ++ m).
Proof. exists l, m. split; [done|]. by apply Forall_Forall2_diag, Forall_true. Qed.

Lemma grown_alter (f : A → A) (l : list A) (i : nat) :
  (∀ x, l !! i = Some x → R x (f x)) → grown R l (alter f i l).
Proof.
  intros Hf. exists (alter f i l), []. split; [by rewrite app_nil_r|].
  revert i Hf. induction l as [|y l IH]; intros [|i] Hf; simpl; [constructor..| |].
  - constructor; [by apply Hf|]. by apply Forall_Forall2_diag, Forall_true.
  - constructor; [reflexivity|]. apply IH. intros x Hx. by apply Hf.
Qed.

Lemma grown_insert (l : list A) (i : nat) (x y : A) :
  l !! i = Some x → R x y → grown R l (<[i := y]> l).
Proof.
  intros Hl Hxy. rewrite list_insert_alter. apply grown_alter.
  intros z Hz. by simplify_eq.
Qed.

End Grown.

#[local] Instance file_same_preorder : PreOrder file_same.
Proof.
  split.
  - intros f. by split.
  - intros a b c [H1 H2] [H3 H4]. split; congruence.
Qed.

#[local] Instance file_kept_preorder : PreOrder file_kept.
Proof.
  split.
  - intros f. split; [done|by left].
  - intros a b c [H1 H2] [H3 H4]. split; [congruence|].
    destruct H4 as [H4|H4]; [|by right]. rewrite H4. destruct H2 as [H2|H2]; [left|by right].
    done.
Qed.

Section DriveGrows.
Context (sv : Services) (Rf : DriveFile → DriveFile → Prop) `{!PreOrder Rf}.
Context (Hcontent : ∀ f c, Rf f (with_content c f)).
Context (Hrename : ∀ n f, route_stem n → sameName sv n (file_name f) = true →
                          Rf f (with_name n f)).

#[local] Instance folder_kept_preorder :
  PreOrder (fun fo fo' : Folder => folder_name fo' = folder_name fo ∧
                                  grown Rf (folder_files fo) (folder_files fo')).
Proof.
  split.
  - intros fo. split; [done|apply grown_refl; apply _].
  - intros a b c [H1 H2] [H3 H4]. split; [congruence|].
    eapply grown_trans; [apply _|exact H2|exact H4].
Qed.

#[local] Instance drive_step_preorder : PreOrder (drive_step Rf).
Proof.
  split.
  - intros w. unfold drive_step, drive_grows. apply grown_refl, _.
  - intros a b c H1 H2. unfold drive_step, drive_grows in *.
    eapply grown_trans; [apply _|exact H1|exact H2].
Qed.

Lemma drive_grows_refl (d : list Folder) : drive_grows Rf d d.
Proof. unfold drive_grows. apply grown_refl, _. Qed.

(** One more write into a folder. *)
Lemma drive_grows_write (d d1 : list Folder) (folder : nat) (files' : list DriveFile) :
  drive_grows Rf d d1 →
  grown Rf (filesOf folder d1) files' →
  drive_grows Rf d (withFiles folder files' d1).
Proof.
  intros Hd Hf. unfold drive_grows in *.
  eapply grown_trans; [apply _|exact Hd|].
  unfold withFiles. apply grown_alter; [apply _|].
  intros fo Hfo. split; [done|]. unfold filesOf in Hf. by rewrite Hfo in Hf.
Qed.

Lemma drive_same {A} (m : M A) :
  (∀ w, w_drive (m w).2 = w_drive w) → stable (fun _ => True) (drive_step Rf) m.
Proof.
  intros H w _. split; [done|]. unfold drive_step. rewrite H. apply drive_grows_refl.
Qed.

Lemma drive_bind {A B} (m : M A) (f : A → M B) :
  stable (fun _ => True) (drive_step Rf) m →
  (∀ a, stable (fun _ => True) (drive_step Rf) (f a)) →
  stable (fun _ => True) (drive_step Rf) (m ≫= f).
Proof. apply (stable_bind _ (drive_step Rf)). Qed.

Lemma drive_geocodeStop (stop : Stop) :
  stable (fun _ => True) (drive_step Rf) (geocodeStop sv stop).
Proof.
  unfold geocodeStop. apply drive_bind; [by apply drive_same|].
  intros st. destruct (_ ≫= _) as [[la ln]|]; [by apply drive_same|].
  apply drive_bind.
  - apply (stable_withRetry _ (drive_step Rf) sv).
    + intros e _. by apply drive_same.
    + by apply drive_same.
  - intros res. apply drive_bind.
    + destruct res as [[la ln]|]; by apply drive_same.
    + intros s. by apply drive_same.
Qed.

Lemma drive_getOrCreate (name : string) :
  stable (fun _ => True) (drive_step Rf) (getOrCreateSubfolderV4_ sv name).
Proof.
  intros w _. split; [done|]. unfold drive_step.
  unfold getOrCreateSubfolderV4_, driveCall, getTrace, getDrive,
    setDrive, mbind, M_bind, mret, M_ret, throw.
  repeat case_match; simplify_eq; cbn [snd w_drive]; try apply drive_grows_refl.
  unfold drive_grows. apply grown_app, _.
Qed.

Ltac drive_writes :=
  repeat first
    [ apply drive_grows_refl
    | apply drive_grows_write
    | apply grown_app; apply _
    | apply grown_alter; [apply _|]; intros ??; apply Hcontent ].

Lemma drive_upsertJson (folder : nat) (fileName : string) (a : Artifact) :
  stable (fun _ => True) (drive_step Rf) (upsertJsonV4_ sv folder fileName a).
Proof.
  intros w _. split; [done|]. unfold drive_step.
  unfold upsertJsonV4_, driveCall, getTrace, getDrive, emit, pushed,
    setDrive, mbind, M_bind, mret, M_ret, throw.
  cbn. repeat case_match; simplify_eq; cbn [snd w_drive]; drive_writes.
  all: match goal with H : list_find _ _ = Some _ |- _ =>
         apply list_find_Some in H as (Hl & _ & _) end.
  all: eapply grown_insert; [apply _|exact Hl|apply Hcontent].
Qed.

Lemma drive_upsertSheet (folder : nat) (n : string) (r : RouteDraft) :
  route_stem n →
  stable (fun _ => True) (drive_step Rf) (upsertSheetV4_ sv folder n r).
Proof.
  intros Hn w _. split; [done|]. unfold drive_step.
  unfold upsertSheetV4_, driveCall, getTrace, getDrive, emit, pushed,
    setDrive, setCells, mbind, M_bind, mret, M_ret, throw.
  cbn. repeat case_match; simplify_eq; cbn [snd w_drive]; drive_writes.
  all: match goal with H : list_find _ _ = Some _ |- _ =>
         apply list_find_Some in H as (Hl & HP & _) end.
  all: eapply grown_insert; [apply _|exact Hl|by apply Hrename].
Qed.

Lemma drive_publishOne (item : WorkItem) (route : RouteDraft) :
  stable (fun _ => True) (drive_step Rf) (publishOne sv item route).
Proof.
  unfold publishOne, WRITE_JSON_V4, WRITE_SHEETS_V4.
  apply drive_bind; [apply drive_getOrCreate|]. intros busFolder.
  apply drive_bind.
  - apply drive_bind; [by apply drive_same|]. intros tr.
    apply drive_bind; [apply drive_upsertJson|]. intros url. by apply drive_same.
  - intros _. apply drive_bind; [apply drive_upsertSheet; by eexists _, _|].
    intros url. by apply drive_same.
Qed.

Lemma drive_processItem (item : WorkItem) :
  stable (fun _ => True) (drive_step Rf) (processItem sv item).
Proof.
  unfold processItem. destruct (_ || _); [by apply drive_same|].
  apply drive_bind; [by apply drive_same|]. intros st.
  destruct (String.eqb _ _); [by apply drive_same|].
  apply (stable_try_catch _ (drive_step Rf)); [|intros e; by apply drive_same].
  apply drive_bind.
  { apply (stable_extractRoutes _ (drive_step Rf) sv). intros e _. by apply drive_same. }
  intros routes. apply drive_bind; [|intros _; by apply drive_same].
  unfold publishRoutesV4_. destruct routes; [by apply drive_same|].
  destruct (List.filter _ _); [by apply drive_same|].
  apply drive_bind.
  - apply (stable_geocodeStops _ (drive_step Rf) sv), drive_geocodeStop.
  - intros geocoded. apply (stable_forEach _ (drive_step Rf)). apply drive_publishOne.
Qed.

Lemma drive_runBatch : stable (fun _ => True) (drive_step Rf) (runBatch sv).
Proof.
  unfold runBatch. apply drive_bind; [by apply drive_same|]. intros st.
  apply (stable_repeatM _ (drive_step Rf)). unfold batchTurn.
  apply drive_bind; [by apply drive_same|]. intros st'.
  apply drive_bind; [|intros _; by apply drive_same].
  destruct (_ !! _); [apply drive_processItem|by apply drive_same].
Qed.

End DriveGrows.

(** X13.  A batch deletes nothing under [Bus Stops], also when it fails
    midway: every bus folder is still there after the batch, in its place
    and with its name, and the files it held are still there, in the same
    order and with the same ids; files are added behind them, or have
    their content replaced.  A file changes its name only to a canonical
    route name, by the [setName] of [upsertSheetV4_]; and when a search by
    name returns only entries of exactly that name, no file changes its
    name. *)
Theorem runBatch_drive_grows (sv : Services) (w : World) :
  drive_grows file_kept (w_drive w) (w_drive (runBatch sv w).2) ∧
  (exact_search sv → drive_grows file_same (w_drive w) (w_drive (runBatch sv w).2)).
Proof.
  split.
  - assert (∀ f c, file_kept f (with_content c f)) as Hc.
    { intros f c. split; [done|by left]. }
    assert (∀ n f, route_stem n → sameName sv n (file_name f) = true →
                   file_kept f (with_name n f)) as Hr.
    { intros n f Hn _. split; [done|by right]. }
    by destruct (drive_runBatch sv file_kept Hc Hr w I) as [_ H].
  - intros Hexact.
    assert (∀ f c, file_same f (with_content c f)) as Hc.
    { intros f c. by split. }
    assert (∀ n f, route_stem n → sameName sv n (file_name f) = true →
                   file_same f (with_name n f)) as Hr.
    { intros n f _ Hs. split; [done|]. simpl. by apply Hexact. }
    by destruct (drive_runBatch sv file_same Hc Hr w I) as [_ H].
Qed.

Lemma runBatch_drive_grows_witness :
  drive_grows file_same (w_drive sheetWorld) (w_drive (runBatch sheetServices sheetWorld).2).
Proof.
  apply (proj2 (runBatch_drive_grows sheetServices sheetWorld)).
  intros wanted actual H. by apply String.eqb_eq in H.
Defined.

(** ** File names *)

Lemma existsb_dot (l : list ascii) :
  Forall (fun c => is_dot c = false) l → existsb is_dot l = false.
Proof. induction 1 as [|c r Hc Hr IH]; [done|]. simpl. by rewrite Hc. Qed.

Lemma stripExt_split (base ext : string) :
  Forall (fun c => is_dot c = false) (chars ext) →
  stripExtV4_ (base +:+ "." +:+ ext) = base ∧ stripExtV4_ ext = ext.
Proof.
  intros Hext. split.
  - unfold stripExtV4_. rewrite !chars_app.
    assert (existsb is_dot (chars base ++ chars "." ++ chars ext) = true) as ->.
    { rewrite existsb_app. simpl. apply orb_true_r. }
    rewrite !rev_app_distr. simpl. rewrite <- !app_assoc. simpl.
    rewrite dropWhile_app_all.
    + simpl. by rewrite rev_involutive, str_chars.
    + apply Forall_rev. eapply Forall_impl; [exact Hext|]. intros c Hc. simpl. by rewrite Hc.
  - unfold stripExtV4_. by rewrite (existsb_dot _ Hext).
Qed.

(** X14.  [stripExtV4_] cuts at the last dot.  Of a name [base.ext],
    where [ext] has no dot, it returns [base], dots of [base] included; and
    it returns a name without a dot as it is. *)
Theorem stripExt_cuts :
  ∀ (base ext : string),
  Forall (fun c => is_dot c = false) (chars ext) →
  stripExtV4_ (base +:+ "." +:+ ext) = base ∧ stripExtV4_ ext = ext.
Proof. exact stripExt_split. Qed.

Lemma stripExt_cuts_witness :
  stripExtV4_ "021 GUILFORD PARK.v2.pdf" = "021 GUILFORD PARK.v2".
Proof.
  refine (proj1 (stripExt_cuts "021 GUILFORD PARK.v2" "pdf" _)).
  repeat constructor.
Defined.

(** ** What a cleaned route looks like *)

Lemma trim_ends (l : list ascii) :
  (∀ c, head (trim_chars l) = Some c → is_space c = false) ∧
  (∀ c, last (trim_chars l) = Some c → is_space c = false).
Proof.
  unfold trim_chars. set (l1 := dropWhile is_space l).
  destruct (dropWhile_split is_space (rev l1)) as [post Hpost].
  set (x := dropWhile is_space (rev l1)) in *.
  assert (l1 = rev x ++ rev post) as Hl1.
  { rewrite <- (rev_involutive l1), Hpost, rev_app_distr. done. }
  split.
  - intros c Hc. apply (dropWhile_head is_space l c). fold l1. rewrite Hl1.
    destruct (rev x); [done|]. done.
  - intros c Hc. apply (dropWhile_head is_space (rev l1) c). fold x.
    rewrite rev_reverse, last_reverse in Hc. exact Hc.
Qed.

Lemma trim_trim (s : string) : trim (trim s) = trim s.
Proof.
  unfold trim. rewrite chars_str. f_equal.
  destruct (trim_ends (chars s)) as [Hh Hl].
  set (l := trim_chars (chars s)) in *. unfold trim_chars.
  rewrite (dropWhile_id is_space l Hh).
  rewrite (dropWhile_id is_space (rev l)); [apply rev_involutive|].
  intros c Hc. apply Hl. by rewrite <- (rev_involutive l), rev_reverse, last_reverse.
Qed.

Lemma normalizeBus_label (v : string) :
  normalizeBusV4_ v = "" ∨
  (all_digits (chars (normalizeBusV4_ v)) ∧ (3 ≤ length (chars (normalizeBusV4_ v)))%nat).
Proof.
  pose proof (normalizeBus_digits v) as Hd.
  pose proof (normalizeBus_chars v) as Hc. cbv zeta in Hc.
  destruct (filter _ (chars v)) as [|a r] eqn:E.
  - left. apply chars_inj. by rewrite Hc.
  - right. split; [done|]. rewrite Hc, length_app, length_replicate. simpl. lia.
Qed.

Lemma clean_candidate_shape (school : string) (rs : RawStop) (s : Stop) :
  clean_candidate school rs = Some s → clean_stop school s.
Proof.
  unfold clean_candidate. destruct (falsy (raw_location rs)); [done|].
  destruct (falsy (cleanLocationV4_ _)) eqn:Hf; [done|].
  destruct (String.eqb _ _) eqn:He; [done|].
  destruct (is_maneuver _) eqn:Hm; [done|].
  intros [= <-]. unfold clean_stop. cbn [location time latitude longitude geocodeError].
  split; [by apply falsy_false|].
  split; [apply cleanLocation_twice|].
  split; [by apply String.eqb_neq|].
  split; [done|]. split; [apply normalizeTime_twice|]. done.
Qed.

(** X15.  What [cleanRouteV4_] returns.  The bus number is "N-A" or
    three or more digits.  The school name is not empty and has no white
    space at either end.  Every stop has a location that is not empty, that
    cleaning leaves as it is, that differs from the school name also when
    letter case is ignored, and that does not start with a driving
    instruction; its time is normalised; and it carries no coordinates and
    no geocoding error yet. *)
Theorem cleanRoute_shape (route : RawRoute) (fallbackSchool fallbackBus : string) :
  let r := cleanRouteV4_ route fallbackSchool fallbackBus in
  bus_label (busNumber r) ∧
  schoolName r ≠ "" ∧ trim (schoolName r) = schoolName r ∧
  Forall (clean_stop (schoolName r)) (stops r).
Proof.
  intros r. split; [|split; [|split]].
  - unfold r, cleanRouteV4_, bus_label. cbn [busNumber].
    destruct (normalizeBus_label (or_else (raw_busNumber route) fallbackBus)) as [->|H].
    + by left.
    + destruct (falsy _) eqn:Hf; [by left|by right].
  - unfold r, cleanRouteV4_. cbn [schoolName]. unfold or_else at 1.
    destruct (falsy (trim _)) eqn:Hf; [done|]. by apply falsy_false.
  - unfold r, cleanRouteV4_. cbn [schoolName]. unfold or_else at 1 3.
    destruct (falsy (trim _)) eqn:Hf; [by vm_compute|]. apply trim_trim.
  - destruct (cleanRoute_fold_candidates route fallbackSchool fallbackBus) as [Heq _].
    fold r in Heq. rewrite Heq. apply Forall_forall. intros s Hs.
    eapply elem_of_sublist in Hs; [|apply first_by_sublist].
    unfold candidates in Hs. apply list_elem_of_omap in Hs as (rs & _ & Hc).
    by eapply clean_candidate_shape.
Qed.

(** ** An item that fails *)

(** X16.  When the extraction or the publication of an item throws,
    the loop body still returns: it appends one "[ERROR]" line with the
    message to the log, and the table of processed files is what it was
    before the item, so the item is not marked. *)
Theorem item_failure_is_logged (sv : Services) (item : WorkItem) (w w1 : World)
    (e : string) :
  fileId item ≠ "" → routeType item ≠ "" →
  default "" (processed (w_state w) !! fileId item) ≠ stamp_compared (updatedMs item) →
  (extractRoutes sv item ≫= fun routes => publishRoutesV4_ sv routes item) w = (Throw e, w1) →
  processItem sv item w
  = (Ok tt, logged ("[ERROR] " +:+ routeType item +:+ " " +:+ fileName item
                    +:+ ": " +:+ e) w1) ∧
  processed (w_state w1) = processed (w_state w).
Proof.
  intros Hf Hr Hne Hrun. split.
  - rewrite processItem_run by done. unfold try_catch.
    unfold mbind, M_bind in *.
    destruct (extractRoutes sv item w) as [[routes|e0] wa]; [|by injection Hrun as -> ->].
    destruct (publishRoutesV4_ sv routes item wa) as [[[]|e0] wb]; [done|].
    by injection Hrun as -> ->.
  - assert (stable (fun _ => True) same_processed
              (extractRoutes sv item ≫= fun routes => publishRoutesV4_ sv routes item)) as H.
    { apply processed_bind.
      - apply (stable_extractRoutes _ same_processed sv).
        intros ev _. by apply processed_same_state.
      - intros routes. apply (stable_publishRoutes _ same_processed sv).
        + intros ev _. by apply processed_same_state.
        + intros line. by apply processed_same_state.
        + intros d. by apply processed_same_state.
        + apply processed_geocodeStop. }
    destruct (H w I) as [_ Hp]. by rewrite Hrun in Hp.
Qed.

Lemma item_failure_is_logged_witness :
  last (w_logs (processItem noMatchServices guilfordPdf sheetWorld).2)
  = Some "[ERROR] SPECED_PDF 021 GUILFORD PARK.pdf: down".
Proof.
  destruct ((extractRoutes noMatchServices guilfordPdf ≫= fun routes =>
               publishRoutesV4_ noMatchServices routes guilfordPdf) sheetWorld)
    as [[[]|e] w1] eqn:H.
  - vm_compute in H. discriminate H.
  - assert (e = "down") as -> by (vm_compute in H; congruence).
    destruct (item_failure_is_logged noMatchServices guilfordPdf sheetWorld w1 "down")
      as [-> _]; [done|done|by vm_compute|exact H|].
    simpl. apply last_snoc.
Defined.

(** ** The queue *)

Lemma insert_desc_perm (x : WorkItem) (l : list WorkItem) : insert_desc x l ≡ₚ x :: l.
Proof.
  induction l as [|y r IH]; [done|]. simpl.
  destruct (updatedMs y <=? updatedMs x); [done|].
  rewrite IH. apply Permutation_swap.
Qed.

Lemma sort_desc_perm (l : list WorkItem) : sort_desc l ≡ₚ l.
Proof.
  induction l as [|x r IH]; [done|]. unfold sort_desc in *. simpl.
  rewrite insert_desc_perm. by rewrite IH.
Qed.

Lemma insert_desc_sorted (x : WorkItem) (l : list WorkItem) :
  newest_first l → newest_first (insert_desc x l).
Proof.
  unfold newest_first. induction 1 as [|y r Hr IH Hy]; simpl.
  - repeat constructor.
  - destruct (updatedMs y <=? updatedMs x) eqn:Hc.
    + apply Z.leb_le in Hc. constructor; [by constructor|].
      constructor; [done|]. eapply Forall_impl; [exact Hy|]. intros z Hz. simpl in Hz. lia.
    + apply Z.leb_gt in Hc. constructor; [done|].
      rewrite insert_desc_perm. constructor; [lia|done].
Qed.

Lemma sort_desc_sorted (l : list WorkItem) : newest_first (sort_desc l).
Proof.
  induction l as [|x r IH]; [constructor|]. unfold sort_desc in *. simpl.
  by apply insert_desc_sorted.
Qed.

Lemma insert_desc_stable (t : Z) (x : WorkItem) (l : list WorkItem) :
  newest_first l → updated_at t (insert_desc x l) = updated_at t (x :: l).
Proof.
  unfold newest_first, updated_at. induction 1 as [|y r Hr IH Hy]; [done|]. simpl.
  destruct (updatedMs y <=? updatedMs x) eqn:Hc; [done|].
  apply Z.leb_gt in Hc.
  rewrite (filter_cons _ y), IH, !(filter_cons _ x), (filter_cons _ y).
  destruct (decide (updatedMs y = t)) as [Hy'|Hy']; [|done].
  destruct (decide (updatedMs x = t)) as [Hx'|Hx']; [lia|done].
Qed.

Lemma sort_desc_stable (t : Z) (l : list WorkItem) :
  updated_at t (sort_desc l) = updated_at t l.
Proof.
  induction l as [|x r IH]; [done|]. unfold sort_desc in *. simpl.
  rewrite insert_desc_stable by apply sort_desc_sorted.
  unfold updated_at in *. by rewrite !(filter_cons _ x), IH.
Qed.

Lemma rebuildQueue_sorted (state state' : PipelineState) (h h' : Host) :
  rebuildQueueV4_ state h = (Ok state', h') →
  ∃ regEd specEd,
    regEdFiles (routesRoot h) = Some regEd ∧ specEdFolders (routesRoot h) = Some specEd ∧
    let listed := listedItems regEd specEd (nowMs h - 14 * 24 * 60 * 60 * 1000) in
    queue state' ≡ₚ listed ∧
    newest_first (queue state') ∧
    (∀ t, updated_at t (queue state') = updated_at t listed) ∧
    pos state' = 0%nat ∧
    processed state' = processed state ∧
    geocodeCache state' = geocodeCache state.
Proof.
  unfold rebuildQueueV4_, hostCall, getHost, changeHost, hostResult, mbind, HM_bind,
    mret, HM_ret.
  destruct (hostFault h OpenRoutes); [done|].
  destruct (regEdFiles _) as [regEd|]; [|done].
  destruct (specEdFolders _) as [specEd|]; [|done].
  destruct (hostFault h ListRoutes); [done|].
  intros [= <- _]. exists regEd, specEd. split; [done|]. split; [done|].
  cbv zeta. cbn [queue pos processed geocodeCache with_queue].
  split; [apply sort_desc_perm|]. split; [apply sort_desc_sorted|].
  split; [intros t; apply sort_desc_stable|]. done.
Qed.

(** X17.  When [rebuildQueueV4_] returns, both folders exist, and the
    new queue holds exactly the listed files that pass the type and recency
    tests (the Google Docs of RegEd, the PDFs of the bus folders of SpecEd),
    from the most recently updated to the least, files with one time of
    update in listing order.  The cursor is 0, and [processed] and
    [geocodeCache] are not touched. *)
Theorem rebuildQueue_order :
  ∀ (state state' : PipelineState) (h h' : Host),
  rebuildQueueV4_ state h = (Ok state', h') →
  ∃ regEd specEd,
    regEdFiles (routesRoot h) = Some regEd ∧ specEdFolders (routesRoot h) = Some specEd ∧
    let listed := listedItems regEd specEd (nowMs h - 14 * 24 * 60 * 60 * 1000) in
    queue state' ≡ₚ listed ∧
    newest_first (queue state') ∧
    (∀ t, updated_at t (queue state') = updated_at t listed) ∧
    pos state' = 0%nat ∧
    processed state' = processed state ∧
    geocodeCache state' = geocodeCache state.
Proof. exact rebuildQueue_sorted. Qed.

Lemma rebuildQueue_order_witness :
  match (rebuildQueueV4_ emptyState idleHost).1 with
  | Ok s => newest_first (queue s)
  | Throw _ => False
  end.
Proof.
  destruct (rebuildQueueV4_ emptyState idleHost) as [[s|e] h'] eqn:H.
  - destruct (rebuildQueue_order _ _ _ _ H) as (regEd & specEd & _ & _ & _ & Hs & _).
    exact Hs.
  - vm_compute in H. discriminate H.
Defined.

Lemma digit_run_digits (l : list ascii) : all_digits (digit_run l).
Proof.
  induction l as [|c r IH]; [constructor|]. simpl.
  destruct (is_digit c) eqn:Hc; [by constructor|constructor].
Qed.

Lemma normalizeBus_fixed (v : string) :
  v = "" ∨ (∃ x, v = normalizeBusV4_ x) → normalizeBusV4_ v = v.
Proof. intros [->|[x ->]]; [done|apply normalizeBus_twice]. Qed.

Lemma extractBusNumber_normal (name : string) :
  extractBusNumberV4_ name = "" ∨ ∃ x, extractBusNumberV4_ name = normalizeBusV4_ x.
Proof.
  unfold extractBusNumberV4_. destruct (find_bus None (chars name)) as [ds|]; [|by left].
  right. by eexists.
Qed.

Lemma inferSchoolName_trimmed (name : string) :
  trim (inferSchoolNameV4_ name) = inferSchoolNameV4_ name.
Proof. apply trim_trim. Qed.

Lemma listed_hints (regEd : list SourceFile) (specEd : list BusFolder) (cutoff : Z)
    (item : WorkItem) :
  item ∈ listedItems regEd specEd cutoff →
  (routeType item = "REGED_DOC" ∨ routeType item = "SPECED_PDF") ∧
  normalizeBusV4_ (busNumberHint item) = busNumberHint item ∧
  trim (schoolNameHint item) = schoolNameHint item.
Proof.
  unfold listedItems. rewrite elem_of_app. intros [H|H].
  - apply list_elem_of_In, in_map_iff in H as (f & <- & _).
    split; [by left|]. split; [|apply inferSchoolName_trimmed].
    apply normalizeBus_fixed, extractBusNumber_normal.
  - apply list_elem_of_In, in_flat_map in H as (b & _ & H).
    apply in_map_iff in H as (f & <- & _).
    split; [by right|]. split; [|apply inferSchoolName_trimmed].
    unfold specEdItem. cbn [busNumberHint]. unfold or_else.
    destruct (falsy (normalizeBusV4_ (bus_name b))).
    + apply normalizeBus_fixed, extractBusNumber_normal.
    + apply normalizeBus_twice.
Qed.

(** X18.  Every item of a rebuilt queue has the route type REGED_DOC
    or SPECED_PDF, a bus number hint that normalising leaves as it is, and a
    school name hint with no white space at either end; and a route that
    names no bus is cleaned to the bus of the hint of its item, or to "N-A"
    when the hint is empty. *)
Theorem queued_hints (state state' : PipelineState) (h h' : Host) (item : WorkItem) :
  rebuildQueueV4_ state h = (Ok state', h') →
  item ∈ queue state' →
  (routeType item = "REGED_DOC" ∨ routeType item = "SPECED_PDF") ∧
  normalizeBusV4_ (busNumberHint item) = busNumberHint item ∧
  trim (schoolNameHint item) = schoolNameHint item ∧
  ∀ route school,
    raw_busNumber route = "" →
    busNumber (cleanRouteV4_ route school (busNumberHint item))
    = or_else (busNumberHint item) "N-A".
Proof.
  intros Hr Hin.
  destruct (rebuildQueue_sorted _ _ _ _ Hr) as (regEd & specEd & _ & _ & Hp & _).
  cbv zeta in Hp. rewrite Hp in Hin.
  destruct (listed_hints _ _ _ _ Hin) as (Ht & Hb & Hs).
  split; [done|]. split; [done|]. split; [done|].
  intros route school Hraw. unfold cleanRouteV4_. cbn [busNumber].
  rewrite Hraw. change (or_else "" (busNumberHint item)) with (busNumberHint item).
  by rewrite Hb.
Qed.

Lemma queued_hints_witness :
  match (rebuildQueueV4_ emptyState idleHost).1 with
  | Ok s => Forall (fun item => normalizeBusV4_ (busNumberHint item) = busNumberHint item)
              (queue s)
  | Throw _ => False
  end.
Proof.
  destruct (rebuildQueueV4_ emptyState idleHost) as [[s|e] h'] eqn:H.
  - apply Forall_forall. intros item Hin.
    exact (proj1 (proj2 (queued_hints _ _ _ _ item H Hin))).
  - vm_compute in H. discriminate H.
Defined.

(** ** A run of the entry point *)

(** What [saveStateV4_] writes, [loadStateV4_] reads back. *)
Lemma load_saved (s : PipelineState) : loadStateV4_ (Ok (Some (stateDoc s))) = Ok s.
Proof.
  unfold loadStateV4_, stateDoc, readState, catch. destruct s as [q p pr gc]. simpl.
  by destruct p.
Qed.

Lemma with_queue_same (s : PipelineState) : with_queue s (queue s) (pos s) = s.
Proof. by destruct s. Qed.

Lemma loadState_file (file : option StateDoc) : ∃ s, loadStateV4_ (Ok file) = Ok s.
Proof. destruct file as [[| |q p pr gc]|]; by eexists. Qed.

(** *** The triggers *)

Lemma otherTriggers_cons (t : Trigger) (r : list Trigger) :
  otherTriggers (t :: r)
  = if String.eqb (t_handler t) SYNC_HANDLER then otherTriggers r else t :: otherTriggers r.
Proof.
  unfold otherTriggers. cbn [List.filter].
  by destruct (String.eqb (t_handler t) SYNC_HANDLER).
Qed.

Lemma removeFrom_others (fault : HostCall → option string) (i : nat) (ts : list Trigger) :
  otherTriggers (removeFrom fault i ts).2 = otherTriggers ts.
Proof.
  revert i. induction ts as [|t r IH]; intros i; cbn [removeFrom]; [done|].
  destruct (fault (TriggerStep i)); [done|].
  rewrite (otherTriggers_cons t r).
  destruct (String.eqb (t_handler t) SYNC_HANDLER) eqn:E; [apply IH|].
  specialize (IH (S i)). destruct (removeFrom fault (S i) r) as [res r'].
  cbn [snd] in *. by rewrite otherTriggers_cons, E, IH.
Qed.

Lemma removeFrom_ok (fault : HostCall → option string) (i : nat) (ts : list Trigger) :
  (removeFrom fault i ts).1 = Ok tt → (removeFrom fault i ts).2 = otherTriggers ts.
Proof.
  revert i. induction ts as [|t r IH]; intros i; cbn [removeFrom]; [done|].
  destruct (fault (TriggerStep i)); [done|].
  rewrite (otherTriggers_cons t r).
  destruct (String.eqb (t_handler t) SYNC_HANDLER) eqn:E; [apply IH|].
  specialize (IH (S i)). destruct (removeFrom fault (S i) r) as [res r'].
  cbn [fst snd] in *. intros H. by rewrite (IH H).
Qed.

Lemma removeFrom_quiet (fault : HostCall → option string) (i : nat) (ts : list Trigger) :
  (∀ c, fault c = None) → (removeFrom fault i ts).1 = Ok tt.
Proof.
  intros Hq. revert i. induction ts as [|t r IH]; intros i; simpl; [done|].
  rewrite Hq. destruct (String.eqb (t_handler t) SYNC_HANDLER); [apply IH|].
  specialize (IH (S i)). by destruct (removeFrom fault (S i) r) as [res r'].
Qed.

Lemma filter_sync_others (ts : list Trigger) :
  pendingSyncs (otherTriggers ts) = [] ∧ otherTriggers (otherTriggers ts) = otherTriggers ts.
Proof.
  unfold pendingSyncs, otherTriggers. induction ts as [|t r [IH1 IH2]]; [done|]. simpl.
  destruct (String.eqb (t_handler t) SYNC_HANDLER) eqn:E; simpl; [done|].
  by rewrite E, IH2.
Qed.

(** *** What the steps of a run leave alone *)

#[local] Instance host_frame_preorder : PreOrder host_frame.
Proof.
  split.
  - intros h. by repeat split.
  - intros a b c (H1 & H2 & H3 & H4 & H5) (H6 & H7 & H8 & H9 & H10).
    repeat split; congruence.
Qed.


Lemma framed_bind {A B} (m : HM A) (f : A → HM B) :
  framed m → (∀ a, framed (f a)) → framed (m ≫= f).
Proof.
  intros Hm Hf h. unfold mbind, HM_bind. specialize (Hm h).
  destruct (m h) as [[a|e] h1]; cbn [snd] in *; [|done].
  etrans; [exact Hm|apply Hf].
Qed.

Lemma framed_same {A} (m : HM A) : (∀ h, (m h).2 = h) → framed m.
Proof. intros H h. rewrite H. reflexivity. Qed.

Lemma framed_hostCall (c : HostCall) : framed (hostCall c).
Proof. apply framed_same. intros h. unfold hostCall. by destruct (hostFault h c). Qed.

Lemma framed_changeHost (f : Host → Host) :
  (∀ h, host_frame h (f h)) → framed (changeHost f).
Proof. intros H h. apply H. Qed.

Ltac framed_step :=
  first
    [ apply framed_hostCall
    | apply framed_same; reflexivity
    | apply framed_changeHost; intros ?; by repeat split
    | apply framed_bind; [|intros ?] ].

Lemma framed_removeTriggers : framed removeTriggersV4_.
Proof.
  unfold removeTriggersV4_. framed_step; [framed_step|].
  intros h. unfold removeLoop.
  pose proof (removeFrom_others (hostFault h) 0 (triggers h)) as Ho.
  destruct (removeFrom (hostFault h) 0 (triggers h)) as [res ts]. cbn [snd] in *.
  by repeat split.
Qed.

Lemma otherTriggers_app (a b : list Trigger) :
  otherTriggers (a ++ b) = otherTriggers a ++ otherTriggers b.
Proof. unfold otherTriggers. apply List.filter_app. Qed.

Lemma framed_scheduleNext : framed scheduleNextV4_.
Proof.
  unfold scheduleNextV4_. framed_step; [apply framed_removeTriggers|].
  framed_step; [framed_step|]. apply framed_changeHost. intros h.
  repeat split; try done. cbn [triggers set_triggers].
  rewrite otherTriggers_app. apply app_nil_r.
Qed.

Lemma framed_rebuildQueue (state : PipelineState) : framed (rebuildQueueV4_ state).
Proof.
  unfold rebuildQueueV4_. framed_step; [framed_step|]. framed_step; [framed_step|].
  destruct (regEdFiles _); [|framed_step]. destruct (specEdFolders _); [|framed_step].
  repeat framed_step.
Qed.

Lemma framed_appendLogs (sv : Services) (lines : list string) :
  framed (appendLogsV4_ sv lines).
Proof.
  unfold appendLogsV4_. destruct lines; [framed_step|].
  framed_step; [framed_step|]. framed_step; [framed_step|].
  framed_step; [|repeat framed_step].
  destruct (logSheet _); repeat framed_step.
Qed.

Lemma framed_openBusStops : framed openBusStops.
Proof.
  unfold openBusStops. do 3 (framed_step; [framed_step|]).
  destruct (busStops _); repeat framed_step.
Qed.

Lemma framed_batchOn (sv : Services) (state : PipelineState) : framed (batchOn sv state).
Proof.
  intros h. unfold batchOn. by destruct (runBatch sv (batchWorld state h)) as [[[]|e] w'].
Qed.

Lemma framed_syncWork (sv : Services) : framed (syncWork sv).
Proof.
  unfold syncWork. framed_step; [by apply framed_same|].
  framed_step; [destruct (_ <=? _)%nat; [apply framed_rebuildQueue|framed_step]|].
  framed_step; [apply framed_openBusStops|].
  framed_step; [apply framed_batchOn|]. destruct a2 as [state logs].
  framed_step; [apply framed_appendLogs|].
  destruct (_ <? _)%nat.
  - framed_step; [apply framed_scheduleNext|framed_step].
  - framed_step; [apply framed_removeTriggers|]. repeat framed_step.
Qed.

(** *** What the steps of a run do *)

Ltac host_cases :=
  unfold rebuildQueueV4_, appendLogsV4_, openBusStops, scheduleNextV4_, removeTriggersV4_,
    removeLoop, saveStateV4_, batchOn, loadState, hostCall, getHost, changeHost,
    hostResult, mbind, HM_bind, mret, HM_ret;
  intros; repeat case_match; simplify_eq; cbn [fst snd] in *; simplify_eq.

Lemma saveState_throw (st : PipelineState) (h h' : Host) (e : string) :
  saveStateV4_ st h = (Throw e, h') → h' = h.
Proof. host_cases; done. Qed.

Lemma saveState_ok (st : PipelineState) (h h' : Host) :
  saveStateV4_ st h = (Ok tt, h') → h' = set_stateFile h (Some (stateDoc st)).
Proof. host_cases; done. Qed.

Lemma removeTriggers_ok (h h' : Host) :
  removeTriggersV4_ h = (Ok tt, h') → h' = set_triggers h (otherTriggers (triggers h)).
Proof.
  unfold removeTriggersV4_, removeLoop, hostCall, mbind, HM_bind.
  destruct (hostFault h ListTriggers); [done|].
  pose proof (removeFrom_ok (hostFault h) 0 (triggers h)) as Hok.
  destruct (removeFrom (hostFault h) 0 (triggers h)) as [res ts]. cbn [fst snd] in Hok.
  intros [= -> <-]. by rewrite Hok.
Qed.

Lemma scheduleNext_ok (h h' : Host) :
  scheduleNextV4_ h = (Ok tt, h') →
  h' = set_triggers h (otherTriggers (triggers h)
                       ++ [ {| t_handler := SYNC_HANDLER; t_afterMs := 60 * 1000 |} ]).
Proof.
  unfold scheduleNextV4_. unfold mbind at 1, HM_bind at 1.
  destruct (removeTriggersV4_ h) as [[[]|e] h1] eqn:Hr; [|done].
  apply removeTriggers_ok in Hr as ->.
  unfold hostCall, changeHost, mbind, HM_bind. cbn [hostFault set_triggers].
  destruct (hostFault h CreateTrigger); [done|]. by intros [= <-].
Qed.

Lemma pendingSyncs_app (a b : list Trigger) :
  pendingSyncs (a ++ b) = pendingSyncs a ++ pendingSyncs b.
Proof. unfold pendingSyncs. apply List.filter_app. Qed.

Lemma openBusStops_ok (h h' : Host) :
  openBusStops h = (Ok tt, h') → h' = set_busStops h (Some (default [] (busStops h))).
Proof.
  unfold openBusStops, hostCall, getHost, changeHost, mbind, HM_bind, mret, HM_ret.
  destruct (hostFault h OpenOutputRoot); [done|].
  destruct (hostFault h FindBusStops); [done|].
  destruct (busStops h) as [d|] eqn:Hd.
  - intros [= <-]. destruct h; cbn in *. by subst.
  - destruct (hostFault h CreateBusStops); [done|]. by intros [= <-].
Qed.

Lemma appendLogs_keeps (sv : Services) (lines : list string) (h : Host) :
  let h' := (appendLogsV4_ sv lines h).2 in
  busStops h' = busStops h ∧ triggers h' = triggers h ∧ calls h' = calls h.
Proof. host_cases; done. Qed.

(** The body of the [try] block ends with the saving of the state. *)
Lemma syncBody_throw (sv : Services) (h h' : Host) (e : string) :
  syncBody sv h = (Throw e, h') → host_frame h h'.
Proof.
  unfold syncBody, mbind, HM_bind. pose proof (framed_syncWork sv h) as Hf.
  destruct (syncWork sv h) as [[st|e1] h1]; cbn [snd] in Hf.
  - intros Hs. by apply saveState_throw in Hs as ->.
  - by intros [= _ <-].
Qed.

Lemma syncBody_ok (sv : Services) (h h' : Host) :
  syncBody sv h = (Ok tt, h') →
  ∃ st h1, syncWork sv h = (Ok st, h1) ∧ h' = set_stateFile h1 (Some (stateDoc st)).
Proof.
  unfold syncBody, mbind, HM_bind.
  destruct (syncWork sv h) as [[st|e1] h1]; [|done].
  intros Hs. apply saveState_ok in Hs. by exists st, h1.
Qed.

Lemma syncBody_others (sv : Services) (h : Host) :
  otherTriggers (triggers (syncBody sv h).2) = otherTriggers (triggers h) ∧
  hostFault (syncBody sv h).2 = hostFault h ∧
  lockHeld (syncBody sv h).2 = lockHeld h.
Proof.
  destruct (syncBody sv h) as [[[]|e] h'] eqn:Hb; cbn [snd].
  - apply syncBody_ok in Hb as (st & h1 & Hw & ->).
    pose proof (framed_syncWork sv h) as Hf. rewrite Hw in Hf.
    destruct Hf as (_ & H2 & H3 & _ & H5). done.
  - apply syncBody_throw in Hb as (_ & H2 & H3 & _ & H5). done.
Qed.

(** The state that is saved, and the triggers that go with it. *)
Lemma syncWork_ends (sv : Services) (h h1 : Host) (st : PipelineState) :
  syncWork sv h = (Ok st, h1) →
  (queue st = [] ∧ pos st = 0%nat ∧ pendingSyncs (triggers h1) = []) ∨
  ((pos st < length (queue st))%nat ∧ length (pendingSyncs (triggers h1)) = 1%nat).
Proof.
  unfold syncWork.
  unfold mbind at 1, HM_bind at 1. destruct (loadState h) as [[s|e] ha]; [|done].
  unfold mbind at 1, HM_bind at 1.
  destruct ((if (length (queue s) <=? pos s)%nat then rebuildQueueV4_ s else mret s) ha)
    as [[s1|e] hb]; [|done].
  unfold mbind at 1, HM_bind at 1. destruct (openBusStops hb) as [[[]|e] hc]; [|done].
  unfold mbind at 1, HM_bind at 1. destruct (batchOn sv s1 hc) as [[[s2 logs]|e] hd]; [|done].
  unfold mbind at 1, HM_bind at 1.
  destruct (appendLogsV4_ sv logs hd) as [[[]|e] he]; [|done].
  destruct (pos s2 <? length (queue s2))%nat eqn:Hmore.
  - unfold mbind, HM_bind. destruct (scheduleNextV4_ he) as [[[]|e] hf] eqn:Hs; [|done].
    intros [= <- <-]. apply scheduleNext_ok in Hs as ->. right.
    split; [by apply Nat.ltb_lt|]. cbn [triggers set_triggers].
    rewrite pendingSyncs_app, (proj1 (filter_sync_others _)). done.
  - unfold mbind at 1, HM_bind at 1.
    destruct (removeTriggersV4_ he) as [[[]|e] hf] eqn:Hs; [|done].
    intros [= <- <-]. apply removeTriggers_ok in Hs as ->. left.
    split; [done|]. split; [done|]. cbn [triggers set_triggers loggerLog].
    apply filter_sync_others.
Qed.

(** A run that finds items left. *)
Lemma syncWork_batch (sv : Services) (h h1 : Host) (s st : PipelineState) :
  loadStateV4_ (lookupState h) = Ok s →
  (pos s < length (queue s))%nat →
  syncWork sv h = (Ok st, h1) →
  let w' := (runBatch sv (batchWorld s h)).2 in
  busStops h1 = Some (w_drive w') ∧
  st = if (pos s + BATCH_SIZE_V4 <? length (queue s))%nat
       then with_queue (w_state w') (queue s) (pos s + BATCH_SIZE_V4)
       else with_queue (w_state w') [] 0.
Proof.
  intros Hload Hpos. unfold syncWork.
  unfold mbind at 1, HM_bind at 1. unfold loadState at 1. rewrite Hload.
  rewrite (proj2 (Nat.leb_gt _ _) Hpos).
  unfold mbind at 1, HM_bind at 1. cbn [mret HM_ret].
  unfold mbind at 1, HM_bind at 1.
  destruct (openBusStops h) as [[[]|e] hc] eqn:Ho; [|done].
  apply openBusStops_ok in Ho as ->.
  unfold mbind at 1, HM_bind at 1. unfold batchOn at 1.
  change (batchWorld s (set_busStops h (Some (default [] (busStops h)))))
    with (batchWorld s h).
  destruct (runBatch_cursor sv (batchWorld s h)) as (Hok & Hq & Hp).
  cbn [w_state batchWorld queue pos] in Hq, Hp.
  destruct (runBatch sv (batchWorld s h)) as [r w'] eqn:Hrun. cbn [fst snd] in *.
  subst r.
  unfold mbind at 1, HM_bind at 1.
  pose proof (appendLogs_keeps sv (w_logs w')
                (after_batch (set_busStops h (Some (default [] (busStops h)))) w'))
    as (Hb & _ & _).
  destruct (appendLogsV4_ sv (w_logs w') _) as [[[]|e] he]; [|done]. cbn [snd] in Hb.
  rewrite Hq, Hp.
  replace (Nat.max (pos s) (Nat.min (pos s + BATCH_SIZE_V4) (length (queue s))))
    with (Nat.min (pos s + BATCH_SIZE_V4) (length (queue s))) by (unfold BATCH_SIZE_V4; lia).
  destruct (pos s + BATCH_SIZE_V4 <? length (queue s))%nat eqn:Hmore.
  - apply Nat.ltb_lt in Hmore. rewrite (proj2 (Nat.ltb_lt _ _)) by lia.
    unfold mbind, HM_bind. destruct (scheduleNextV4_ he) as [[[]|e] hf] eqn:Hs; [|done].
    intros [= <- <-]. apply scheduleNext_ok in Hs as ->.
    split; [exact Hb|]. rewrite <- Hq.
    replace (pos s + BATCH_SIZE_V4)%nat with (pos (w_state w')) by lia.
    symmetry. apply with_queue_same.
  - apply Nat.ltb_ge in Hmore. rewrite (proj2 (Nat.ltb_ge _ _)) by lia.
    unfold mbind at 1, HM_bind at 1.
    destruct (removeTriggersV4_ he) as [[[]|e] hf] eqn:Hs; [|done].
    intros [= <- <-]. apply removeTriggers_ok in Hs as ->.
    split; [exact Hb|done].
Qed.

(** *** Runs in which every call answers *)

Lemma goes_bind {A B} (m : HM A) (f : A → HM B) :
  goes_through m → framed m → (∀ a, goes_through (f a)) → goes_through (m ≫= f).
Proof.
  intros Hm Hfr Hf h Ha. unfold mbind, HM_bind.
  destruct (Hm h Ha) as [a Hok]. specialize (Hfr h).
  destruct (m h) as [r h1]. cbn [fst snd] in *. subst r.
  apply Hf. intros c. destruct Hfr as (_ & _ & -> & _). apply Ha.
Qed.

Lemma goes_hostCall (c : HostCall) : goes_through (hostCall c).
Proof. intros h Ha. unfold hostCall. rewrite Ha. by exists tt. Qed.

Lemma goes_changeHost (f : Host → Host) : goes_through (changeHost f).
Proof. intros h _. by exists tt. Qed.

Lemma goes_getHost : goes_through getHost.
Proof. intros h _. by exists h. Qed.

Lemma goes_ret {A} (a : A) : goes_through (mret a : HM A).
Proof. intros h _. by exists a. Qed.

Ltac goes_step :=
  first [ apply goes_hostCall | apply goes_changeHost | apply goes_getHost
        | apply goes_ret
        | apply goes_bind; [| first [ apply framed_hostCall | apply framed_same; done
                                    | idtac ] | intros ? ] ].

Lemma goes_removeTriggers : goes_through removeTriggersV4_.
Proof.
  unfold removeTriggersV4_. goes_step; [goes_step|].
  intros h Ha. unfold removeLoop.
  pose proof (removeFrom_quiet (hostFault h) 0 (triggers h) Ha) as Hq.
  destruct (removeFrom (hostFault h) 0 (triggers h)) as [res ts]. cbn [fst] in *.
  subst res. by exists tt.
Qed.

Lemma goes_scheduleNext : goes_through scheduleNextV4_.
Proof.
  unfold scheduleNextV4_.
  apply goes_bind; [apply goes_removeTriggers|apply framed_removeTriggers|intros _].
  apply goes_bind; [apply goes_hostCall|apply framed_hostCall|intros _].
  apply goes_changeHost.
Qed.

Lemma goes_saveState (st : PipelineState) : goes_through (saveStateV4_ st).
Proof.
  unfold saveStateV4_.
  apply goes_bind; [apply goes_hostCall|apply framed_hostCall|intros _].
  apply goes_bind; [apply goes_hostCall|apply framed_hostCall|intros _].
  apply goes_changeHost.
Qed.

Lemma goes_openBusStops : goes_through openBusStops.
Proof.
  intros h Ha. unfold openBusStops, hostCall, getHost, changeHost, mbind, HM_bind,
    mret, HM_ret.
  rewrite (Ha OpenOutputRoot), (Ha FindBusStops).
  destruct (busStops h); [by exists tt|]. rewrite (Ha CreateBusStops). by exists tt.
Qed.

Lemma goes_appendLogs (sv : Services) (lines : list string) :
  goes_through (appendLogsV4_ sv lines).
Proof.
  intros h Ha. unfold appendLogsV4_, hostCall, getHost, changeHost, mbind, HM_bind,
    mret, HM_ret.
  destruct lines; [by exists tt|].
  rewrite (Ha FindLogs).
  destruct (logSheet h); [rewrite (Ha OpenLogs)|rewrite (Ha CreateLogs), (Ha MoveLogs)];
    cbn [hostFault set_logSheet]; rewrite (Ha WriteLogs); by exists tt.
Qed.

Lemma goes_batchOn (sv : Services) (s : PipelineState) : goes_through (batchOn sv s).
Proof.
  intros h _. unfold batchOn.
  destruct (runBatch_cursor sv (batchWorld s h)) as (Hok & _).
  destruct (runBatch sv (batchWorld s h)) as [r w']. cbn [fst] in Hok. subst r.
  by eexists.
Qed.

Lemma rebuildQueue_goes (s : PipelineState) (h : Host) :
  answers h →
  regEdFiles (routesRoot h) ≠ None → specEdFolders (routesRoot h) ≠ None →
  ∃ s1, (rebuildQueueV4_ s h).1 = Ok s1.
Proof.
  intros Ha Hr Hs. unfold rebuildQueueV4_, hostCall, getHost, changeHost, hostResult,
    mbind, HM_bind, mret, HM_ret.
  rewrite (Ha OpenRoutes).
  destruct (regEdFiles (routesRoot h)); [|done].
  destruct (specEdFolders (routesRoot h)); [|done].
  rewrite (Ha ListRoutes). by eexists.
Qed.

Lemma syncWork_goes (sv : Services) (h : Host) (s : PipelineState) :
  answers h →
  loadStateV4_ (lookupState h) = Ok s →
  (∃ s1, ((if (length (queue s) <=? pos s)%nat then rebuildQueueV4_ s else mret s) h).1
         = Ok s1) →
  ∃ st, (syncWork sv h).1 = Ok st.
Proof.
  intros Ha Hload [s1 Hs1]. unfold syncWork.
  unfold mbind at 1, HM_bind at 1. unfold loadState at 1. rewrite Hload.
  unfold mbind at 1, HM_bind at 1.
  assert (host_frame h
            ((if (length (queue s) <=? pos s)%nat then rebuildQueueV4_ s else mret s) h).2)
    as Hf.
  { destruct (_ <=? _)%nat; [apply framed_rebuildQueue|done]. }
  destruct ((if (length (queue s) <=? pos s)%nat then rebuildQueueV4_ s else mret s) h)
    as [r hb].
  cbn [fst snd] in *. subst r. clear Hload.
  assert (answers hb) as Hb. { intros c. destruct Hf as (_ & _ & -> & _). apply Ha. }
  clear Hf Ha. revert hb Hb.
  match goal with |- ∀ h, answers h → ∃ a, (?m h).1 = Ok a => change (goes_through m) end.
  apply goes_bind; [apply goes_openBusStops|apply framed_openBusStops|intros _].
  apply goes_bind; [apply goes_batchOn|apply framed_batchOn|intros [s2 logs]].
  apply goes_bind; [apply goes_appendLogs|apply framed_appendLogs|intros _].
  destruct (_ <? _)%nat.
  - apply goes_bind; [apply goes_scheduleNext|apply framed_scheduleNext|intros _].
    apply goes_ret.
  - apply goes_bind; [apply goes_removeTriggers|apply framed_removeTriggers|intros _].
    apply goes_bind; [apply goes_changeHost|apply framed_changeHost; done|intros _].
    apply goes_ret.
Qed.

Lemma syncBody_goes (sv : Services) (h : Host) (s : PipelineState) :
  answers h →
  loadStateV4_ (lookupState h) = Ok s →
  (pos s < length (queue s))%nat ∨
  (regEdFiles (routesRoot h) ≠ None ∧ specEdFolders (routesRoot h) ≠ None) →
  (syncBody sv h).1 = Ok tt.
Proof.
  intros Ha Hload Hcase. unfold syncBody, mbind, HM_bind.
  destruct (syncWork_goes sv h s Ha Hload) as [st Hst].
  { destruct (length (queue s) <=? pos s)%nat eqn:Hle.
    - destruct Hcase as [Hpos|[Hr Hs]]; [apply Nat.leb_le in Hle; lia|].
      by apply rebuildQueue_goes.
    - by exists s. }
  pose proof (framed_syncWork sv h) as Hf.
  destruct (syncWork sv h) as [r h1]. cbn [fst snd] in *. subst r.
  destruct (goes_saveState st h1) as [[] Hs]; [|done].
  intros c. destruct Hf as (_ & _ & -> & _). apply Ha.
Qed.

(** When every call answers, the body throws only for a missing folder. *)
Lemma syncBody_missing (sv : Services) (h : Host) (e : string) :
  answers h →
  (syncBody sv h).1 = Throw e →
  regEdFiles (routesRoot h) = None ∨ specEdFolders (routesRoot h) = None.
Proof.
  intros Ha Hthrow.
  destruct (regEdFiles (routesRoot h)) as [a|] eqn:Hr; [|by left].
  destruct (specEdFolders (routesRoot h)) as [b|] eqn:Hs; [|by right].
  exfalso.
  destruct (loadState_file (stateFile h)) as [s Hload].
  rewrite (syncBody_goes sv h s) in Hthrow; [done|done| |].
  - unfold lookupState. by rewrite (Ha LoadLookup).
  - right. by rewrite Hr, Hs.
Qed.

(** What a body that returns leaves: a saved state that is finished with
    no trigger of the sync pending, or unfinished with exactly one. *)
Lemma syncBody_saved (sv : Services) (h h' : Host) :
  syncBody sv h = (Ok tt, h') →
  ∃ s, loadStateV4_ (Ok (stateFile h')) = Ok s ∧
       ((queue s = [] ∧ pos s = 0%nat ∧ pendingSyncs (triggers h') = []) ∨
        ((pos s < length (queue s))%nat ∧ length (pendingSyncs (triggers h')) = 1%nat)).
Proof.
  intros Hb. apply syncBody_ok in Hb as (st & h1 & Hw & ->).
  exists st. split; [apply load_saved|]. by apply syncWork_ends in Hw.
Qed.

(** *** The run *)

Lemma sync_saved (sv : Services) (h : Host) (s : PipelineState) :
  lockFree h = true →
  loadStateV4_ (lookupState h) = Ok s →
  (pos s < length (queue s))%nat →
  let w' := (runBatch sv (batchWorld s h)).2 in
  let run := syncRoutesUnifiedV4 sv h in
  (answers h → run.1 = Ok tt) ∧
  (run.1 = Ok tt →
   lockHeld run.2 = false ∧
   busStops run.2 = Some (w_drive w') ∧
   loadStateV4_ (Ok (stateFile run.2))
   = Ok (if (pos s + BATCH_SIZE_V4 <? length (queue s))%nat
         then with_queue (w_state w') (queue s) (pos s + BATCH_SIZE_V4)
         else with_queue (w_state w') [] 0)).
Proof.
  intros Hlock Hload Hpos. cbv zeta. unfold syncRoutesUnifiedV4. rewrite Hlock.
  pose proof (syncBody_others sv (set_lockHeld h true)) as (_ & Hf & _).
  destruct (syncBody sv (set_lockHeld h true)) as [r h1] eqn:Hb. cbn [snd] in Hf.
  rewrite Hf. cbn [hostFault set_lockHeld]. split.
  - intros Ha. rewrite (Ha TryLock), (Ha ReleaseLock). cbn [fst].
    pose proof (syncBody_goes sv (set_lockHeld h true) s Ha Hload (or_introl Hpos)) as Hg.
    by rewrite Hb in Hg.
  - destruct (hostFault h TryLock); [done|].
    destruct (hostFault h ReleaseLock); [done|]. cbn [fst snd]. intros ->.
    apply syncBody_ok in Hb as (st & h0 & Hw & ->).
    destruct (syncWork_batch sv (set_lockHeld h true) h0 s st Hload Hpos Hw) as [Hbus Hst].
    change (batchWorld s (set_lockHeld h true)) with (batchWorld s h) in Hbus, Hst.
    split; [done|]. split; [exact Hbus|]. cbn [stateFile set_lockHeld set_stateFile].
    rewrite <- Hst. apply load_saved.
Qed.

(** X19.  A run that gets the lock and finds items left in the queue.
    When every call it makes of the lock, Drive, the spreadsheet of the
    logs and the triggers answers, it returns normally.  Whenever it
    returns normally, the lock is released, the bus folders are as the
    batch left them, and the state it saved is read back by [loadStateV4_]
    as the state after the batch: with the same queue and the cursor six
    items further when items remain after the batch, and with an empty
    queue and the cursor at 0 when the batch reached the end. *)
Theorem sync_progress :
  ∀ (sv : Services) (h : Host) (s : PipelineState),
  lockFree h = true →
  loadStateV4_ (lookupState h) = Ok s →
  (pos s < length (queue s))%nat →
  let w' := (runBatch sv (batchWorld s h)).2 in
  let run := syncRoutesUnifiedV4 sv h in
  (answers h → run.1 = Ok tt) ∧
  (run.1 = Ok tt →
   lockHeld run.2 = false ∧
   busStops run.2 = Some (w_drive w') ∧
   loadStateV4_ (Ok (stateFile run.2))
   = Ok (if (pos s + BATCH_SIZE_V4 <? length (queue s))%nat
         then with_queue (w_state w') (queue s) (pos s + BATCH_SIZE_V4)
         else with_queue (w_state w') [] 0)).
Proof. exact sync_saved. Qed.

Lemma sync_progress_witness :
  (syncRoutesUnifiedV4 sheetServices queuedHost).1 = Ok tt.
Proof.
  refine (proj1 (sync_progress sheetServices queuedHost
                   {| queue := [guilfordPdf]; pos := 0; processed := ∅; geocodeCache := ∅ |}
                   eq_refl eq_refl _) _).
  - simpl. lia.
  - intros c. reflexivity.
Defined.

Lemma sync_pending (sv : Services) (h : Host) :
  lockFree h = true →
  let run := syncRoutesUnifiedV4 sv h in
  let saved (h' : Host) :=
    ∃ s, loadStateV4_ (Ok (stateFile h')) = Ok s ∧
         ((queue s = [] ∧ pos s = 0%nat ∧ pendingSyncs (triggers h') = []) ∨
          ((pos s < length (queue s))%nat ∧
           length (pendingSyncs (triggers h')) = 1%nat)) in
  otherTriggers (triggers run.2) = otherTriggers (triggers h) ∧
  (hostFault h TryLock = None → hostFault h ReleaseLock = None → lockHeld run.2 = false) ∧
  (answers h → ∀ e, run.1 = Throw e →
   regEdFiles (routesRoot h) = None ∨ specEdFolders (routesRoot h) = None) ∧
  match run.1 with
  | Throw _ => stateFile run.2 = stateFile h ∨ (hostFault h ReleaseLock ≠ None ∧ saved run.2)
  | Ok _ => saved run.2
  end.
Proof.
  intros Hlock. cbv zeta. unfold syncRoutesUnifiedV4. rewrite Hlock.
  destruct (hostFault h TryLock) as [e0|] eqn:Ht.
  { cbn [fst snd]. split; [done|]. split; [done|]. split; [|by left].
    intros Ha. by rewrite (Ha TryLock) in Ht. }
  pose proof (syncBody_others sv (set_lockHeld h true)) as (Ho & Hf & _).
  destruct (syncBody sv (set_lockHeld h true)) as [r h1] eqn:Hb. cbn [snd] in Ho, Hf.
  rewrite Hf. cbn [hostFault set_lockHeld triggers] in *.
  destruct (hostFault h ReleaseLock) as [e1|] eqn:Hr; cbn [fst snd].
  - split; [done|]. split; [done|]. split.
    { intros Ha. by rewrite (Ha ReleaseLock) in Hr. }
    destruct r as [[]|e].
    + right. split; [done|]. by apply syncBody_saved in Hb.
    + left. apply syncBody_throw in Hb as (Hs & _). exact Hs.
  - split; [done|]. split; [done|]. split.
    { intros Ha e ->.
      apply (syncBody_missing sv (set_lockHeld h true) e Ha). by rewrite Hb. }
    destruct r as [[]|e].
    + by apply syncBody_saved in Hb.
    + left. apply syncBody_throw in Hb as (Hs & _). exact Hs.
Qed.

(** X20.  A run that gets the lock leaves the triggers of other handlers
    as they were, whether it returns or throws, and the lock released when
    the calls of the lock answer.  When every call answers, it throws only
    because RegEd or SpecEd is missing.  When it returns, the state it
    saved is either finished (empty queue, cursor 0) with no trigger of
    the sync pending, or unfinished (cursor before the end of the queue)
    with exactly one.  When it throws, the state file is as it was,
    unless the throw is that of the release of the lock after a body that
    returned, which leaves the saved state and the triggers just
    described. *)
Theorem sync_triggers :
  ∀ (sv : Services) (h : Host),
  lockFree h = true →
  let run := syncRoutesUnifiedV4 sv h in
  let saved (h' : Host) :=
    ∃ s, loadStateV4_ (Ok (stateFile h')) = Ok s ∧
         ((queue s = [] ∧ pos s = 0%nat ∧ pendingSyncs (triggers h') = []) ∨
          ((pos s < length (queue s))%nat ∧
           length (pendingSyncs (triggers h')) = 1%nat)) in
  otherTriggers (triggers run.2) = otherTriggers (triggers h) ∧
  (hostFault h TryLock = None → hostFault h ReleaseLock = None → lockHeld run.2 = false) ∧
  (answers h → ∀ e, run.1 = Throw e →
   regEdFiles (routesRoot h) = None ∨ specEdFolders (routesRoot h) = None) ∧
  match run.1 with
  | Throw _ => stateFile run.2 = stateFile h ∨ (hostFault h ReleaseLock ≠ None ∧ saved run.2)
  | Ok _ => saved run.2
  end.
Proof. exact sync_pending. Qed.

Lemma sync_triggers_witness :
  otherTriggers (triggers (syncRoutesUnifiedV4 sheetServices idleHost).2)
  = otherTriggers (triggers idleHost).
Proof. exact (proj1 (sync_triggers sheetServices idleHost eq_refl)). Defined.

(** X21.  A queue with r items left, where 6(n-1) < r <= 6n, is worked
    off in n consecutive runs in each of which the lock is free and every
    call answers, whatever else the runs find: after them the saved state
    has an empty queue and the cursor at 0, no trigger of the sync is
    pending, and the triggers of other handlers are as they were. *)
Theorem sync_chain_ends (sv : Services) (envs : list RunEnv) (h : Host)
    (s : PipelineState) :
  Forall quiet envs →
  loadStateV4_ (Ok (stateFile h)) = Ok s →
  (BATCH_SIZE_V4 * (length envs - 1) < length (queue s) - pos s
   ≤ BATCH_SIZE_V4 * length envs)%nat →
  let h' := afterRuns sv envs h in
  (∃ s', loadStateV4_ (Ok (stateFile h')) = Ok s' ∧ queue s' = [] ∧ pos s' = 0%nat) ∧
  pendingSyncs (triggers h') = [] ∧
  otherTriggers (triggers h') = otherTriggers (triggers h).
Proof.
  revert h s. induction envs as [|e r IH]; intros h s Hq Hload Hrem.
  { simpl in Hrem. lia. }
  apply Forall_cons in Hq as [[Hfree Hans] Hq].
  assert (loadStateV4_ (lookupState (in_env e h)) = Ok s) as Hload'.
  { unfold lookupState. cbn [hostFault in_env]. by rewrite Hans. }
  cbv zeta. cbn [afterRuns].
  destruct (sync_saved sv (in_env e h) s Hfree Hload'
              ltac:(unfold BATCH_SIZE_V4 in *; lia)) as (Hok & Hsaved).
  specialize (Hok Hans). destruct (Hsaved Hok) as (_ & _ & Hstate).
  pose proof (sync_pending sv (in_env e h) Hfree) as Ht. cbv zeta in Ht. rewrite Hok in Ht.
  destruct Ht as (Hother & _ & _ & s' & Hs' & Hcase). cbn [triggers in_env] in Hother.
  destruct r as [|e2 r2].
  - cbn [afterRuns]. cbn [length] in Hrem.
    rewrite (proj2 (Nat.ltb_ge _ _)) in Hstate by (unfold BATCH_SIZE_V4 in *; lia).
    rewrite Hstate in Hs'. injection Hs' as <-.
    split; [by eexists|]. split; [|done].
    destruct Hcase as [(_ & _ & Hp)|[Hp _]]; [done|]. simpl in Hp. lia.
  - cbn [length] in Hrem.
    rewrite (proj2 (Nat.ltb_lt _ _)) in Hstate by (unfold BATCH_SIZE_V4 in *; lia).
    specialize (IH (syncRoutesUnifiedV4 sv (in_env e h)).2 _ Hq Hstate).
    cbv zeta in IH. cbn [with_queue queue pos length] in IH.
    destruct IH as (H1 & H2 & H3); [unfold BATCH_SIZE_V4 in *; lia|].
    split; [done|]. split; [done|]. etrans; [exact H3|exact Hother].
Qed.

Lemma sync_chain_ends_witness :
  pendingSyncs (triggers (afterRuns sheetServices
    [ {| env_lockFree := true; env_nowMs := 1700002000000; env_routes := twoSources;
         env_fault := fun _ => None |} ] queuedHost)) = [].
Proof.
  refine (proj1 (proj2 (sync_chain_ends sheetServices _ queuedHost
                          {| queue := [guilfordPdf]; pos := 0; processed := ∅; geocodeCache := ∅ |}
                          _ eq_refl _))).
  - repeat constructor.
  - simpl. lia.
Defined.
(** ** RegEd documents *)

Lemma parseRegEdStopLine_fixed (line : string) (s : RegEdStop) :
  parseRegEdStopLineV4_ line = Some s →
  cleanLocationV4_ (reg_location s) = reg_location s ∧
  normalizeTimeV4_ (reg_time s) = reg_time s.
Proof.
  unfold parseRegEdStopLineV4_. destruct (falsy line); [done|].
  destruct (starts_instruction _); [done|]. destruct (starts_ordinal _); [done|].
  destruct (match_stop_line _) as [[t loc]|].
  - intros [= <-]. split; [apply cleanLocation_twice|apply normalizeTime_twice].
  - destruct (looksLikeLocationV4_ _); [|done].
    intros [= <-]. split; [apply cleanLocation_twice|done].
Qed.

(** The routes of a document, as the groups of its parsed stops. *)
Lemma regEdRoutes_in (content : list StructuralElement) (docName busHint : string)
    (k : Period) (route : RawRoute) :
  (k, route) ∈ regEdRoutes content docName busHint →
  let parsed := omap parseRegEdStopLineV4_ (extractRedParagraphLinesV4_ content) in
  raw_stops route = map regEdRawStop (grouped k parsed) ∧ grouped k parsed ≠ [].
Proof.
  unfold regEdRoutes. cbv zeta.
  set (parsed := omap parseRegEdStopLineV4_ (extractRedParagraphLinesV4_ content)).
  destruct parsed as [|p0 ps] eqn:Hp; [by intros ?%elem_of_nil|].
  rewrite <- Hp. clear Hp p0 ps.
  assert ((if (length (grouped AM parsed) + length (grouped PM parsed)
               + length (grouped MidDay parsed) =? 0)%nat
           then parsed else grouped Route parsed) = grouped Route parsed) as ->.
  { destruct (_ =? 0)%nat eqn:E; [|done]. apply Nat.eqb_eq in E.
    assert (grouped AM parsed = [] ∧ grouped PM parsed = [] ∧ grouped MidDay parsed = [])
      as (Ha & Hp & Hm).
    { destruct (grouped AM parsed), (grouped PM parsed), (grouped MidDay parsed);
        simpl in E; try lia; done. }
    clear E. unfold grouped in *. induction parsed as [|s r IH]; [done|]. simpl in *.
    destruct (periodFromTimeV4_ (reg_time s)) eqn:Es; simpl in *; try done.
    f_equal. by apply IH. }
  intros H. apply list_elem_of_omap in H as ([k' g] & Hin & Hg).
  assert (g = grouped k' parsed) as ->.
  { repeat (apply elem_of_cons in Hin as [Hin|Hin]; [by injection Hin as -> ->|]).
    by apply elem_of_nil in Hin. }
  clear Hin. destruct (grouped k' parsed) as [|s0 g0] eqn:E; [done|].
  injection Hg as -> <-. cbn [raw_stops]. by rewrite E.
Qed.

Lemma grouped_period (k : Period) (parsed : list RegEdStop) (s : RegEdStop) :
  s ∈ grouped k parsed → s ∈ parsed ∧ periodFromTimeV4_ (reg_time s) = k.
Proof.
  unfold grouped. intros H. apply list_elem_of_In, filter_In in H as [H1 H2].
  split; [by apply list_elem_of_In|]. by apply bool_decide_eq_true in H2.
Qed.

Lemma periodFromTime_minutes (t : string) (k : Period) :
  periodFromTimeV4_ t = k → k ≠ Route →
  ∃ m, parseTimeMinsV4_ t = Some m ∧ period_of_minutes m = Some k.
Proof.
  unfold periodFromTimeV4_. destruct (parseTimeMinsV4_ t) as [m|]; [|congruence].
  destruct (period_of_minutes m) as [p|] eqn:E; simpl; [|congruence].
  intros <- _. by exists m.
Qed.

Lemma clean_candidate_time (school : string) (rs : RawStop) (st : Stop) :
  clean_candidate school rs = Some st →
  time st = normalizeTimeV4_ (raw_time rs) ∧
  location st = cleanLocationV4_ (raw_location rs).
Proof.
  unfold clean_candidate. destruct (falsy (raw_location rs)); [done|].
  destruct (falsy _); [done|]. destruct (String.eqb _ _); [done|].
  destruct (is_maneuver _); [done|]. by intros [= <-].
Qed.

(** The cleaned stops come from raw stops of the route. *)
Lemma cleanRoute_sources (route : RawRoute) (fallbackSchool fallbackBus : string) (st : Stop) :
  let r := cleanRouteV4_ route fallbackSchool fallbackBus in
  st ∈ stops r →
  ∃ rs, rs ∈ raw_stops route ∧ clean_candidate (schoolName r) rs = Some st.
Proof.
  intros r Hst.
  destruct (cleanRoute_fold_candidates route fallbackSchool fallbackBus) as [Heq _].
  fold r in Heq. rewrite Heq in Hst.
  eapply elem_of_sublist in Hst; [|apply first_by_sublist].
  unfold candidates in Hst. by apply list_elem_of_omap in Hst.
Qed.

(** X22.  A route that [parseRegEdDocV4_] returns under AM, PM or
    Mid-day keeps that period when it is published: when any stop survives
    [cleanRouteV4_], [canonicalPeriodV4_] of the cleaned route is the period
    of the group. *)
Theorem regEd_period_kept (content : list StructuralElement) (docName busHint : string)
    (k : Period) (route : RawRoute) (fallbackSchool fallbackBus : string) :
  (k, route) ∈ regEdRoutes content docName busHint →
  k ≠ Route →
  let r := cleanRouteV4_ route fallbackSchool fallbackBus in
  stops r ≠ [] →
  canonicalPeriodV4_ (stops r) (schoolName r) = k.
Proof.
  intros Hin Hk r Hne.
  apply regEdRoutes_in in Hin as [Hstops _]. cbv zeta in Hstops.
  set (parsed := omap parseRegEdStopLineV4_ (extractRedParagraphLinesV4_ content)) in *.
  assert (∀ st, st ∈ stops r →
            ∃ m, parseTimeMinsV4_ (time st) = Some m ∧ period_of_minutes m = Some k) as Hall.
  { intros st Hst. apply cleanRoute_sources in Hst as (rs & Hrs & Hc).
    apply clean_candidate_time in Hc as [-> _]. rewrite normalizeTime_minutes.
    rewrite Hstops in Hrs. apply list_elem_of_In, in_map_iff in Hrs as (s & <- & Hs).
    apply list_elem_of_In, grouped_period in Hs as [_ Hs].
    by apply periodFromTime_minutes. }
  unfold canonicalPeriodV4_.
  destruct (earliestMins (stops r)) as [best|] eqn:Hbest.
  - apply earliestMins_Some in Hbest as [Hb _].
    unfold parsedTimes in Hb. apply list_elem_of_omap in Hb as (st & Hst & Hp).
    destruct (Hall st Hst) as (m & Hm & Hpm). rewrite Hm in Hp. injection Hp as <-.
    by rewrite Hpm.
  - apply earliestMins_None in Hbest. exfalso.
    destruct (stops r) as [|st rest] eqn:E; [done|].
    destruct (Hall st ltac:(left)) as (m & Hm & _).
    inversion Hbest; congruence.
Qed.

Lemma regEd_period_kept_witness :
  Forall (fun kr => canonicalPeriodV4_ (stops (cleanRouteV4_ kr.2 "" "")) 
                      (schoolName (cleanRouteV4_ kr.2 "" "")) = kr.1)
    (regEdRoutes guilfordDoc "21 Guilford Park" "").
Proof.
  apply Forall_forall. intros [k route] Hin.
  assert (k ≠ Route ∧ stops (cleanRouteV4_ route "" "") ≠ []) as [Hk Hs].
  { vm_compute in Hin.
    repeat (apply elem_of_cons in Hin as [Hin|Hin];
            [injection Hin as -> ->; split; [discriminate|by vm_compute]|]).
    by apply elem_of_nil in Hin. }
  exact (regEd_period_kept guilfordDoc "21 Guilford Park" "" k route "" "" Hin Hk Hs).
Defined.

Lemma regEdRoutes_eq (content : list StructuralElement) (docName busHint : string) :
  let parsed := omap parseRegEdStopLineV4_ (extractRedParagraphLinesV4_ content) in
  let bus := or_else (normalizeBusV4_ (or_else busHint (extractBusNumberV4_ docName))) "N-A" in
  let school := or_else (inferSchoolNameV4_ docName) "Unknown Route" in
  regEdRoutes content docName busHint
  = omap (fun k => match grouped k parsed with
                   | [] => None
                   | g => Some (k, {| raw_busNumber := bus; raw_schoolName := school;
                                      raw_stops := map regEdRawStop g |})
                   end) [AM; PM; MidDay; Route].
Proof.
  cbv zeta. unfold regEdRoutes.
  set (parsed := omap parseRegEdStopLineV4_ (extractRedParagraphLinesV4_ content)).
  destruct parsed as [|p0 ps] eqn:Hp; [done|]. rewrite <- Hp. clear Hp p0 ps.
  assert ((if (length (grouped AM parsed) + length (grouped PM parsed)
               + length (grouped MidDay parsed) =? 0)%nat
           then parsed else grouped Route parsed) = grouped Route parsed) as ->.
  { destruct (_ =? 0)%nat eqn:E; [|done]. apply Nat.eqb_eq in E.
    assert (grouped AM parsed = [] ∧ grouped PM parsed = [] ∧ grouped MidDay parsed = [])
      as (Ha & Hp & Hm).
    { destruct (grouped AM parsed), (grouped PM parsed), (grouped MidDay parsed);
        simpl in E; try lia; done. }
    clear E. unfold grouped in *. induction parsed as [|s r IH]; [done|]. simpl in *.
    destruct (periodFromTimeV4_ (reg_time s)) eqn:Es; simpl in *; try done.
    f_equal. by apply IH. }
  cbn [omap list_omap].
  by destruct (grouped AM parsed), (grouped PM parsed), (grouped MidDay parsed),
    (grouped Route parsed).
Qed.

Lemma grouped_partition (parsed : list RegEdStop) :
  grouped AM parsed ++ grouped PM parsed ++ grouped MidDay parsed ++ grouped Route parsed
  ≡ₚ parsed.
Proof.
  unfold grouped. induction parsed as [|s r IH]; [done|]. simpl.
  destruct (periodFromTimeV4_ (reg_time s)); simpl.
  - by rewrite IH.
  - rewrite <- Permutation_middle. by rewrite IH.
  - rewrite app_assoc, <- Permutation_middle, <- app_assoc. by rewrite IH.
  - rewrite !app_assoc, <- Permutation_middle, <- !app_assoc. by rewrite IH.
Qed.

(** X23.  The routes [parseRegEdDocV4_] makes of a document come in
    the order AM, PM, Mid-day, Route, one per period at most.  The stops of
    a route are the parsed stops of its period, in document order, and there
    is at least one.  Every route carries a bus number that is "N-A" or
    three or more digits and a school name that is not empty.  Together the
    routes hold every parsed stop exactly once. *)
Theorem regEd_groups (content : list StructuralElement) (docName busHint : string) :
  let parsed := omap parseRegEdStopLineV4_ (extractRedParagraphLinesV4_ content) in
  let routes := regEdRoutes content docName busHint in
  map fst routes `sublist_of` [AM; PM; MidDay; Route] ∧
  Forall (fun kr => raw_stops kr.2 = map regEdRawStop (grouped kr.1 parsed) ∧
                    raw_stops kr.2 ≠ [] ∧
                    bus_label (raw_busNumber kr.2) ∧ raw_schoolName kr.2 ≠ "") routes ∧
  concat (map (fun kr => raw_stops kr.2) routes) ≡ₚ map regEdRawStop parsed.
Proof.
  cbv zeta. rewrite regEdRoutes_eq. cbv zeta.
  set (parsed := omap parseRegEdStopLineV4_ (extractRedParagraphLinesV4_ content)).
  set (bus := or_else _ "N-A"). set (school := or_else _ "Unknown Route").
  assert (bus_label bus) as Hbus.
  { unfold bus, or_else at 1.
    destruct (normalizeBus_label (or_else busHint (extractBusNumberV4_ docName))) as [->|H].
    - by left.
    - destruct (falsy _); [by left|by right]. }
  assert (school ≠ "") as Hschool.
  { unfold school, or_else. destruct (falsy _) eqn:E; [done|]. by apply falsy_false. }
  split; [|split].
  - simpl. destruct (grouped AM parsed), (grouped PM parsed), (grouped MidDay parsed),
      (grouped Route parsed); simpl; repeat (constructor || apply sublist_skip).
  - apply Forall_forall. intros [k route] Hin.
    apply list_elem_of_omap in Hin as (k' & _ & Hg).
    destruct (grouped k' parsed) as [|s0 g0] eqn:E; [done|].
    injection Hg as -> <-. cbn [fst snd raw_stops raw_busNumber raw_schoolName].
    by rewrite E.
  - etrans; [|apply Permutation_map, grouped_partition]. rewrite !map_app. simpl.
    destruct (grouped AM parsed), (grouped PM parsed), (grouped MidDay parsed),
      (grouped Route parsed); simpl; rewrite ?app_nil_r; try done;
      by rewrite <- ?app_assoc.
Qed.

Lemma omap_pairs {A B C} (f : A → option B) (g : A → C) (g' : B → C) (l : list A) :
  (∀ x y, x ∈ l → f x = Some y → g' y = g x) → g' <$> omap f l `sublist_of` g <$> l.
Proof.
  induction l as [|x r IH]; intros H; [done|]. simpl.
  assert (g' <$> omap f r `sublist_of` g <$> r) as IH'.
  { apply IH. intros a b Ha. apply H. by right. }
  destruct (f x) as [y|] eqn:E; simpl.
  - rewrite (H x y ltac:(left) E). by apply sublist_skip.
  - by apply sublist_cons.
Qed.

(** X24.  Cleaning a route of a RegEd document only drops stops: the
    pairs of time and location of the cleaned route are a subsequence of
    those of the route as parsed, because the parser has normalised every
    time and cleaned every location already. *)
Theorem regEd_clean_only_drops (content : list StructuralElement) (docName busHint : string)
    (k : Period) (route : RawRoute) (fallbackSchool fallbackBus : string) :
  (k, route) ∈ regEdRoutes content docName busHint →
  stop_pair <$> stops (cleanRouteV4_ route fallbackSchool fallbackBus)
    `sublist_of` raw_pair <$> raw_stops route.
Proof.
  intros Hin. apply regEdRoutes_in in Hin as [Hstops _]. cbv zeta in Hstops.
  destruct (cleanRoute_fold_candidates route fallbackSchool fallbackBus) as [-> _].
  etrans; [apply fmap_sublist, first_by_sublist|].
  unfold candidates. apply omap_pairs. intros rs st Hrs Hc.
  apply clean_candidate_time in Hc as [Ht Hl].
  rewrite Hstops in Hrs. apply list_elem_of_In, in_map_iff in Hrs as (s & <- & Hs).
  apply list_elem_of_In, grouped_period in Hs as [Hs _].
  apply list_elem_of_omap in Hs as (line & _ & Hp).
  apply parseRegEdStopLine_fixed in Hp as [Hl' Ht'].
  unfold stop_pair, raw_pair. cbn [raw_time raw_location regEdRawStop] in *.
  by rewrite Ht, Hl, Ht', Hl'.
Qed.

Lemma regEd_clean_only_drops_witness :
  Forall (fun kr => stop_pair <$> stops (cleanRouteV4_ kr.2 "" "")
                      `sublist_of` raw_pair <$> raw_stops kr.2)
    (regEdRoutes guilfordDoc "21 Guilford Park" "").
Proof.
  apply Forall_forall. intros [k route] Hin.
  exact (regEd_clean_only_drops guilfordDoc "21 Guilford Park" "" k route "" "" Hin).
Defined.

(** ** The rows of a route sheet *)

Lemma stopRows_shape (numText : Q → string) (i : nat) (s : Stop) :
  Forall (fun row => length row = 9%nat) (stopRows numText i s) ∧
  length (stopRows numText i s) = Nat.max 1 (length (students s)).
Proof.
  unfold stopRows. destruct (students s) as [|st sts]; [by repeat constructor|].
  split.
  - apply Forall_forall. intros row Hrow.
    by apply list_elem_of_In, in_map_iff in Hrow as (x & <- & _).
  - rewrite length_map. simpl. lia.
Qed.

Lemma imap_rows_shape (numText : Q → string) (ss : list Stop) (k : nat) :
  Forall (fun row => length row = 9%nat) (concat (imap (fun i => stopRows numText (k + i)) ss)) ∧
  length (concat (imap (fun i => stopRows numText (k + i)) ss))
  = sum_list (map (fun s => Nat.max 1 (length (students s))) ss).
Proof.
  revert k. induction ss as [|s r IH]; intros k; [by split|].
  cbn [imap concat map sum_list].
  destruct (stopRows_shape numText (k + 0) s) as [H1 H2].
  assert (imap ((fun i => stopRows numText (k + i)) ∘ S) r
          = imap (fun i => stopRows numText (S k + i)) r) as ->.
  { apply imap_ext. intros i x _. simpl. f_equal. lia. }
  destruct (IH (S k)) as [H3 H4]. split.
  - by apply Forall_app_2.
  - rewrite length_app, H2, H4. simpl. lia.
Qed.

(** X25.  The array [upsertSheetV4_] writes is rectangular: every row
    has the nine cells of the header row.  It has the header row and, for
    each stop, one row per student, or a single row when the stop has no
    student.  Every student of the stop at index i has a row with the stop
    number i + 1, the time and location of the stop, the four fields of the
    student and the coordinates. *)
Theorem sheet_rows (numText : Q → string) (route : RouteDraft) :
  let values := sheetValues numText route in
  Forall (fun row => length row = length sheetHeaders) values ∧
  length values
  = S (sum_list (map (fun s => Nat.max 1 (length (students s))) (stops route))) ∧
  ∀ i s st, stops route !! i = Some s → st ∈ students s →
    [pretty (i + 1)%nat; time s; location s; name st; contactName st; phoneNumber st;
     otherEquipment st;
     match latitude s with Some q => numText q | None => "" end;
     match longitude s with Some q => numText q | None => "" end] ∈ values.
Proof.
  cbv zeta. unfold sheetValues.
  destruct (imap_rows_shape numText (stops route) 0) as [H1 H2]. simpl in H1, H2.
  split; [by constructor|]. split; [cbn [length]; f_equal; exact H2|].
  intros i s st Hi Hst. right. apply list_elem_of_In, in_concat.
  exists (stopRows numText i s). split.
  - apply list_elem_of_In. by apply (elem_of_lookup_imap_2 (stopRows numText)).
  - unfold stopRows. destruct (students s) as [|st0 sts] eqn:E; [by apply elem_of_nil in Hst|].
    apply in_map_iff. exists st. split; [done|]. by apply list_elem_of_In.
Qed.

(** ** Names of source files *)

Lemma digit_run_app (ds rest : list ascii) :
  all_digits ds → (∀ c, head rest = Some c → is_digit c = false) →
  digit_run (ds ++ rest) = ds.
Proof.
  intros Hds Hr. induction Hds as [|d ds Hd Hds IH]; simpl.
  - destruct rest as [|c r]; [done|]. simpl. by rewrite (Hr c).
  - by rewrite Hd, IH.
Qed.

Lemma word_digit (c : ascii) : is_digit c = true → is_word c = true.
Proof. unfold is_word. by intros ->. Qed.

Lemma find_bus_head (prev : option ascii) (ds rest : list ascii) :
  all_digits ds → (1 ≤ length ds ≤ 4)%nat →
  wordness prev = false → (∀ c, head rest = Some c → is_word c = false) →
  find_bus prev (ds ++ rest) = Some ds.
Proof.
  intros Hds Hlen Hprev Hrest.
  assert (digit_run (ds ++ rest) = ds) as Hrun.
  { apply digit_run_app; [done|]. intros c Hc. specialize (Hrest c Hc).
    unfold is_word in Hrest. by destruct (is_digit c). }
  destruct ds as [|d r] eqn:E; [simpl in Hlen; lia|]. rewrite <- E in *.
  assert (ds ++ rest = d :: (r ++ rest)) as Hl by (by rewrite E).
  rewrite Hl. cbn [find_bus]. rewrite <- Hl, Hrun.
  assert (is_digit d = true) as Hd by (rewrite E in Hds; by inversion Hds).
  assert (boundary prev (Some d) = true) as ->.
  { unfold boundary. rewrite Hprev. simpl. by rewrite (word_digit d Hd). }
  rewrite (proj2 (Nat.leb_le 1 _)) by lia. rewrite (proj2 (Nat.leb_le _ 4)) by lia.
  rewrite drop_app_length. cbn [andb].
  assert (boundary (last ds) (head rest) = true) as ->; [|done].
  assert (wordness (last ds) = true) as Hlast.
  { destruct (last ds) as [c|] eqn:El.
    - apply last_Some in El as [l' El]. rewrite El in Hds.
      apply Forall_app in Hds as [_ Hc]. simpl. apply word_digit. by inversion Hc.
    - apply last_None in El. rewrite El in E. discriminate E. }
  unfold boundary. rewrite Hlast. destruct (head rest) as [c|] eqn:Hh; simpl; [|done].
  by rewrite (Hrest c).
Qed.

(** X26.  A file name "<bus> <school>.<ext>", the bus being one to
    four digits and the extension having no dot, is split into its parts:
    [extractBusNumberV4_] returns the bus number, normalised, and
    [inferSchoolNameV4_] the school name, trimmed. *)
Theorem name_hints (ds school ext : string) :
  all_digits (chars ds) → (1 ≤ length (chars ds) ≤ 4)%nat →
  Forall (fun c => is_dot c = false) (chars ext) →
  let name := ds +:+ " " +:+ school +:+ "." +:+ ext in
  extractBusNumberV4_ name = normalizeBusV4_ ds ∧
  inferSchoolNameV4_ name = trim school.
Proof.
  intros Hds Hlen Hext name.
  assert (∀ rest, digit_run (chars ds ++ " "%char :: rest) = chars ds) as Hrun.
  { intros rest. apply digit_run_app; [done|]. by intros c [= <-]. }
  split.
  - unfold extractBusNumberV4_, name. rewrite !chars_app.
    rewrite find_bus_head; [by rewrite str_chars|done|done|done|].
    by intros c [= <-].
  - unfold inferSchoolNameV4_, name.
    replace (ds +:+ " " +:+ school +:+ "." +:+ ext)
      with ((ds +:+ " " +:+ school) +:+ "." +:+ ext).
    2:{ apply chars_inj. rewrite !chars_app. by rewrite <- !app_assoc. }
    rewrite (proj1 (stripExt_split _ _ Hext)). rewrite !chars_app.
    change (chars " " ++ ?x) with (" "%char :: x).
    unfold drop_bus_prefix.
    assert (dropWhile is_space (chars ds ++ " "%char :: chars school)
            = chars ds ++ " "%char :: chars school) as ->.
    { apply dropWhile_id. intros c Hc. destruct (chars ds) as [|d r] eqn:E.
      - simpl in Hlen. lia.
      - injection Hc as <-. apply digit_not_space. by inversion Hds. }
    rewrite Hrun, drop_app_length.
    rewrite (proj2 (Nat.leb_le 1 _)) by lia. rewrite (proj2 (Nat.leb_le _ 4)) by lia.
    cbn [andb is_space]. change (is_space " ") with true. cbv iota.
    unfold trim. rewrite chars_str. f_equal. unfold trim_chars. cbn [dropWhile].
    change (is_space " ") with true. cbv iota.
    rewrite (dropWhile_id is_space (dropWhile is_space (chars school))); [done|].
    intros c. apply dropWhile_head.
Qed.

Lemma name_hints_witness :
  extractBusNumberV4_ "21 Guilford Park.pdf" = "021" ∧
  inferSchoolNameV4_ "21 Guilford Park.pdf" = "Guilford Park".
Proof.
  refine (name_hints "21" "Guilford Park" "pdf" _ _ _).
  - by repeat constructor.
  - simpl. lia.
  - by repeat constructor.
Defined.

(** ** Phone numbers, normalised twice *)

Lemma strip_phone_app (a b : list ascii) :
  strip_phone (a ++ b) = strip_phone a ++ strip_phone b.
Proof. apply filter_app. Qed.

Lemma strip_phone_all (l : list ascii) :
  Forall (fun c => phone_char c = true) l → strip_phone l = l.
Proof. apply filter_all. Qed.

Lemma drop_country_chars (l : list ascii) :
  Forall (fun c => phone_char c = true) l →
  Forall (fun c => phone_char c = true) (drop_country l).
Proof.
  intros H. unfold drop_country. destruct l as [|c r]; [done|].
  destruct (_ && _); [by inversion H|done].
Qed.

Lemma drop_country_other (l : list ascii) : length l ≠ 11%nat → drop_country l = l.
Proof.
  intros H. unfold drop_country. destruct l as [|c r]; [done|].
  by rewrite (proj2 (Nat.eqb_neq _ _) H).
Qed.

(** A normalised line is left as it is. *)
Lemma phone_line_fixed (l : list ascii) :
  phone_line (chars (phone_line l)) = phone_line l.
Proof.
  unfold phone_line at 2 3. rewrite chars_str.
  pose proof (drop_country_chars _ (strip_phone_chars l)) as Hp.
  set (p := drop_country (strip_phone l)) in *.
  unfold format_phone. destruct (10 <=? length p)%nat eqn:Hlen.
  - apply Nat.leb_le in Hlen.
    do 10 (destruct p as [|? p]; [simpl in Hlen; lia|]). clear Hlen.
    cbn [take drop app chars list_ascii_of_string].
    repeat match goal with H : Forall _ (_ :: _) |- _ =>
             let H1 := fresh "K" in apply Forall_cons in H as [H1 H] end.
    unfold phone_line.
    change (strip_phone ?x) with (filter (fun c => phone_char c = true) x).
    rewrite ?take_0.
    repeat first [ rewrite filter_cons_True by assumption
                 | rewrite filter_cons_False by (by vm_compute) ].
    rewrite filter_nil. reflexivity.
  - apply Nat.leb_gt in Hlen. unfold phone_line.
    rewrite (strip_phone_all p Hp), drop_country_other by lia.
    unfold format_phone. by rewrite (proj2 (Nat.leb_gt _ _) Hlen).
Qed.

Lemma split_lines_plain (cur l : list ascii) :
  Forall (fun c => (code c =? 10)%N = false) l → split_lines cur l = [cur ++ l].
Proof.
  intros H. revert cur. induction H as [|c r Hc Hr IH]; intros cur; simpl.
  - by rewrite app_nil_r.
  - rewrite Hc, IH. by rewrite <- app_assoc.
Qed.

Lemma split_lines_break (cur l rest : list ascii) :
  Forall (fun c => (code c =? 10)%N = false) l →
  split_lines cur (l ++ chars newline ++ rest) = (cur ++ l) :: split_lines [] rest.
Proof.
  intros H. revert cur. induction H as [|c r Hc Hr IH]; intros cur; simpl.
  - by rewrite app_nil_r.
  - rewrite Hc, IH. by rewrite <- app_assoc.
Qed.

Lemma split_lines_join (entries : list string) :
  entries ≠ [] →
  Forall (fun e => Forall (fun c => (code c =? 10)%N = false) (chars e)) entries →
  split_lines [] (chars (join newline entries)) = map chars entries.
Proof.
  intros Hne H. induction H as [|e r He Hr IH]; [done|]. clear Hne.
  destruct r as [|e' r'].
  - simpl. by rewrite split_lines_plain.
  - cbn [join]. rewrite !chars_app, split_lines_break by done.
    cbn [map app]. f_equal. by apply IH.
Qed.

Lemma filter_seen_all (seen : gset string) (entries : list string) :
  NoDup entries → Forall (fun e => e ≠ "" ∧ e ∉ seen) entries →
  filter_seen seen entries = entries.
Proof.
  intros Hnd. revert seen. induction Hnd as [|e r Hin Hnd IH]; intros seen Hall; [done|].
  apply Forall_cons in Hall as [[He Hs] Hall]. cbn [filter_seen].
  apply falsy_false in He. rewrite He. rewrite decide_False by done. f_equal.
  apply IH. eapply Forall_impl.
  - apply Forall_and. split; [exact Hall|]. apply Forall_forall. intros x Hx. exact Hx.
  - intros x [[Hx1 Hx2] Hx3]. split; [done|].
    rewrite not_elem_of_union, not_elem_of_singleton. split; [|done].
    intros ->. by apply Hin.
Qed.

Lemma phone_out_no_newline (c : ascii) : phone_out_char c → (code c =? 10)%N = false.
Proof.
  intros [H| ->]; [|done].
  destruct c as [[] [] [] [] [] [] [] []]; (reflexivity || discriminate).
Qed.

Lemma join_nonempty (e : string) (r : list string) : e ≠ "" → join newline (e :: r) ≠ "".
Proof. destruct e; [done|]. by destruct r. Qed.

(** X27.  [normalizePhonesV3_] is idempotent: normalising a normalised
    phone string returns it as it is. *)
Theorem normalizePhones_idempotent (raw : string) :
  normalizePhonesV3_ (normalizePhonesV3_ raw) = normalizePhonesV3_ raw.
Proof.
  unfold normalizePhonesV3_ at 2 3. destruct (falsy raw); [done|].
  assert (NoDup (phone_entries raw)) as Hnd.
  { rewrite phone_entries_spec. rewrite <- (list_fmap_id (first_by id _)).
    apply first_by_NoDup. }
  assert (Forall (fun e => e ≠ "" ∧ ∃ l, e = phone_line l) (phone_entries raw)) as Hall.
  { rewrite phone_entries_spec. apply Forall_forall. intros e He.
    eapply elem_of_sublist in He; [|apply first_by_sublist].
    apply list_elem_of_filter in He as [He1 He2]. split; [done|].
    apply list_elem_of_In, in_map_iff in He2 as (l & <- & _). by exists l. }
  destruct (phone_entries raw) as [|e r] eqn:E; [done|]. rewrite <- E in *.
  unfold normalizePhonesV3_.
  assert (falsy (join newline (phone_entries raw)) = false) as ->.
  { apply falsy_false. rewrite E. apply join_nonempty.
    rewrite E in Hall. by apply Forall_cons in Hall as [[? _] _]. }
  f_equal. unfold phone_entries at 1. rewrite split_lines_join.
  - rewrite map_map.
    replace (map (fun x => phone_line (chars x)) (phone_entries raw))
      with (phone_entries raw).
    + apply filter_seen_all; [done|]. eapply Forall_impl; [exact Hall|].
      intros x [Hx _]. split; [done|]. apply not_elem_of_empty.
    + rewrite <- (map_id (phone_entries raw)) at 1. apply map_ext_Forall.
      eapply Forall_impl; [exact Hall|]. intros x [_ [l ->]]. symmetry.
      apply phone_line_fixed.
  - by rewrite E.
  - eapply Forall_impl; [exact Hall|]. intros x [_ [l ->]].
    eapply Forall_impl; [apply phone_line_chars|]. apply phone_out_no_newline.
Qed.

(** ** A batch of unchanged items *)

Lemma forEach_unchanged (sv : Services) (items : list WorkItem) (w : World) :
  Forall (unchanged (processed (w_state w))) items →
  let w' := (forEach (fun item => processItem sv item ;; advance) items w).2 in
  w_trace w' = w_trace w ∧ w_drive w' = w_drive w ∧
  processed (w_state w') = processed (w_state w) ∧
  geocodeCache (w_state w') = geocodeCache (w_state w) ∧
  w_logs w' = w_logs w ++ map skipLine items.
Proof.
  revert w. induction items as [|item r IH]; intros w Hall.
  - simpl. by rewrite app_nil_r.
  - apply Forall_cons in Hall as [(Hf & Hr & Hs) Hall].
    cbn [forEach]. cbv zeta. rewrite (bind_ok _ _ w _ tt (turn_run sv item w)).
    rewrite (processItem_skip sv item w Hf Hr Hs).
    cbn [snd].
    destruct (IH (advance (logged (skipLine item) w)).2 Hall) as (H1 & H2 & H3 & H4 & H5).
    fold (skipLine item). rewrite H1, H2, H3, H4, H5. simpl. by rewrite <- app_assoc.
Qed.

(** X28.  A batch whose items all have a file id and a route type and
    pass the skip test makes no outside
    call and writes nothing: the trace, the bus folders, the table of
    processed files and the geocode cache are as before, and the log gains
    one "[SKIP]" line per item, in queue order. *)
Theorem runBatch_unchanged (sv : Services) (w : World) :
  Forall (unchanged (processed (w_state w))) (batchItems (w_state w)) →
  let w' := (runBatch sv w).2 in
  w_trace w' = w_trace w ∧ w_drive w' = w_drive w ∧
  processed (w_state w') = processed (w_state w) ∧
  geocodeCache (w_state w') = geocodeCache (w_state w) ∧
  w_logs w' = w_logs w ++ map skipLine (batchItems (w_state w)).
Proof. intros H. cbv zeta. rewrite runBatch_items. by apply forEach_unchanged. Qed.

Lemma runBatch_unchanged_witness :
  let w := startWorld {| queue := [guilfordPdf]; pos := 0;
                         processed := {[ "pdf-1" := "1700000000000" ]};
                         geocodeCache := ∅ |} in
  w_trace (runBatch noMatchServices w).2 = w_trace w.
Proof.
  intros w. refine (proj1 (runBatch_unchanged noMatchServices w _)).
  repeat constructor; by vm_compute.
Defined.

(** ** The range of a parsed time *)

Lemma digit_val_range (c : ascii) : is_digit c = true → 0 <= digit_val c <= 9.
Proof. destruct c as [[] [] [] [] [] [] [] []]; (by vm_compute) || discriminate. Qed.

Lemma minutes_of_upper (m : TimeMatch) : minutes_of (upper_match m) = minutes_of m.
Proof.
  unfold minutes_of, upper_match. cbn [m_hour m_min m_ap].
  destruct (m_ap m) as [ap|]; cbn [fmap option_fmap option_map default from_option id];
    by rewrite ?map_upper_fixed.
Qed.

(** X29.  A time that [parseTimeMinsV4_] parses is between 0 and
    99 * 60 + 99 minutes.  No narrower range is checked: "25:61" parses, to
    1561. *)
Theorem parseTimeMins_range (s : string) (t : Z) :
  parseTimeMinsV4_ s = Some t → 0 <= t <= 99 * 60 + 99.
Proof.
  rewrite parseTimeMins_groups.
  pose proof (match_time_squeeze (trim_chars (chars s))) as Hs.
  destruct (match_time true (trim_chars (chars s))) as [m|]; [|done].
  cbn [fmap option_fmap option_map] in *. intros [= <-].
  apply match_time_plain in Hs. rewrite <- minutes_of_upper.
  destruct (upper_match m) as [h mm ap]. unfold plain_match in Hs.
  cbn [m_hour m_min m_ap] in Hs. destruct Hs as (Hh & Hm & Ha).
  unfold minutes_of. cbn [m_hour m_min m_ap].
  assert (0 <= parseInt h <= 99) as Hhr.
  { destruct Hh as [(a & -> & Ha1)|(a & b & -> & Ha1 & Hb1)]; unfold parseInt;
      cbn [fold_left].
    - pose proof (digit_val_range a Ha1). lia.
    - pose proof (digit_val_range a Ha1). pose proof (digit_val_range b Hb1). lia. }
  assert (0 <= parseInt (default (chars "0") mm) <= 99) as Hmr.
  { destruct Hm as [->|(a & b & -> & Ha1 & Hb1)]; unfold parseInt;
      cbn [default from_option id fold_left]; [by vm_compute|].
    pose proof (digit_val_range a Ha1). pose proof (digit_val_range b Hb1). lia. }
  change (chars "0") with ["0"%char] in *.
  destruct Ha as [->|[->| ->]]; simpl.
  - lia.
  - destruct (parseInt h =? 12) eqn:E; lia.
  - destruct (parseInt h <? 12) eqn:E; [apply Z.ltb_lt in E|]; lia.
Qed.

Lemma parseTimeMins_range_witness :
  parseTimeMinsV4_ "25:61" = Some 1561 ∧ 0 <= 1561 <= 99 * 60 + 99.
Proof.
  split; [by vm_compute|]. apply (parseTimeMins_range "25:61"). by vm_compute.
Defined.
